(** * lnnblog-sync: the synchronisation script [index.js], embedded in Rocq.

    The development follows the script:
    - JavaScript values: strings as sequences of UTF-16 code units, [Map]
      as an insertion-ordered association list, parsed JSON;
    - the change reducer: the loop over [recentchanges], the exclusion
      filter, the move list and the export title list, first on values and
      then on shared objects as the script holds them;
    - the two regular expressions of the export post-processing, as
      backtracking matchers;
    - [api], [apiQueryListAll], [apiLogin] and the top level of the script,
      as computations over the state of a run (the [mock] object, the
      requests sent and their replies, the files written);
    - the theorems, in the same order. *)

From Stdlib Require Import List String Ascii NArith ZArith Bool Arith Lia.
Import ListNotations.

Set Implicit Arguments.

(* ===================================================================== *)
(** ** JavaScript strings *)
(* ===================================================================== *)

(** A JavaScript string is a sequence of UTF-16 code units; [===] on
    strings compares the sequences, and a string is truthy when it is not
    empty. Wiki titles are mostly non-ASCII here, so code units are kept as
    numbers; [js] reads an ASCII literal of the script. *)
Definition jsstring := list N.

Definition js (s : string) : jsstring :=
  List.map N_of_ascii (list_ascii_of_string s).

Fixpoint jseqb (a b : jsstring) : bool :=
  match a, b with
  | [], [] => true
  | x :: a', y :: b' => N.eqb x y && jseqb a' b'
  | _, _ => false
  end.

Definition truthy (s : jsstring) : bool :=
  match s with [] => false | _ :: _ => true end.

(** [x && f x] on a possibly undefined string. *)
Definition truthy_and (o : option jsstring) (f : jsstring -> bool) : bool :=
  match o with
  | Some s => truthy s && f s
  | None => false
  end.

(* ===================================================================== *)
(** ** JavaScript [Map] with string keys *)
(* ===================================================================== *)

(** A [Map] iterates in insertion order: [set] on a key that is present
    keeps the key's position, [set] on a new key appends, [delete] removes
    the entry. *)
Section JsMap.
Variable V : Type.

Definition JsMap := list (jsstring * V).

Fixpoint map_get (k : jsstring) (m : JsMap) : option V :=
  match m with
  | [] => None
  | (k', v) :: m' => if jseqb k k' then Some v else map_get k m'
  end.

Fixpoint map_set (k : jsstring) (v : V) (m : JsMap) : JsMap :=
  match m with
  | [] => [(k, v)]
  | (k', v') :: m' =>
      if jseqb k k' then (k', v) :: m' else (k', v') :: map_set k v m'
  end.

Fixpoint map_delete (k : jsstring) (m : JsMap) : JsMap :=
  match m with
  | [] => []
  | (k', v') :: m' =>
      if jseqb k k' then m' else (k', v') :: map_delete k m'
  end.

Definition map_keys (m : JsMap) : list jsstring := List.map fst m.

Definition map_size (m : JsMap) : nat := List.length m.
End JsMap.

(** A [Set] of strings, used through [add] and [has] only. *)
Definition JsSet := list jsstring.

Definition set_has (s : JsSet) (k : jsstring) : bool := existsb (jseqb k) s.

(* ===================================================================== *)
(** ** The change reducer *)
(* ===================================================================== *)

(** What [JSON.parse] yields, and [undefined] for what is absent. *)
#[local] Set Warnings "-register-all".
Inductive Json : Type :=
| JUndefined
| JNull
| JBool (b : bool)
| JNum (n : Z)
| JStr (s : jsstring)
| JArr (items : list Json)
| JObj (fields : list (jsstring * Json)).
#[local] Set Warnings "register-all".

(** [v == "delete"], the loose comparison the loop makes of [logaction].
    A string is compared as a string. [undefined] and [null] are loosely
    equal to each other only. A number or a boolean is compared as a
    number with the number of the literal, which is [NaN]. An array or an
    object is first turned into a primitive, by its [toString]: a plain
    object gives "[object Object]", an array gives the [join(",")] of its
    elements, where a string stands for itself, an array for its own
    [toString], and [null] for the empty string. The literal has no
    comma, so an array equal to it has one element, and that element is
    the string "delete" or again such an array. *)
Fixpoint loosely_delete (v : Json) : bool :=
  match v with
  | JStr s => jseqb s (js "delete")
  | JArr [x] => loosely_delete x
  | _ => false
  end.

(** The values that cannot be turned into a primitive, so that the
    comparison throws a [TypeError] instead of having a value: an object
    with an own property [toString], which is no function in a parsed
    value and hides the inherited one, and an array that holds such a
    value, since [join] converts every element. *)
Fixpoint unprintable (v : Json) : bool :=
  match v with
  | JObj fields =>
      match map_get (js "toString") fields with
      | Some _ => true
      | None => false
      end
  | JArr items => existsb unprintable items
  | _ => false
  end.

(** One entry of [recentchanges], with the fields the loop destructures.
    [minor] and [suppressredirect] are read through their truthiness
    only; [type] and [logtype] are compared strictly with string
    literals; [logaction] is compared loosely and is kept as parsed. An
    entry on which that comparison would throw does not become an event:
    [decode_change] raises the error. *)
Record LogParams := mkLogParams {
  target_title : jsstring;
  suppressredirect : bool
}.

Record ChangeEvent := mkChange {
  rc_type : jsstring;
  rc_title : jsstring;
  rc_pageid : Z;
  rc_minor : bool;
  rc_logtype : jsstring;
  rc_logaction : Json;
  rc_logparams : LogParams
}.

(** A value of the [pages] map: [{ oldTitle?: string, minor: boolean }]. *)
Record PageInfo := mkInfo {
  oldTitle : option jsstring;
  minor : bool
}.

(** The two maps the loop fills. The script keeps one object per key: the
    move branch stores the object found at [title] under [target_title] and
    in the same step deletes or replaces the entry of [title], and no
    mutation happens in between, so an object is never reachable from two
    keys when [info.minor &&= ...] runs. Values are therefore stored in the
    map itself; [reduce_shared_view] relates this to the map of shared
    objects. *)
Record SyncState := mkState {
  pages : JsMap PageInfo;
  fileIds : JsMap Z
}.

Definition empty_state : SyncState := {| pages := []; fileIds := [] |}.

Definition no_params : LogParams :=
  {| target_title := []; suppressredirect := false |}.

(** The body of [for (const {...} of changes)]. *)
Definition step (st : SyncState) (e : ChangeEvent) : SyncState :=
  let title := rc_title e in
  if jseqb (rc_type e) (js "new") || jseqb (rc_type e) (js "edit") then
    match map_get title (pages st) with
    | Some info =>
        {| pages := map_set title
                      {| oldTitle := oldTitle info;
                         minor := minor info && rc_minor e |} (pages st);
           fileIds := fileIds st |}
    | None =>
        {| pages := map_set title
                      {| oldTitle := None; minor := rc_minor e |} (pages st);
           fileIds := fileIds st |}
    end
  else if jseqb (rc_type e) (js "log") then
    if jseqb (rc_logtype e) (js "delete")
       && loosely_delete (rc_logaction e) then
      {| pages := map_delete title (pages st); fileIds := fileIds st |}
    else if jseqb (rc_logtype e) (js "move") then
      let info :=
        match map_get title (pages st) with
        | Some i => i
        | None => {| oldTitle := Some title; minor := true |}
        end in
      let moved := map_set (target_title (rc_logparams e)) info (pages st) in
      if suppressredirect (rc_logparams e) then
        {| pages := map_delete title moved; fileIds := fileIds st |}
      else
        {| pages := map_set title {| oldTitle := None; minor := false |} moved;
           fileIds := fileIds st |}
    else if jseqb (rc_logtype e) (js "upload") then
      (* fileIds.set(title, pageid) is commented out in the script *)
      st
    else st
  else st.

Definition reduce_from (st : SyncState) (changes : list ChangeEvent)
  : SyncState :=
  fold_left step changes st.

Definition reduce (changes : list ChangeEvent) : SyncState :=
  reduce_from empty_state changes.

(** The three kinds of event the loop acts on, by the tests it makes. *)
Definition is_page_event (e : ChangeEvent) : bool :=
  jseqb (rc_type e) (js "new") || jseqb (rc_type e) (js "edit").

Definition is_delete_event (e : ChangeEvent) : bool :=
  negb (is_page_event e)
  && jseqb (rc_type e) (js "log")
  && (jseqb (rc_logtype e) (js "delete")
      && loosely_delete (rc_logaction e)).

Definition is_move_event (e : ChangeEvent) : bool :=
  negb (is_page_event e)
  && jseqb (rc_type e) (js "log")
  && negb (jseqb (rc_logtype e) (js "delete")
           && loosely_delete (rc_logaction e))
  && jseqb (rc_logtype e) (js "move").

(** "Remove excluded titles from to-do list": both loops delete the entry
    they are visiting, which a [Map] iterator allows, so every entry is
    visited once and the survivors keep their order. *)
Definition excluded_entry (excludedPages : JsSet)
           (entry : jsstring * PageInfo) : bool :=
  set_has excludedPages (fst entry)
  || truthy_and (oldTitle (snd entry)) (set_has excludedPages).

Definition exclude (excludedPages : JsSet) (st : SyncState) : SyncState :=
  {| pages := filter (fun en => negb (excluded_entry excludedPages en))
                     (pages st);
     fileIds := filter (fun en => negb (set_has excludedPages (fst en)))
                       (fileIds st) |}.

(** [Array.from(pages).filter(...).map(...)]. *)
Definition is_move_entry (entry : jsstring * PageInfo) : bool :=
  truthy_and (oldTitle (snd entry)) (fun old => negb (jseqb (fst entry) old)).

Definition move_pair (entry : jsstring * PageInfo) : jsstring * jsstring :=
  (match oldTitle (snd entry) with Some old => old | None => [] end,
   fst entry).

Definition moves (p : JsMap PageInfo) : list (jsstring * jsstring) :=
  List.map move_pair (filter is_move_entry p).

(** [[...pages.keys()]], the titles sent to the export. *)
Definition export_titles (p : JsMap PageInfo) : list jsstring := map_keys p.

(** The to-do list of a run: reduction, then the exclusion filter. *)
Definition todo (changes : list ChangeEvent) (excludedPages : JsSet)
  : SyncState :=
  exclude excludedPages (reduce changes).

(** Events as the feed delivers them. *)
Definition ev_new (t : jsstring) (m : bool) : ChangeEvent :=
  mkChange (js "new") t 0 m [] JUndefined no_params.
Definition ev_edit (t : jsstring) (m : bool) : ChangeEvent :=
  mkChange (js "edit") t 0 m [] JUndefined no_params.
Definition ev_delete (t : jsstring) : ChangeEvent :=
  mkChange (js "log") t 0 false (js "delete") (JStr (js "delete")) no_params.
Definition ev_move (from to : jsstring) (suppress : bool) : ChangeEvent :=
  mkChange (js "log") from 0 false (js "move") (JStr (js "move"))
           (mkLogParams to suppress).
Definition ev_upload (t : jsstring) (id : Z) : ChangeEvent :=
  mkChange (js "log") t id false (js "upload") (JStr (js "upload")) no_params.

(* ===================================================================== *)
(** ** The reducer of the previous version of the script *)
(* ===================================================================== *)

(** The version of the script before the minor flags were tracked keeps a
    [titleMapping] from a title to the title the page had on the target
    ([""] for a page that is not there yet), and records uploads. *)
Module Previous.

Record State := mkState {
  titleMapping : JsMap jsstring;
  fileIds : JsMap Z
}.

Definition empty_state : State := {| titleMapping := []; fileIds := [] |}.

(** [titleMapping.has(title) || titleMapping.set(title, v)]. *)
Definition set_if_absent (title v : jsstring) (m : JsMap jsstring)
  : JsMap jsstring :=
  match map_get title m with
  | Some _ => m
  | None => map_set title v m
  end.

(** The body of [for (const {...} of changes)]. *)
Definition step (st : State) (e : ChangeEvent) : State :=
  let title := rc_title e in
  if jseqb (rc_type e) (js "new") then
    {| titleMapping := set_if_absent title [] (titleMapping st);
       fileIds := fileIds st |}
  else if jseqb (rc_type e) (js "edit") then
    {| titleMapping := set_if_absent title title (titleMapping st);
       fileIds := fileIds st |}
  else if jseqb (rc_type e) (js "log") then
    if jseqb (rc_logtype e) (js "delete")
       && loosely_delete (rc_logaction e) then
      {| titleMapping := map_delete title (titleMapping st);
         fileIds := fileIds st |}
    else if jseqb (rc_logtype e) (js "move") then
      let oldTitle :=
        match map_get title (titleMapping st) with
        | Some o => o
        | None => title
        end in
      let moved := map_set (target_title (rc_logparams e)) oldTitle
                           (titleMapping st) in
      if suppressredirect (rc_logparams e) then
        {| titleMapping := map_delete title moved; fileIds := fileIds st |}
      else
        {| titleMapping := map_set title [] moved; fileIds := fileIds st |}
    else if jseqb (rc_logtype e) (js "upload") then
      {| titleMapping := titleMapping st;
         fileIds := map_set title (rc_pageid e) (fileIds st) |}
    else st
  else st.

Definition reduce (changes : list ChangeEvent) : State :=
  fold_left step changes empty_state.

(** [Array.from(titleMapping).filter(([to, from]) => from && to !== from)]:
    the pairs are [to, from]. *)
Definition moves (m : JsMap jsstring) : list (jsstring * jsstring) :=
  filter (fun en => truthy (snd en) && negb (jseqb (fst en) (snd en))) m.

End Previous.

(* ===================================================================== *)
(** ** The pending map with shared objects *)
(* ===================================================================== *)

(** The script's [pages] maps a title to an object, and the loop both
    stores an object it found under a second key and changes an object in
    place. [SharedPages] keeps these objects in a heap and the references
    in the map, so that two keys can hold the same object;
    [shared_refines] shows that [step] computes the same map. *)
Record SharedPages := mkShared {
  refs : JsMap nat;
  heap : list PageInfo
}.

Definition empty_shared : SharedPages := {| refs := []; heap := [] |}.

Fixpoint heap_update (r : nat) (f : PageInfo -> PageInfo)
         (h : list PageInfo) : list PageInfo :=
  match h, r with
  | [], _ => []
  | i :: h', O => f i :: h'
  | i :: h', S r' => i :: heap_update r' f h'
  end.

Definition no_info : PageInfo := {| oldTitle := None; minor := false |}.

Definition deref (h : list PageInfo) (r : nat) : PageInfo := nth r h no_info.

(** [pages] as the rest of the script sees it. *)
Definition map_vals {V W : Type} (g : V -> W) (m : JsMap V) : JsMap W :=
  List.map (fun kv => (fst kv, g (snd kv))) m.

Definition view (s : SharedPages) : JsMap PageInfo :=
  map_vals (deref (heap s)) (refs s).

(** The body of the loop over [changes], on references. *)
Definition step_shared (s : SharedPages) (e : ChangeEvent) : SharedPages :=
  let title := rc_title e in
  if jseqb (rc_type e) (js "new") || jseqb (rc_type e) (js "edit") then
    match map_get title (refs s) with
    | Some info =>
        {| refs := refs s;
           heap := heap_update info
                     (fun i => {| oldTitle := oldTitle i;
                                  minor := minor i && rc_minor e |})
                     (heap s) |}
    | None =>
        {| refs := map_set title (List.length (heap s)) (refs s);
           heap := heap s ++ [{| oldTitle := None; minor := rc_minor e |}] |}
    end
  else if jseqb (rc_type e) (js "log") then
    if jseqb (rc_logtype e) (js "delete")
       && loosely_delete (rc_logaction e) then
      {| refs := map_delete title (refs s); heap := heap s |}
    else if jseqb (rc_logtype e) (js "move") then
      let found :=
        match map_get title (refs s) with
        | Some info => (info, heap s)
        | None => (List.length (heap s),
                   heap s ++ [{| oldTitle := Some title; minor := true |}])
        end in
      let moved := map_set (target_title (rc_logparams e)) (fst found)
                           (refs s) in
      if suppressredirect (rc_logparams e) then
        {| refs := map_delete title moved; heap := snd found |}
      else
        {| refs := map_set title (List.length (snd found)) moved;
           heap := snd found ++ [{| oldTitle := None; minor := false |}] |}
    else s
  else s.

(** No object is held under two keys, and every reference is live. *)
Definition unshared (s : SharedPages) : Prop :=
  NoDup (map_keys (refs s))
  /\ (forall k1 k2 r, map_get k1 (refs s) = Some r ->
                      map_get k2 (refs s) = Some r -> k1 = k2)
  /\ (forall k r, map_get k (refs s) = Some r ->
                  (r < List.length (heap s))%nat).

(* ===================================================================== *)
(** ** Regular expressions of the export post-processing *)
(* ===================================================================== *)

(** [\s] of a JavaScript regular expression: the white space and line
    terminator code units. *)
Definition is_space (c : N) : bool :=
  ((9 <=? c) && (c <=? 13)
   || (c =? 32) || (c =? 160) || (c =? 5760)
   || ((8192 <=? c) && (c <=? 8202))
   || (c =? 8232) || (c =? 8233) || (c =? 8239) || (c =? 8287)
   || (c =? 12288) || (c =? 65279))%N.

(** [.] under the [s] flag. *)
Definition any_unit (c : N) : bool := true.

(** The pieces of a pattern are backtracking matchers in
    continuation-passing style: a matcher consumes a prefix of the input
    and hands the rest to its continuation; when the continuation fails it
    tries its next alternative. *)
Section Backtracking.
Variable R : Type.

(** A literal run of code units. *)
Fixpoint lit (l s : jsstring) (k : jsstring -> option R) : option R :=
  match l with
  | [] => k s
  | c :: l' =>
      match s with
      | d :: s' => if N.eqb c d then lit l' s' k else None
      | [] => None
      end
  end.

(** [cls*]: as many units as possible first, then fewer. *)
Fixpoint star_greedy (cls : N -> bool) (s : jsstring)
         (k : jsstring -> option R) : option R :=
  match s with
  | c :: s' =>
      if cls c then
        match star_greedy cls s' k with
        | Some r => Some r
        | None => k s
        end
      else k s
  | [] => k s
  end.

(** [(cls*?)]: as few units as possible first, then more; the
    continuation receives what the group captured. *)
Fixpoint star_lazy (cls : N -> bool) (acc s : jsstring)
         (k : jsstring -> jsstring -> option R) : option R :=
  match k acc s with
  | Some r => Some r
  | None =>
      match s with
      | c :: s' => if cls c then star_lazy cls (acc ++ [c]) s' k else None
      | [] => None
      end
  end.
End Backtracking.

(** [/<title>\s*(.*?)\s*<\/title>.*?<\/revision>/s] tried at the start of
    [s]: the captured title and the input left after the match. *)
Definition re_title (s : jsstring) : option (jsstring * jsstring) :=
  lit (js "<title>") s (fun s1 =>
  star_greedy is_space s1 (fun s2 =>
  star_lazy any_unit [] s2 (fun title s3 =>
  star_greedy is_space s3 (fun s4 =>
  lit (js "</title>") s4 (fun s5 =>
  star_lazy any_unit [] s5 (fun _ s6 =>
  lit (js "</revision>") s6 (fun s7 =>
  Some (title, s7)))))))).

(** [/\s*<minor\s*\/>/] tried at the start of [s]: the input left after
    the match. *)
Definition re_minor (s : jsstring) : option jsstring :=
  star_greedy is_space s (fun s1 =>
  lit (js "<minor") s1 (fun s2 =>
  star_greedy is_space s2 (fun s3 =>
  lit (js "/>") s3 (fun s4 =>
  Some s4)))).

(** [str.replace(/\s*<minor\s*\/>/, "")]: the pattern has no [g] flag, so
    the leftmost match is removed and nothing else. *)
Fixpoint strip_minor (str : jsstring) : jsstring :=
  match re_minor str with
  | Some rest => rest
  | None =>
      match str with
      | c :: str' => c :: strip_minor str'
      | [] => []
      end
  end.

(** [xml.replace(/.../gs, (str, title) => ...)]: the matches are found
    from left to right, each search starting where the previous match
    ended; a match is replaced by what the callback returns and the text
    between matches is kept. [skip] counts the units of the current match
    that are still to be passed over. *)
Fixpoint replace_titles (f : jsstring -> jsstring -> jsstring)
         (xml : jsstring) (skip : nat) : jsstring :=
  match xml with
  | [] => []
  | c :: xml' =>
      match skip with
      | S n => replace_titles f xml' n
      | O =>
          match re_title xml with
          | Some (title, rest) =>
              let len := (List.length xml - List.length rest)%nat in
              f (firstn len xml) title ++ replace_titles f xml' (len - 1)
          | None => c :: replace_titles f xml' 0
          end
      end
  end.

(** The callback: [if (pages.get(title)?.minor === false) ...]. *)
Definition unminor (p : JsMap PageInfo) (str title : jsstring) : jsstring :=
  match map_get title p with
  | Some info => if minor info then str else strip_minor str
  | None => str
  end.

(** "un-minor-ify revisions of pages that we know have recent non-minor
    revisions". *)
Definition patch_export (p : JsMap PageInfo) (xmlExport : jsstring)
  : jsstring :=
  replace_titles (unminor p) xmlExport 0.

(* ===================================================================== *)
(** ** JSON values, requests and the state of a run *)
(* ===================================================================== *)

Definition js_truthy (v : Json) : bool :=
  match v with
  | JUndefined | JNull => false
  | JBool b => b
  | JNum n => negb (Z.eqb n 0)
  | JStr s => truthy s
  | JArr _ | JObj _ => true
  end.

(** What the script can throw. *)
Inductive Error : Type :=
| PlainError (message : jsstring)
| TypeError
| APIError (message : jsstring) (data : Json)
| AxiosError (info : Json).

(** How a computation of the script ends. [OutOfFuel] and [Unmodelled]
    belong to the model: the first is a loop that has not finished within
    the given number of iterations, the second a value outside the types
    the script declares for it (a title that is not a string, a [query]
    that is not an object when pages are merged). *)
Inductive Outcome (A : Type) : Type :=
| Ok (a : A)
| Throw (e : Error)
| Exit
| OutOfFuel
| Unmodelled.

Arguments Ok {A} a.
Arguments Throw {A} e.
Arguments Exit {A}.
Arguments OutOfFuel {A}.
Arguments Unmodelled {A}.

Definition obind {A B : Type} (r : Outcome A) (k : A -> Outcome B)
  : Outcome B :=
  match r with
  | Ok a => k a
  | Throw e => Throw e
  | Exit => Exit
  | OutOfFuel => OutOfFuel
  | Unmodelled => Unmodelled
  end.

Fixpoint omap {A B : Type} (f : A -> Outcome B) (l : list A)
  : Outcome (list B) :=
  match l with
  | [] => Ok []
  | x :: l' => obind (f x) (fun y => obind (omap f l') (fun ys => Ok (y :: ys)))
  end.

(** [v.k]: a property of [null] or [undefined] cannot be read; the keys
    read by the script are own properties of objects only. *)
Definition prop (k : jsstring) (v : Json) : Outcome Json :=
  match v with
  | JUndefined | JNull => Throw TypeError
  | JObj fields =>
      Ok (match map_get k fields with Some x => x | None => JUndefined end)
  | JBool _ | JNum _ | JStr _ | JArr _ => Ok JUndefined
  end.

(** [v?.k]. *)
Definition prop_opt (k : jsstring) (v : Json) : Json :=
  match v with
  | JObj fields => match map_get k fields with Some x => x | None => JUndefined end
  | _ => JUndefined
  end.

(** Truthiness of [v?.length]. *)
Definition length_truthy (v : Json) : bool :=
  match v with
  | JArr items => negb (Nat.eqb (List.length items) 0)
  | JStr s => truthy s
  | JObj fields => js_truthy (prop_opt (js "length") (JObj fields))
  | JUndefined | JNull | JBool _ | JNum _ => false
  end.

(** [typeof v === "object"]. *)
Definition is_object (v : Json) : bool :=
  match v with
  | JNull | JArr _ | JObj _ => true
  | JUndefined | JBool _ | JNum _ | JStr _ => false
  end.

(** [{ ...base, ...over }]. *)
Definition spread (base over : JsMap Json) : JsMap Json :=
  fold_left (fun m kv => map_set (fst kv) (snd kv) m) over base.

(** The configuration read from the environment; an unset variable is the
    empty string here, which the script's tests do not tell apart. *)
Record Config := mkConfig {
  sourceApiPhp : jsstring;
  sourceUsername : jsstring;
  sourcePassword : jsstring;
  targetApiPhp : jsstring;
  targetUsername : jsstring;
  targetPassword : jsstring;
  envLastSync : jsstring;
  mockLogin : bool;
  saveMockFlag : bool
}.

(** A call of [ax]: the URL and the parts of the axios configuration that
    reach the wire. *)
Record Request := mkRequest {
  rq_url : jsstring;
  rq_method : jsstring;
  rq_params : JsMap Json;
  rq_data : JsMap Json
}.

(** What [ax] resolves to ([resp.data]) or rejects with. *)
Inductive Reply : Type :=
| Response (data : Json)
| Failure (info : Json).

(** The state a run works on: the [mock] object, the requests sent so far
    with their replies, the two files the script writes, and what
    [console.error] has received. *)
Record World := mkWorld {
  mock : JsMap Json;
  trace : list (Request * Reply);
  lastsync_file : option jsstring;
  mockfile : option (JsMap Json);
  logged : list Error
}.

Definition set_mock (w : World) (m : JsMap Json) : World :=
  mkWorld m (trace w) (lastsync_file w) (mockfile w) (logged w).

Definition add_exchange (w : World) (x : Request * Reply) : World :=
  mkWorld (mock w) (trace w ++ [x]) (lastsync_file w) (mockfile w) (logged w).

Definition set_lastsync (w : World) (s : jsstring) : World :=
  mkWorld (mock w) (trace w) (Some s) (mockfile w) (logged w).

(** [saveMock]: [writeFile("~mockfile.json", JSON.stringify(mock))]. *)
Definition save_mock (w : World) : World :=
  mkWorld (mock w) (trace w) (lastsync_file w) (Some (mock w)) (logged w).

Definition console_error (w : World) (e : Error) : World :=
  mkWorld (mock w) (trace w) (lastsync_file w) (mockfile w) (logged w ++ [e]).

(** Computations of the script: every [await] is sequential, so a
    computation takes the state and returns how it ended and the state it
    left. *)
Definition M (A : Type) : Type := World -> Outcome A * World.

Definition ret {A : Type} (a : A) : M A := fun w => (Ok a, w).

Definition bind {A B : Type} (c : M A) (k : A -> M B) : M B :=
  fun w =>
    match c w with
    | (Ok a, w') => k a w'
    | (Throw e, w') => (Throw e, w')
    | (Exit, w') => (Exit, w')
    | (OutOfFuel, w') => (OutOfFuel, w')
    | (Unmodelled, w') => (Unmodelled, w')
    end.

Definition lift {A : Type} (r : Outcome A) : M A := fun w => (r, w).

Declare Scope sync_scope.
Delimit Scope sync_scope with sync.
Notation "x <- c ;; k" := (bind c (fun x => k))
  (at level 61, c at next level, right associativity) : sync_scope.
Notation "c ;;; k" := (bind c (fun _ => k))
  (at level 61, right associativity) : sync_scope.
Local Open Scope sync_scope.

(** [c.catch(console.error)]: a rejection is logged and the result is
    dropped. *)
Definition catch_log {A : Type} (c : M A) : M unit :=
  fun w =>
    match c w with
    | (Ok _, w') => (Ok tt, w')
    | (Throw e, w') => (Ok tt, console_error w' e)
    | (Exit, w') => (Exit, w')
    | (OutOfFuel, w') => (OutOfFuel, w')
    | (Unmodelled, w') => (Unmodelled, w')
    end.

(** [writeFile("~lastsync", v)]: only a string can be written. *)
Definition write_lastsync (v : Json) : M unit :=
  fun w =>
    match v with
    | JStr s => (Ok tt, set_lastsync w s)
    | _ => (Throw TypeError, w)
    end.

(** The options of an [api] call that matter: [_mock] ([None] when it is
    absent or [false]), the method, the query parameters and the form
    fields. *)
Record Opt := mkOpt {
  o_mock : option jsstring;
  o_method : jsstring;
  o_params : JsMap Json;
  o_data : JsMap Json
}.

Definition default_params : JsMap Json :=
  [ (js "format", JStr (js "json"));
    (js "formatversion", JNum 2);
    (js "errorformat", JStr (js "plaintext"));
    (js "errorlang", JStr (js "content")) ].

Definition request_of (url : jsstring) (opt : Opt) : Request :=
  {| rq_url := url;
     rq_method := o_method opt;
     rq_params := spread default_params (o_params opt);
     rq_data := o_data opt |}.

(** [typeof opt?._mock === "string" && Object.hasOwn(mock, opt._mock)],
    and then [mock[opt._mock]]. *)
Definition cached (m : option jsstring) (store : JsMap Json) : option Json :=
  match m with
  | Some key => map_get key store
  | None => None
  end.

(** The checks [api] makes on [resp.data] inside its [try]: the [errors]
    array, then the caller's assertion. A [warnings] array is only
    printed. *)
Definition screen (assertion : option (Json -> Outcome bool)) (data : Json)
  : Outcome Json :=
  obind (if is_object data
         then obind (prop (js "errors") data) (fun errors =>
              if length_truthy errors
              then Throw (APIError (js "API call errored") data)
              else Ok tt)
         else Ok tt) (fun _ =>
  match assertion with
  | Some holds =>
      obind (holds data) (fun b =>
      if b then Ok data
      else Throw (APIError (js "API action failed") data))
  | None => Ok data
  end).

(** [if (opt?._mock) mock[opt._mock] = data]. *)
Definition remember (m : option jsstring) (data : Json) (w : World) : World :=
  match m with
  | Some key => if truthy key then set_mock w (map_set key data (mock w)) else w
  | None => w
  end.

Section Script.
Variable cfg : Config.
(** The two wikis: the reply to a request, given the exchanges so far. *)
Variable server : list (Request * Reply) -> Request -> Reply.

(** [api(url, opt, assertion)]. A recorded reply is returned before the
    [try] is entered; otherwise the request is sent, the reply is
    screened, a reply that passes is recorded under a truthy [_mock], and
    the [finally] saves the mock file when asked to. *)
Definition api (url : jsstring) (opt : Opt)
           (assertion : option (Json -> Outcome bool)) : M Json :=
  fun w =>
    match cached (o_mock opt) (mock w) with
    | Some data => (Ok data, w)
    | None =>
        let rq := request_of url opt in
        let reply := server (trace w) rq in
        let w1 := add_exchange w (rq, reply) in
        let result :=
          match reply with
          | Failure info => (Throw (AxiosError info), w1)
          | Response data =>
              match screen assertion data with
              | Ok d => (Ok d, remember (o_mock opt) d w1)
              | Throw e => (Throw e, w1)
              | Exit => (Exit, w1)
              | OutOfFuel => (OutOfFuel, w1)
              | Unmodelled => (Unmodelled, w1)
              end
          end in
        (fst result,
         if saveMockFlag cfg then save_mock (snd result) else snd result)
    end.

(** *** [apiQueryListAll] *)

(** One turn of [for (const [key, value] of Object.entries(data.query))]:
    an array already collected under [key] is extended by [push], anything
    else is overwritten. *)
Definition merge_entry (results : JsMap Json) (entry : jsstring * Json)
  : Outcome (JsMap Json) :=
  match map_get (fst entry) results with
  | Some (JArr currValue) =>
      match snd entry with
      | JArr value => Ok (map_set (fst entry) (JArr (currValue ++ value)) results)
      | JStr _ => Unmodelled
      | JUndefined | JNull | JBool _ | JNum _ | JObj _ => Throw TypeError
      end
  | _ => Ok (map_set (fst entry) (snd entry) results)
  end.

Fixpoint merge_entries (results : JsMap Json) (entries : JsMap Json)
  : Outcome (JsMap Json) :=
  match entries with
  | [] => Ok results
  | entry :: rest =>
      obind (merge_entry results entry) (fun r => merge_entries r rest)
  end.

Definition merge_page (results query : Json) : Outcome Json :=
  match results, query with
  | JObj r, JObj q => obind (merge_entries r q) (fun m => Ok (JObj m))
  | _, _ => Unmodelled
  end.

(** [data.query = v] under strict mode. *)
Definition assign_query (data v : Json) : Outcome Json :=
  match data with
  | JObj fields => Ok (JObj (map_set (js "query") v fields))
  | JArr _ => Unmodelled
  | JUndefined | JNull | JBool _ | JNum _ | JStr _ => Throw TypeError
  end.

(** [typeof data.continue?.continue === "string"]. *)
Definition continues (data : Json) : bool :=
  match prop_opt (js "continue") (prop_opt (js "continue") data) with
  | JStr _ => true
  | _ => false
  end.

(** The entries [...data?.continue] contributes to the next request. *)
Definition continue_entries (data : Json) : JsMap Json :=
  match prop_opt (js "continue") data with
  | JObj fields => fields
  | _ => []
  end.

Definition with_params (opt : Opt) (params : JsMap Json) : Opt :=
  {| o_mock := o_mock opt; o_method := o_method opt;
     o_params := params; o_data := o_data opt |}.

(** Whenever [mock] has an entry under [opt._mock] after a call of [api],
    the object that call returned is the object stored there: it was
    either taken from there or just put there. The fetcher then changes
    that object in place (it extends the arrays of [results], which is the
    [query] of the first page, and it assigns [data.query]), and later
    calls of [api] return the changed object. [write_through] keeps the
    stored value equal to the object. *)
Definition write_through (opt : Opt) (data : Json) : M unit :=
  fun w =>
    match cached (o_mock opt) (mock w), o_mock opt with
    | Some _, Some key => (Ok tt, set_mock w (map_set key data (mock w)))
    | _, _ => (Ok tt, w)
    end.

(** The statements after the loop. *)
Definition finish_pages (opt : Opt) (data : Json) (results : option Json)
  : M Json :=
  data' <- lift (assign_query data
                   (match results with Some r => r | None => JUndefined end)) ;;
  write_through opt data' ;;;
  (fun w => (Ok data', remember (o_mock opt) data' w)).

(** [if (!results) results = data.query; else for (...) ...]: the first
    page's [query] becomes [results]; later pages are merged into it, in
    place, which changes the first page's object. *)
Definition collect (opt : Opt) (data : Json) (results : option Json)
           (query : Json) : M Json :=
  match results with
  | None => ret query
  | Some r =>
      merged <- lift (merge_page r query) ;;
      owner <- lift (assign_query data merged) ;;
      write_through opt owner ;;;
      ret merged
  end.

(** The [do ... while] loop; [continuation] holds the entries of the
    previous page's [continue], [results] is [None] while it is
    undefined. *)
Fixpoint query_pages (fuel : nat) (url : jsstring) (opt : Opt)
         (continuation : JsMap Json) (results : option Json) : M Json :=
  match fuel with
  | O => lift OutOfFuel
  | S fuel' =>
      data <- api url
                (with_params opt
                   (spread (spread [(js "action", JStr (js "query"))]
                                   (o_params opt)) continuation)) None ;;
      query <- lift (prop (js "query") data) ;;
      if negb (js_truthy query) then finish_pages opt data results
      else
        results' <- collect opt data results query ;;
        if continues data
        then query_pages fuel' url opt (continue_entries data) (Some results')
        else finish_pages opt data (Some results')
  end.

Definition apiQueryListAll (fuel : nat) (url : jsstring) (opt : Opt)
  : M Json :=
  query_pages fuel url opt [] None.

(** *** [apiLogin] *)

(** The [_mock] argument of [apiLogin]: [false], [true] or [""]. *)
Inductive MockArg : Type := MockFalse | MockTrue | MockEmpty.

(** [_mock && key]. *)
Definition mock_and (m : MockArg) (key : jsstring) : option jsstring :=
  match m with
  | MockFalse => None
  | MockTrue => Some key
  | MockEmpty => Some []
  end.

(** [d => d.login.result === "Success"]. *)
Definition login_succeeded (d : Json) : Outcome bool :=
  obind (prop (js "login") d) (fun login =>
  obind (prop (js "result") login) (fun result =>
  Ok (match result with
      | JStr s => jseqb s (js "Success")
      | _ => false
      end))).

Definition get_method : jsstring := js "get".
Definition post_method : jsstring := js "post".

Definition login_token_opt (m : MockArg) : Opt :=
  {| o_mock := mock_and m (js "logintoken");
     o_method := get_method;
     o_params := [ (js "action", JStr (js "query"));
                   (js "meta", JStr (js "tokens"));
                   (js "type", JStr (js "login")) ];
     o_data := [] |}.

Definition login_opt (m : MockArg) (username password : jsstring)
           (logintoken : Json) : Opt :=
  {| o_mock := mock_and m (js "login");
     o_method := post_method;
     o_params := [ (js "action", JStr (js "login")) ];
     o_data := [ (js "lgname", JStr username);
                 (js "lgpassword", JStr password);
                 (js "lgtoken", logintoken) ] |}.

Definition apiLogin (url username password : jsstring) (m : MockArg)
  : M Json :=
  fun w =>
    match m, map_get (js "login") (mock w) with
    | MockEmpty, Some recorded => (Ok recorded, w)
    | _, _ =>
        (tokens_data <- api url (login_token_opt m) None ;;
         query <- lift (prop (js "query") tokens_data) ;;
         tokens <- lift (prop (js "tokens") query) ;;
         logintoken <- lift (prop (js "logintoken") tokens) ;;
         api url (login_opt m username password logintoken)
             (Some login_succeeded)) w
    end.

End Script.

(** *** The top level of the script *)

(** [String.prototype.trim]. *)
Fixpoint trim_start (s : jsstring) : jsstring :=
  match s with
  | c :: s' => if is_space c then trim_start s' else s
  | [] => []
  end.

Definition trim (s : jsstring) : jsstring :=
  rev (trim_start (rev (trim_start s))).

(** [for (const x of v)] over a parsed value. *)
Definition for_of (v : Json) : Outcome (list Json) :=
  match v with
  | JArr items => Ok items
  | JStr _ => Unmodelled
  | JUndefined | JNull | JBool _ | JNum _ | JObj _ => Throw TypeError
  end.

(** A field that the script uses as a string. *)
Definition string_field (k : jsstring) (v : Json) : Outcome jsstring :=
  obind (prop k v) (fun x =>
  match x with
  | JStr s => Ok s
  | _ => Unmodelled
  end).

(** A field that is only compared strictly ([===]) with string literals;
    a value that is no string equals none of them, as the empty string
    does. *)
Definition tag_field (k : jsstring) (v : Json) : Outcome jsstring :=
  obind (prop k v) (fun x =>
  match x with
  | JStr s => Ok s
  | _ => Ok []
  end).

(** The destructuring at the head of the loop over [changes], and what
    the body can throw: [logaction] is compared when [type] is "log" and
    [logtype] is "delete", and [logparams] is read by the move branch
    only. *)
Definition decode_change (v : Json) : Outcome ChangeEvent :=
  obind (tag_field (js "type") v) (fun type =>
  obind (string_field (js "title") v) (fun title =>
  obind (prop (js "pageid") v) (fun pageid =>
  obind (prop (js "minor") v) (fun minor =>
  obind (tag_field (js "logtype") v) (fun logtype =>
  obind (prop (js "logaction") v) (fun logaction =>
  obind (prop (js "logparams") v) (fun logparams =>
  let e := mkChange type title
                    (match pageid with JNum n => n | _ => 0%Z end)
                    (js_truthy minor) logtype logaction no_params in
  if jseqb type (js "log") && jseqb logtype (js "delete")
     && unprintable logaction
  then Throw TypeError
  else if is_move_event e then
    obind (string_field (js "target_title") logparams) (fun target =>
    obind (prop (js "suppressredirect") logparams) (fun suppress =>
    Ok (mkChange type title (rc_pageid e) (rc_minor e) logtype logaction
                 (mkLogParams target (js_truthy suppress)))))
  else Ok e))))))).

(** [titles.join("|")]. *)
Fixpoint join_bar (titles : list jsstring) : jsstring :=
  match titles with
  | [] => []
  | [t] => t
  | t :: rest => t ++ js "|" ++ join_bar rest
  end.

(** The category of the pages that are not to be synchronised, and the
    summary of the edits made on the target: "Category:" followed by six
    CJK code units, and eight CJK code units. *)
Definition excluded_category : jsstring :=
  js "Category:" ++ [31105; 27490; 33258; 21160; 21516; 27493]%N.

Definition sync_reason : jsstring :=
  [20174; 20998; 25903; 31449; 21516; 27493; 26356; 25913]%N.

Section Main.
Variable cfg : Config.
Variable server : list (Request * Reply) -> Request -> Reply.

Definition require (v : jsstring) (message : string) : M unit :=
  if truthy v then ret tt else lift (Throw (PlainError (js message))).

(** [process.env["LAST_SYNC"] || (await readFile("~lastsync")).trim()]. *)
Definition read_last_sync : M jsstring :=
  fun w =>
    if truthy (envLastSync cfg) then (Ok (envLastSync cfg), w)
    else match lastsync_file w with
         | Some content => (Ok (trim content), w)
         | None => (Throw (PlainError (js "ENOENT")), w)
         end.

(** [mock] is what the mock file holds, or [{}]. *)
Definition load_mock : M unit :=
  fun w =>
    (Ok tt, set_mock w (match mockfile w with Some m => m | None => [] end)).

Definition source_login : M unit :=
  if truthy (sourceUsername cfg) && truthy (sourcePassword cfg) then
    data <- apiLogin cfg server (sourceApiPhp cfg) (sourceUsername cfg)
              (sourcePassword cfg)
              (if mockLogin cfg then MockTrue else MockFalse) ;;
    login <- lift (prop (js "login") data) ;;
    _ <- lift (prop (js "lgusername") login) ;;
    ret tt
  else ret tt.

Definition excluded_opt : Opt :=
  {| o_mock := Some (js "excludedpages");
     o_method := get_method;
     o_params := [ (js "list", JStr (js "categorymembers"));
                   (js "cmtitle", JStr excluded_category);
                   (js "cmprop", JStr (js "title"));
                   (js "cmlimit", JStr (js "100")) ];
     o_data := [] |}.

Definition fetch_excluded (fuel : nat) : M JsSet :=
  data <- apiQueryListAll cfg server fuel (sourceApiPhp cfg) excluded_opt ;;
  query <- lift (prop (js "query") data) ;;
  categorymembers <- lift (prop (js "categorymembers") query) ;;
  members <- lift (for_of categorymembers) ;;
  lift (omap (string_field (js "title")) members).

Definition changes_opt (lastSync : jsstring) : Opt :=
  {| o_mock := Some (js "recentchanges");
     o_method := get_method;
     o_params := [ (js "list", JStr (js "recentchanges"));
                   (js "rcstart", JStr lastSync);
                   (js "rcdir", JStr (js "newer"));
                   (js "rclimit", JStr (js "100"));
                   (js "rcnamespace", JStr (js "0|6|8|10|14|828"));
                   (js "rcprop", JStr (js "title|ids|flags|timestamp|loginfo"));
                   (js "rctype", JStr (js "edit|new|log"));
                   (js "curtimestamp", JStr (js "1")) ];
     o_data := [] |}.

(** The fetch of the change log: the events and [syncTime]. *)
Definition fetch_changes (fuel : nat) (lastSync : jsstring)
  : M (list ChangeEvent * Json) :=
  data <- apiQueryListAll cfg server fuel (sourceApiPhp cfg)
            (changes_opt lastSync) ;;
  query <- lift (prop (js "query") data) ;;
  changes <- lift (prop (js "recentchanges") query) ;;
  syncTime <- lift (prop (js "curtimestamp") data) ;;
  entries <- lift (for_of changes) ;;
  events <- lift (omap decode_change entries) ;;
  ret (events, syncTime).

Definition export_opt (titles : list jsstring) : Opt :=
  {| o_mock := Some (js "export");
     o_method := get_method;
     o_params := [ (js "action", JStr (js "query"));
                   (js "titles", JStr (join_bar titles));
                   (js "export", JStr (js "1")) ];
     o_data := [] |}.

(** "Export page revisions...": the patched XML, or [""] when there is
    nothing to export. *)
Definition export_pages (p : JsMap PageInfo) : M jsstring :=
  if Nat.eqb (map_size p) 0 then ret []
  else
    data <- api cfg server (sourceApiPhp cfg)
              (export_opt (export_titles p)) None ;;
    query <- lift (prop (js "query") data) ;;
    xml <- lift (prop (js "export") query) ;;
    match xml with
    | JStr xmlExport => ret (patch_export p xmlExport)
    | _ => lift (Throw TypeError)
    end.

Definition fileurls_opt (ids : list Z) : Opt :=
  {| o_mock := Some (js "fileurls");
     o_method := get_method;
     o_params := [ (js "action", JStr (js "query"));
                   (js "prop", JStr (js "imageinfo"));
                   (js "iiprop", JStr (js "url"));
                   (js "pageids", JArr (List.map JNum ids)) ];
     o_data := [] |}.

(** The destructuring [{ title, imageinfo: [{ url }] }]. *)
Definition decode_file (v : Json) : Outcome unit :=
  obind (prop (js "title") v) (fun _ =>
  obind (prop (js "imageinfo") v) (fun imageinfo =>
  obind (for_of imageinfo) (fun infos =>
  obind (prop (js "url") (hd JUndefined infos)) (fun _ => Ok tt)))).

(** "Fetch file urls...": [fileUrls] is used by the file transfer only,
    which is commented out. *)
Definition fetch_file_urls (ids : JsMap Z) : M unit :=
  if Nat.eqb (map_size ids) 0 then ret tt
  else
    data <- api cfg server (sourceApiPhp cfg)
              (fileurls_opt (List.map snd ids)) None ;;
    query <- lift (prop (js "query") data) ;;
    file_pages <- lift (prop (js "pages") query) ;;
    files <- lift (for_of file_pages) ;;
    _ <- lift (omap decode_file files) ;;
    ret tt.

Definition target_login : M unit :=
  fun w =>
    (data <- apiLogin cfg server (targetApiPhp cfg) (targetUsername cfg)
               (targetPassword cfg)
               (match map_get [] (mock w) with
                | Some _ => MockTrue
                | None => MockFalse
                end) ;;
     login <- lift (prop (js "login") data) ;;
     _ <- lift (prop (js "lgusername") login) ;;
     ret tt) w.

Definition csrf_opt : Opt :=
  {| o_mock := None;
     o_method := get_method;
     o_params := [ (js "action", JStr (js "query"));
                   (js "meta", JStr (js "tokens"));
                   (js "type", JStr (js "csrf")) ];
     o_data := [] |}.

Definition fetch_csrf : M Json :=
  data <- api cfg server (targetApiPhp cfg) csrf_opt None ;;
  query <- lift (prop (js "query") data) ;;
  tokens <- lift (prop (js "tokens") query) ;;
  lift (prop (js "csrftoken") tokens).

Definition move_opt (from to : jsstring) (csrftoken : Json) : Opt :=
  {| o_mock := Some [];
     o_method := post_method;
     o_params := [ (js "action", JStr (js "move")) ];
     o_data := [ (js "from", JStr from);
                 (js "to", JStr to);
                 (js "reason", JStr sync_reason);
                 (js "noredirect", JStr (js "true"));
                 (js "tags", JStr (js "syncbot"));
                 (js "token", csrftoken) ] |}.

(** "Move pages...": every request is awaited with
    [.catch(console.error)]. *)
Fixpoint move_pages (mvs : list (jsstring * jsstring)) (csrftoken : Json)
  : M unit :=
  match mvs with
  | [] => ret tt
  | (from, to) :: rest =>
      catch_log (api cfg server (targetApiPhp cfg)
                     (move_opt from to csrftoken) None) ;;;
      move_pages rest csrftoken
  end.

Definition import_opt (xmlExport : jsstring) (csrftoken : Json) : Opt :=
  {| o_mock := Some [];
     o_method := post_method;
     o_params := [ (js "action", JStr (js "import")) ];
     o_data := [ (js "xml", JStr xmlExport);
                 (js "interwikiprefix", JStr (js "1"));
                 (js "assignknownusers", JStr (js "1"));
                 (js "summary", JStr sync_reason);
                 (js "tags", JStr (js "syncbot"));
                 (js "token", csrftoken) ] |}.

(** "Import page revisions...". *)
Definition import_pages (xmlExport : jsstring) (csrftoken : Json) : M unit :=
  if truthy xmlExport then
    _ <- api cfg server (targetApiPhp cfg)
           (import_opt xmlExport csrftoken) None ;;
    ret tt
  else ret tt.

(** [Promise.allSettled([saveMockFlag && saveMock(), writeFile("~lastsync",
    syncTime)])]: neither rejection is looked at. *)
Definition commit (syncTime : Json) : M unit :=
  fun w =>
    let w1 := if saveMockFlag cfg then save_mock w else w in
    match syncTime with
    | JStr s => (Ok tt, set_lastsync w1 s)
    | _ => (Ok tt, w1)
    end.

(** What the script does on the target wiki once the to-do list is not
    empty. *)
Definition apply_changes (p : JsMap PageInfo) (ids : JsMap Z)
           (syncTime : Json) : M unit :=
  let mvs := moves p in
  xmlExport <- export_pages p ;;
  fetch_file_urls ids ;;;
  target_login ;;;
  csrftoken <- fetch_csrf ;;
  move_pages mvs csrftoken ;;;
  import_pages xmlExport csrftoken ;;;
  commit syncTime.

(** The script, from its first statement to its last; [fuel] bounds the
    pages each paginated fetch may ask for. The REPL hook is left out. *)
Definition main (fuel : nat) : M unit :=
  lastSync <- read_last_sync ;;
  require (sourceApiPhp cfg) "SOURCE_APIPHP not specified" ;;;
  require (targetApiPhp cfg) "TARGET_APIPHP not specified" ;;;
  require (targetUsername cfg) "TARGET_USERNAME not specified" ;;;
  require (targetPassword cfg) "TARGET_PASSWORD not specified" ;;;
  require lastSync "LAST_SYNC not specified" ;;;
  load_mock ;;;
  source_login ;;;
  excludedPages <- fetch_excluded fuel ;;
  fetched <- fetch_changes fuel lastSync ;;
  let st := exclude excludedPages (reduce (fst fetched)) in
  let syncTime := snd fetched in
  if Nat.eqb (map_size (pages st)) 0 && Nat.eqb (map_size (fileIds st)) 0
  then write_lastsync syncTime ;;; lift Exit
  else apply_changes (pages st) (fileIds st) syncTime.

End Main.

(* ===================================================================== *)
(** ** A scripted pair of wikis *)
(* ===================================================================== *)

(** Replies for one run, used to execute the script on an example: the
    excluded category holds "X"; the change log holds a non-minor edit of
    "A" and a move of "P" to "Q"; the export holds one revision of "A";
    the target accepts the login and the import and rejects every move. *)
Definition field (k : string) (v : Json) : jsstring * Json := (js k, v).

Definition obj (fields : list (jsstring * Json)) : Json := JObj fields.

Definition str (s : string) : Json := JStr (js s).

Definition param_is (k v : string) (rq : Request) : bool :=
  match map_get (js k) (rq_params rq) with
  | Some (JStr x) => jseqb x (js v)
  | _ => false
  end.

Definition demo_changes : Json :=
  JArr [ obj [field "type" (str "edit"); field "title" (str "A");
              field "minor" (JBool false)];
         obj [field "type" (str "log"); field "title" (str "P");
              field "logtype" (str "move"); field "logaction" (str "move");
              field "logparams" (obj [field "target_title" (str "Q");
                                 field "suppressredirect" (JBool true)])] ].

Definition demo_wikis (history : list (Request * Reply)) (rq : Request)
  : Reply :=
  if param_is "list" "categorymembers" rq then
    Response
      (obj [field "query"
              (obj [field "categorymembers"
                      (JArr [obj [field "title" (str "X")]])])])
  else if param_is "list" "recentchanges" rq then
    Response
      (obj [field "query" (obj [field "recentchanges" demo_changes]);
            field "curtimestamp" (str "2024-05-01T20:00:00Z")])
  else if param_is "export" "1" rq then
    Response
      (obj [field "query"
              (obj [field "export"
                      (str "<page><title>A</title><revision><minor/></revision></page>")])])
  else if param_is "action" "login" rq then
    Response
      (obj [field "login" (obj [field "result" (str "Success");
                                field "lgusername" (str "SyncBot")])])
  else if param_is "type" "login" rq then
    Response
      (obj [field "query"
              (obj [field "tokens" (obj [field "logintoken" (str "lt")])])])
  else if param_is "type" "csrf" rq then
    Response
      (obj [field "query"
              (obj [field "tokens" (obj [field "csrftoken" (str "ct")])])])
  else if param_is "action" "move" rq then
    Response (obj [field "errors" (JArr [str "protectedpage"])])
  else if param_is "action" "import" rq then
    Response (obj [field "import" (JArr [])])
  else Failure JNull.

(** A wiki that answers every request with an object that has no [query]
    key. *)
Definition bare_wiki (history : list (Request * Reply)) (rq : Request)
  : Reply :=
  Response (obj [field "batchcomplete" (JBool true)]).

(** A source wiki whose change log has two pages: the first announces a
    continuation, and the request that carries [rccontinue] gets the
    second. *)
Definition first_page : Json :=
  obj [field "continue" (obj [field "rccontinue" (str "20240501|7");
                              field "continue" (str "-||")]);
       field "query"
         (obj [field "recentchanges"
                 (JArr [obj [field "type" (str "edit");
                             field "title" (str "A")]])])].

Definition second_page : Json :=
  obj [field "query"
         (obj [field "recentchanges"
                 (JArr [obj [field "type" (str "edit");
                             field "title" (str "B")]])])].

Definition paged_wiki (history : list (Request * Reply)) (rq : Request)
  : Reply :=
  match map_get (js "rccontinue") (rq_params rq) with
  | Some _ => Response second_page
  | None => Response first_page
  end.

(** The options of a fetch of the change log without [_mock]. *)
Definition plain_changes_opt : Opt :=
  {| o_mock := None;
     o_method := get_method;
     o_params := [ (js "list", JStr (js "recentchanges")) ];
     o_data := [] |}.

(** The same wikis on a day when the only change is an edit of the
    excluded page "X". *)
Definition idle_wikis (history : list (Request * Reply)) (rq : Request)
  : Reply :=
  if param_is "list" "recentchanges" rq then
    Response
      (obj [field "query"
              (obj [field "recentchanges"
                      (JArr [obj [field "type" (str "edit");
                                  field "title" (str "X");
                                  field "minor" (JBool false)]])]);
            field "curtimestamp" (str "2024-05-02T20:00:00Z")])
  else demo_wikis history rq.

(** The same wikis when the change log holds a move whose details are
    hidden. *)
Definition hidden_move : Json :=
  obj [field "type" (str "log"); field "title" (str "P");
       field "logtype" (str "move"); field "logaction" (str "move");
       field "actionhidden" (JBool true)].

Definition hiding_wikis (history : list (Request * Reply)) (rq : Request)
  : Reply :=
  if param_is "list" "recentchanges" rq then
    Response
      (obj [field "query"
              (obj [field "recentchanges"
                      (JArr [obj [field "type" (str "edit");
                                  field "title" (str "A");
                                  field "minor" (JBool false)];
                             hidden_move])]);
            field "curtimestamp" (str "2024-05-02T20:00:00Z")])
  else demo_wikis history rq.

(** The same wikis, but the target refuses the login. *)
Definition refusing_wikis (history : list (Request * Reply)) (rq : Request)
  : Reply :=
  if param_is "action" "login" rq then
    Response (obj [field "login" (obj [field "result" (str "Failed")])])
  else demo_wikis history rq.

(** The same wikis on a day when the change log reports an edit and two
    moves; the target rejects every move. *)
Definition busy_changes : Json :=
  JArr [ obj [field "type" (str "edit"); field "title" (str "A");
              field "minor" (JBool false)];
         obj [field "type" (str "log"); field "title" (str "P");
              field "logtype" (str "move"); field "logaction" (str "move");
              field "logparams" (obj [field "target_title" (str "Q");
                                 field "suppressredirect" (JBool true)])];
         obj [field "type" (str "log"); field "title" (str "R");
              field "logtype" (str "move"); field "logaction" (str "move");
              field "logparams" (obj [field "target_title" (str "S");
                                 field "suppressredirect" (JBool true)])] ].

Definition busy_wikis (history : list (Request * Reply)) (rq : Request)
  : Reply :=
  if param_is "list" "recentchanges" rq then
    Response
      (obj [field "query" (obj [field "recentchanges" busy_changes]);
            field "curtimestamp" (str "2024-05-03T20:00:00Z")])
  else demo_wikis history rq.

(** The same wikis when the reply to the change log carries no
    [curtimestamp]. *)
Definition clockless_wikis (history : list (Request * Reply)) (rq : Request)
  : Reply :=
  if param_is "list" "recentchanges" rq then
    Response (obj [field "query" (obj [field "recentchanges" demo_changes])])
  else demo_wikis history rq.

(** A recording of the change log as an earlier run with [SAVE_MOCK] has
    left it in the mock file. *)
Definition recorded_changes : Json :=
  obj [field "query" (obj [field "recentchanges" demo_changes]);
       field "curtimestamp" (str "2024-01-01T00:00:00Z")].

Definition demo_config : Config :=
  {| sourceApiPhp := js "https://source.example/api.php";
     sourceUsername := [];
     sourcePassword := [];
     targetApiPhp := js "https://target.example/api.php";
     targetUsername := js "SyncBot";
     targetPassword := js "secret";
     envLastSync := js "2024-04-30T20:00:00Z";
     mockLogin := false;
     saveMockFlag := false |}.

(** A world whose [mock] marks the run as a dry run and holds the
    recordings of a login. *)
Definition dry_world : World :=
  {| mock := [ ([], obj []);
               (js "logintoken",
                obj [field "query"
                       (obj [field "tokens"
                               (obj [field "logintoken" (str "lt")])])]);
               (js "login",
                obj [field "login"
                       (obj [field "result" (str "Failed");
                             field "lgusername" (str "SourceBot")])]) ];
     trace := []; lastsync_file := None; mockfile := None; logged := [] |}.

(** The pending map of the run on the scripted wikis. *)
Definition demo_pages : JsMap PageInfo :=
  [ (js "A", {| oldTitle := None; minor := false |});
    (js "Q", {| oldTitle := Some (js "P"); minor := true |}) ].

(** The configuration without [LAST_SYNC], and with [SAVE_MOCK]. *)
Definition file_config : Config :=
  {| sourceApiPhp := js "https://source.example/api.php";
     sourceUsername := [];
     sourcePassword := [];
     targetApiPhp := js "https://target.example/api.php";
     targetUsername := js "SyncBot";
     targetPassword := js "secret";
     envLastSync := [];
     mockLogin := false;
     saveMockFlag := true |}.

(** A world in which an earlier run has left its watermark, followed by
    a line break. *)
Definition synced_world : World :=
  {| mock := []; trace := [];
     lastsync_file := Some (js "2024-05-01T20:00:00Z" ++ [10%N]);
     mockfile := None; logged := [] |}.

Definition demo_world : World :=
  {| mock := []; trace := []; lastsync_file := None; mockfile := None;
     logged := [] |}.

(** A start with the mock file that holds the recording of the change
    log. *)
Definition replay_world : World :=
  {| mock := []; trace := []; lastsync_file := None;
     mockfile := Some [(js "recentchanges", recorded_changes)];
     logged := [] |}.

(* ===================================================================== *)
(** ** Vocabulary of the statements about the reducer *)
(* ===================================================================== *)

(** A move whose target is [t]. *)
Definition moves_onto (t : jsstring) (e : ChangeEvent) : bool :=
  is_move_event e && jseqb (target_title (rc_logparams e)) t.

(** The events that remove or replace the entry of [t]: a delete of [t], a
    move away from [t] and a move onto [t]. *)
Definition disturbs (t : jsstring) (e : ChangeEvent) : bool :=
  (is_delete_event e && jseqb (rc_title e) t)
  || (is_move_event e && jseqb (rc_title e) t)
  || moves_onto t e.

(** The recorded old title of [t], if [t] has an entry that has one. *)
Definition old_of (t : jsstring) (p : JsMap PageInfo) : option jsstring :=
  match map_get t p with
  | Some i => oldTitle i
  | None => None
  end.

(** The titles a page had before, read off the change log backwards: a
    move onto the current name gives the name before it; a move away from
    the current name, or a delete of it, means the page now under that name
    came into being afterwards. *)
Fixpoint trace_back (newest_first : list ChangeEvent) (cur : jsstring)
  : list jsstring :=
  match newest_first with
  | [] => []
  | e :: more =>
      if moves_onto cur e then rc_title e :: trace_back more (rc_title e)
      else if (is_move_event e || is_delete_event e) && jseqb (rc_title e) cur
           then []
           else trace_back more cur
  end.

(** The pre-move titles of the page that is called [t] after [changes],
    the latest first. *)
Definition pre_move_titles (changes : list ChangeEvent) (t : jsstring)
  : list jsstring :=
  trace_back (rev changes) t.

(** The events that give [t] an entry: a new or edit event of [t], a move
    onto [t], and a move away from [t] that leaves a redirect behind. *)
Definition revives (t : jsstring) (e : ChangeEvent) : bool :=
  (is_page_event e && jseqb (rc_title e) t)
  || moves_onto t e
  || (is_move_event e && jseqb (rc_title e) t
      && negb (suppressredirect (rc_logparams e))).

(** An upload log event, by the tests the loop makes. *)
Definition is_upload_event (e : ChangeEvent) : bool :=
  negb (is_page_event e)
  && jseqb (rc_type e) (js "log")
  && negb (jseqb (rc_logtype e) (js "delete")
           && loosely_delete (rc_logaction e))
  && negb (jseqb (rc_logtype e) (js "move"))
  && jseqb (rc_logtype e) (js "upload").

(** The new and edit events of [t]. *)
Definition edits_of (t : jsstring) (changes : list ChangeEvent)
  : list ChangeEvent :=
  filter (fun e => is_page_event e && jseqb (rc_title e) t) changes.

(** What the two versions of the loop have in common after the same
    events: the same keys in the same order, and under every key the old
    title the current version records is the title the previous version
    maps the key to. *)
Definition versions_agree (old : Previous.State) (cur : SyncState) : Prop :=
  map_keys (Previous.titleMapping old) = map_keys (pages cur)
  /\ forall t o, old_of t (pages cur) = Some o ->
                 map_get t (Previous.titleMapping old) = Some o.

(* ===================================================================== *)
(** ** Vocabulary of the statements about the export post-processing *)
(* ===================================================================== *)

(** [pat] is a prefix of [s]. *)
Fixpoint starts_with (pat s : jsstring) : bool :=
  match pat with
  | [] => true
  | c :: pat' =>
      match s with
      | d :: s' => N.eqb c d && starts_with pat' s'
      | [] => false
      end
  end.

(** [pat] occurs in [s ++ rest] at a position inside [s]. *)
Fixpoint starts_in (pat s rest : jsstring) : bool :=
  match s with
  | [] => false
  | _ :: s' => starts_with pat (s ++ rest) || starts_in pat s' rest
  end.

Definition all_space (w : jsstring) : bool := forallb is_space w.

(** [s] is empty or begins with a unit that is not white space. *)
Definition nonspace_head (s : jsstring) : bool :=
  match s with
  | [] => true
  | c :: _ => negb (is_space c)
  end.

(** [s] is empty or ends with a unit that is not white space. *)
Definition nonspace_last (s : jsstring) : bool :=
  negb (is_space (last s 0%N)).

(** A title as the export writes it: character data without [<] and with
    no white space at either end. *)
Definition title_text (t : jsstring) : bool :=
  forallb (fun c => negb (N.eqb c 60)) t
  && nonspace_head t && nonspace_last t.

(** [pages.get(title)?.minor === false]. *)
Definition known_non_minor (p : JsMap PageInfo) (title : jsstring) : bool :=
  match map_get title p with
  | Some info => negb (minor info)
  | None => false
  end.

(** [out] is [xml] with some minor markers left out, each with the white
    space in front of it. *)
Inductive unmarked : jsstring -> jsstring -> Prop :=
| unmarked_nil : unmarked [] []
| unmarked_keep c out xml : unmarked out xml -> unmarked (c :: out) (c :: xml)
| unmarked_cut w1 w2 out xml :
    all_space w1 = true -> all_space w2 = true -> unmarked out xml ->
    unmarked out (w1 ++ js "<minor" ++ w2 ++ js "/>" ++ xml).

(* ===================================================================== *)
(** ** Vocabulary of the statements about a run *)
(* ===================================================================== *)

(** The [action] parameter of a request. *)
Definition action_is (a : string) (rq : Request) : bool :=
  match map_get (js "action") (rq_params rq) with
  | Some (JStr v) => jseqb v (js a)
  | _ => false
  end.

Definition is_move_request (rq : Request) : bool :=
  jseqb (rq_method rq) post_method && action_is "move" rq.

Definition is_login_request (rq : Request) : bool :=
  jseqb (rq_method rq) post_method && action_is "login" rq.

Definition is_import_request (rq : Request) : bool :=
  jseqb (rq_method rq) post_method && action_is "import" rq.

(** A request for the change log. *)
Definition is_changes_request (rq : Request) : bool :=
  match map_get (js "list") (rq_params rq) with
  | Some (JStr v) => jseqb v (js "recentchanges")
  | _ => false
  end.

(** A reply with a non-empty [errors] array. *)
Definition has_errors (data : Json) : bool :=
  is_object data && length_truthy (prop_opt (js "errors") data).

(** A login reply whose [login.result] is the string "Success". *)
Definition login_ok (data : Json) : bool :=
  match prop_opt (js "result") (prop_opt (js "login") data) with
  | JStr s => jseqb s (js "Success")
  | _ => false
  end.

(** A reply that makes the call fail: a transport failure, an [errors]
    array with entries, or, for a login, a result other than "Success". *)
Definition failed (rq : Request) (reply : Reply) : bool :=
  match reply with
  | Failure _ => true
  | Response data =>
      has_errors data || (is_login_request rq && negb (login_ok data))
  end.

(** A failed exchange that is not a page move. *)
Definition fatal (x : Request * Reply) : bool :=
  negb (is_move_request (fst x)) && failed (fst x) (snd x).

(** Among the exchanges [d] of a computation that ended with [r], a fatal
    one is the last one, and then [r] is a throw. *)
Definition guarded {A : Type} (r : Outcome A) (d : list (Request * Reply))
  : Prop :=
  forall d1 x d2, d = d1 ++ x :: d2 -> fatal x = true ->
                  d2 = [] /\ exists e, r = Throw e.

(** The summary of a computation that does not touch the watermark: it
    leaves [~lastsync] alone, it writes [mock] under keys of [K] only, its
    requests all satisfy [Q], and it is guarded. *)
Definition respects {A : Type} (Q : Request -> bool) (K : jsstring -> bool)
           (c : M A) : Prop :=
  forall w r w', c w = (r, w') ->
    lastsync_file w' = lastsync_file w
    /\ (forall k, K k = false -> map_get k (mock w') = map_get k (mock w))
    /\ exists d, trace w' = trace w ++ d
                 /\ forallb (fun x => Q (fst x)) d = true
                 /\ guarded r d.

(** The summary of the end of a run that is to write [syncTime]: as
    [respects], but the watermark is left alone only when the run throws,
    and holds [syncTime] when the run succeeds. *)
Definition commits {A : Type} (Q : Request -> bool) (syncTime : Json)
           (c : M A) : Prop :=
  forall w r w', c w = (r, w') ->
    ((exists e, r = Throw e) -> lastsync_file w' = lastsync_file w)
    /\ ((exists a, r = Ok a) \/ r = Exit ->
        forall s, syncTime = JStr s -> lastsync_file w' = Some s)
    /\ (r = Exit -> exists s, syncTime = JStr s)
    /\ exists d, trace w' = trace w ++ d
                 /\ forallb (fun x => Q (fst x)) d = true
                 /\ guarded r d.

(** A request that is no page move. *)
Definition not_a_move (rq : Request) : bool := negb (is_move_request rq).

(** A computation that no move brings to an end: among its exchanges a
    move is followed by another exchange, unless the computation has
    returned. *)
Definition tolerant {A : Type} (c : M A) : Prop :=
  forall w r w', c w = (r, w') ->
    exists d, trace w' = trace w ++ d
      /\ forall d1 x d2, d = d1 ++ x :: d2 ->
           is_move_request (fst x) = true ->
           d2 <> [] \/ exists a, r = Ok a.

(** The same for a computation that returns when it sends nothing. *)
Definition carries_on {A : Type} (c : M A) : Prop :=
  forall w r w', c w = (r, w') ->
    exists d, trace w' = trace w ++ d
      /\ (d = [] -> exists a, r = Ok a)
      /\ forall d1 x d2, d = d1 ++ x :: d2 ->
           is_move_request (fst x) = true ->
           d2 <> [] \/ exists a, r = Ok a.

(** What a run that ended with [r] has done with the watermark, and
    where the value came from. The change log is one object [data]: the
    reply to the only request of the run that asked for the change log,
    when the mock file held no recording of it, or else that recording,
    and then the run has not asked for the change log. If [data] has a
    string [curtimestamp], [~lastsync] holds that string; if not, the run
    has come to its last statement and [~lastsync] is as it was. *)
Definition watermark_of_change_log
           (server : list (Request * Reply) -> Request -> Reply)
           (w0 : World) (r : Outcome unit) (w1 : World) : Prop :=
  exists data,
    match prop_opt (js "curtimestamp") data with
    | JStr ts => lastsync_file w1 = Some ts
    | _ => r = Ok tt /\ lastsync_file w1 = lastsync_file w0
    end
    /\ ((map_get (js "recentchanges")
                 (match mockfile w0 with Some m => m | None => [] end)
         = None
         /\ exists before rq after,
              trace w1 = trace w0 ++ before ++ (rq, Response data) :: after
              /\ server (trace w0 ++ before) rq = Response data
              /\ is_changes_request rq = true
              /\ forallb (fun x => negb (is_changes_request (fst x)))
                         (before ++ after) = true)
        \/ (map_get (js "recentchanges")
                    (match mockfile w0 with Some m => m | None => [] end)
            = Some data
            /\ exists d, trace w1 = trace w0 ++ d
                 /\ forallb (fun x => negb (is_changes_request (fst x))) d
                    = true)).

(** A computation that leaves the watermark as it was or writes
    [syncTime], a string, to it. *)
Definition writes_only {A : Type} (syncTime : Json) (c : M A) : Prop :=
  forall w r w', c w = (r, w') ->
    lastsync_file w' = lastsync_file w
    \/ exists s, syncTime = JStr s /\ lastsync_file w' = Some s.

(** A computation that never ends the process. *)
Definition no_exit {A : Type} (c : M A) : Prop :=
  forall w r w', c w = (r, w') -> r <> Exit.

(** A computation that, when it throws, has left the watermark alone, and
    that is guarded. *)
Definition aborts_cleanly {A : Type} (c : M A) : Prop :=
  forall w r w', c w = (r, w') ->
    ((exists e, r = Throw e) -> lastsync_file w' = lastsync_file w)
    /\ exists d, trace w' = trace w ++ d /\ guarded r d.

(** [Q] admits every request that does not ask for the change log, and
    [K] every key but the one of the change log. *)
Definition lenient (Q : Request -> bool) (K : jsstring -> bool) : Prop :=
  (forall rq, is_changes_request rq = false -> Q rq = true)
  /\ (forall k, k <> js "recentchanges" -> K k = true).

(** Two values with the same properties, [query] apart. *)
Definition same_but_query (a b : Json) : Prop :=
  forall k, k <> js "query" -> prop_opt k a = prop_opt k b.

(** [w'] differs from [w] by the recording under [key] at most. *)
Definition quiet (key : jsstring) (w w' : World) : Prop :=
  trace w' = trace w
  /\ lastsync_file w' = lastsync_file w
  /\ forall k, k <> key -> map_get k (mock w') = map_get k (mock w).

(** [mock] holds under [key] a recording with the properties of [base],
    [query] apart. *)
Definition recorded (key : jsstring) (base : Json) (w : World) : Prop :=
  exists cur, map_get key (mock w) = Some cur /\ same_but_query cur base.

(** The request of the turn of the fetcher's loop that follows
    [continuation]. *)
Definition page_request (url : jsstring) (opt : Opt)
           (continuation : JsMap Json) : Request :=
  request_of url
    (with_params opt
       (spread (spread [(js "action", JStr (js "query"))] (o_params opt))
               continuation)).

(** The exchanges of a fetch that is answered with the pages [pgs]: the
    request after a page carries the entries of its [continue]. *)
Fixpoint page_exchanges (url : jsstring) (opt : Opt)
         (continuation : JsMap Json) (pgs : list Json)
  : list (Request * Reply) :=
  match pgs with
  | [] => []
  | data :: rest =>
      (page_request url opt continuation, Response data)
      :: page_exchanges url opt (continue_entries data) rest
  end.

(** The wiki answers the successive requests of a fetch with the pages
    [pgs]: every page but the last announces a continuation. *)
Fixpoint serves (server : list (Request * Reply) -> Request -> Reply)
         (url : jsstring) (opt : Opt) (history : list (Request * Reply))
         (continuation : JsMap Json) (pgs : list Json) : Prop :=
  match pgs with
  | [] => False
  | data :: rest =>
      server history (page_request url opt continuation) = Response data
      /\ match rest with
         | [] => continues data = false
         | _ :: _ =>
             continues data = true
             /\ serves server url opt
                       (history ++ [(page_request url opt continuation,
                                     Response data)])
                       (continue_entries data) rest
         end
  end.

(** A reply without errors whose [query] is [{ name: items }]. *)
Definition holds_list (name : jsstring) (items : list Json) (data : Json)
  : Prop :=
  has_errors data = false
  /\ prop_opt (js "query") data = JObj [(name, JArr items)].

(** A computation all of whose requests satisfy [Q]. *)
Definition sends {A : Type} (Q : Request -> bool) (c : M A) : Prop :=
  forall w r w', c w = (r, w') ->
    exists d, trace w' = trace w ++ d
              /\ forallb (fun x => Q (fst x)) d = true.

(** A computation that does not end the process and whose requests come
    in two stages: first requests that satisfy [Q1], then requests that
    satisfy [Q2]. *)
Definition two_stage {A : Type} (Q1 Q2 : Request -> bool) (c : M A) : Prop :=
  forall w r w', c w = (r, w') ->
    r <> Exit
    /\ exists d1 d2, trace w' = trace w ++ d1 ++ d2
                     /\ forallb (fun x => Q1 (fst x)) d1 = true
                     /\ forallb (fun x => Q2 (fst x)) d2 = true.

(** The same with a stage in front, after which the process may end. *)
Definition staged {A : Type} (Q0 Q1 Q2 : Request -> bool) (c : M A) : Prop :=
  forall w r w', c w = (r, w') ->
    exists d0 d1 d2, trace w' = trace w ++ d0 ++ d1 ++ d2
                     /\ forallb (fun x => Q0 (fst x)) d0 = true
                     /\ forallb (fun x => Q1 (fst x)) d1 = true
                     /\ forallb (fun x => Q2 (fst x)) d2 = true
                     /\ (r = Exit -> d1 = [] /\ d2 = []).

(** An entry of the change log for a move whose [logparams] are not
    given (the wiki leaves them out when the details of a log entry are
    hidden). *)
Definition move_without_params (v : Json) : Prop :=
  exists fields title,
    v = JObj fields
    /\ map_get (js "type") fields = Some (JStr (js "log"))
    /\ map_get (js "logtype") fields = Some (JStr (js "move"))
    /\ map_get (js "title") fields = Some (JStr title)
    /\ map_get (js "logparams") fields = None.

(** What a run needs before it sends anything: the two URLs, the
    credentials for the target, and a last-sync time, from [LAST_SYNC] or
    from a [~lastsync] file that is not blank. *)
Definition configured (cfg : Config) (w : World) : bool :=
  truthy (sourceApiPhp cfg) && truthy (targetApiPhp cfg)
  && truthy (targetUsername cfg) && truthy (targetPassword cfg)
  && (truthy (envLastSync cfg)
      || match lastsync_file w with
         | Some content => negb (all_space content)
         | None => false
         end).

(** A computation that changes the watermark only when it ends
    normally. *)
Definition settles {A : Type} (c : M A) : Prop :=
  forall w r w', c w = (r, w') ->
    lastsync_file w' = lastsync_file w \/ (exists a, r = Ok a) \/ r = Exit.

(** A request the script makes of the source wiki: a [GET], or the
    [POST] of a login. *)
Definition source_request (cfg : Config) (rq : Request) : bool :=
  jseqb (rq_url rq) (sourceApiPhp cfg)
  && (jseqb (rq_method rq) get_method || is_login_request rq).

(** A request the script makes of the target wiki: a [GET], or the
    [POST] of a login, a move or an import. *)
Definition target_request (cfg : Config) (rq : Request) : bool :=
  jseqb (rq_url rq) (targetApiPhp cfg)
  && (jseqb (rq_method rq) get_method || is_login_request rq
      || is_move_request rq || is_import_request rq).

(** A request with an [export] parameter. *)
Definition is_export_request (rq : Request) : bool :=
  match map_get (js "export") (rq_params rq) with
  | Some _ => true
  | None => false
  end.

(** What a call without assertion raises on a reply, if anything: the
    transport failure; for a reply whose [errors] array has entries, an
    [APIError] that holds the reply; for the reply [null], the
    [TypeError] of reading a property of [null]. *)
Definition api_error (reply : Reply) : list Error :=
  match reply with
  | Failure info => [AxiosError info]
  | Response JNull => [TypeError]
  | Response data =>
      if has_errors data then [APIError (js "API call errored") data] else []
  end.

(* ===================================================================== *)
(** * Theorems *)
(* ===================================================================== *)

(** ** Strings, maps and sets *)

Lemma jseqb_spec (a b : jsstring) : reflect (a = b) (jseqb a b).
Proof.
  revert b; induction a as [|x a IH]; intros [|y b]; simpl;
    try (constructor; congruence).
  destruct (N.eqb_spec x y) as [->|Hxy]; simpl.
  - destruct (IH b) as [->|Hab]; constructor; congruence.
  - constructor; congruence.
Qed.

Lemma jseqb_refl (a : jsstring) : jseqb a a = true.
Proof. destruct (jseqb_spec a a); congruence. Qed.

Lemma jseqb_neq (a b : jsstring) : a <> b -> jseqb a b = false.
Proof. destruct (jseqb_spec a b); congruence. Qed.

Lemma set_has_In (s : JsSet) (k : jsstring) : set_has s k = true <-> In k s.
Proof.
  unfold set_has; rewrite existsb_exists; split.
  - intros (x & Hx & E). destruct (jseqb_spec k x); congruence.
  - intros H; exists k; split; [assumption | apply jseqb_refl].
Qed.

Lemma set_has_not_In (s : JsSet) (k : jsstring) :
  set_has s k = false <-> ~ In k s.
Proof.
  rewrite <- set_has_In. destruct (set_has s k); split; congruence.
Qed.

Section JsMapFacts.
Variable V : Type.
Implicit Types (m : JsMap V) (k : jsstring) (v : V).

Lemma map_get_set_same k v m : map_get k (map_set k v m) = Some v.
Proof.
  induction m as [|[k' v'] m IH]; simpl.
  - now rewrite jseqb_refl.
  - destruct (jseqb k k') eqn:E; simpl; rewrite E; auto.
Qed.

Lemma map_get_set_other k k' v m :
  k <> k' -> map_get k (map_set k' v m) = map_get k m.
Proof.
  intros Hne; induction m as [|[k0 v0] m IH]; simpl.
  - now rewrite (jseqb_neq Hne).
  - destruct (jseqb_spec k' k0) as [->|]; simpl.
    + now rewrite (jseqb_neq Hne).
    + now rewrite IH.
Qed.

Lemma map_get_delete_other k k' m :
  k <> k' -> map_get k (map_delete k' m) = map_get k m.
Proof.
  intros Hne; induction m as [|[k0 v0] m IH]; simpl; auto.
  destruct (jseqb_spec k' k0) as [->|]; simpl.
  - now rewrite (jseqb_neq Hne).
  - now rewrite IH.
Qed.

Lemma map_get_In k v m : map_get k m = Some v -> In (k, v) m.
Proof.
  induction m as [|[k0 v0] m IH]; simpl; [discriminate|].
  destruct (jseqb_spec k k0) as [->|].
  - intros [= ->]; now left.
  - intros H; right; auto.
Qed.

Lemma map_get_None k m : map_get k m = None <-> ~ In k (map_keys m).
Proof.
  induction m as [|[k0 v0] m IH]; simpl.
  - tauto.
  - destruct (jseqb_spec k k0) as [->|Hne].
    + split; [discriminate | intros H; exfalso; apply H; now left].
    + rewrite IH. split; intros H; [intros [E|Hin] | ]; try tauto.
      congruence.
Qed.

Lemma In_map_get k v m :
  NoDup (map_keys m) -> In (k, v) m -> map_get k m = Some v.
Proof.
  induction m as [|[k0 v0] m IH]; simpl; [tauto|].
  intros Hnd [E|Hin].
  - injection E as -> ->. now rewrite jseqb_refl.
  - inversion Hnd as [|? ? Hnotin Hnd']; subst.
    destruct (jseqb_spec k k0) as [->|].
    + exfalso; apply Hnotin.
      change (In (fst (k0, v)) (List.map fst m)). now apply in_map.
    + auto.
Qed.

Lemma map_keys_set k v m :
  map_keys (map_set k v m)
  = if set_has (map_keys m) k then map_keys m else map_keys m ++ [k].
Proof.
  induction m as [|[k0 v0] m IH]; simpl; auto.
  destruct (jseqb k k0) eqn:E; simpl; auto.
  rewrite IH. now destruct (set_has (map_keys m) k).
Qed.

Lemma map_set_keys_NoDup k v m :
  NoDup (map_keys m) -> NoDup (map_keys (map_set k v m)).
Proof.
  intros Hnd; rewrite map_keys_set.
  destruct (set_has (map_keys m) k) eqn:E; auto.
  apply set_has_not_In in E.
  induction (map_keys m) as [|x l IH]; simpl.
  - constructor; [intros [] | constructor].
  - inversion Hnd as [|? ? Hx Hl]; subst. constructor.
    + rewrite in_app_iff; simpl. intros [H|[H|[]]]; [tauto|].
      apply E; now left.
    + apply IH; auto. intros H; apply E; now right.
Qed.

Lemma map_delete_incl k m :
  incl (map_keys (map_delete k m)) (map_keys m).
Proof.
  induction m as [|[k0 v0] m IH]; simpl.
  - apply incl_refl.
  - destruct (jseqb k k0).
    + apply incl_tl, incl_refl.
    + simpl. apply incl_cons; [now left | now apply incl_tl].
Qed.

Lemma map_delete_keys_NoDup k m :
  NoDup (map_keys m) -> NoDup (map_keys (map_delete k m)).
Proof.
  induction m as [|[k0 v0] m IH]; simpl; auto.
  intros Hnd; inversion Hnd as [|? ? Hnotin Hnd']; subst.
  destruct (jseqb k k0); simpl; auto.
  constructor; auto.
  intros Hin; apply Hnotin. now apply (map_delete_incl k m).
Qed.

Lemma map_get_delete_same k m :
  NoDup (map_keys m) -> map_get k (map_delete k m) = None.
Proof.
  induction m as [|[k0 v0] m IH]; simpl; auto.
  intros Hnd; inversion Hnd as [|? ? Hnotin Hnd']; subst.
  destruct (jseqb_spec k k0) as [->|Hne].
  - now apply map_get_None.
  - simpl. rewrite (jseqb_neq Hne). auto.
Qed.

Lemma filter_keys_NoDup (f : jsstring * V -> bool) m :
  NoDup (map_keys m) -> NoDup (map_keys (filter f m)).
Proof.
  induction m as [|[k0 v0] m IH]; simpl; auto.
  intros Hnd; inversion Hnd as [|? ? Hnotin Hnd']; subst.
  destruct (f (k0, v0)); simpl; auto.
  constructor; auto.
  intros Hin; apply Hnotin.
  unfold map_keys in *. rewrite in_map_iff in *.
  destruct Hin as (x & Hx & Hin). apply filter_In in Hin.
  exists x; tauto.
Qed.
End JsMapFacts.

(** ** The reducer, one event at a time *)

Arguments js : simpl never.
Arguments reduce_from : simpl never.

Ltac step_cases e st :=
  unfold step;
  destruct (jseqb (rc_type e) (js "new") || jseqb (rc_type e) (js "edit"))
    eqn:Hpage;
  [ destruct (map_get (rc_title e) (pages st)) eqn:Hget
  | destruct (jseqb (rc_type e) (js "log")) eqn:Hlog;
    [ destruct (jseqb (rc_logtype e) (js "delete")
                && loosely_delete (rc_logaction e)) eqn:Hdel;
      [ | destruct (jseqb (rc_logtype e) (js "move")) eqn:Hmove;
          [ destruct (suppressredirect (rc_logparams e)) eqn:Hsup
          | destruct (jseqb (rc_logtype e) (js "upload")) eqn:Hupl ] ]
    | ] ].

Ltac map_simpl :=
  repeat first
    [ rewrite map_get_set_same
    | rewrite map_get_set_other by congruence
    | rewrite map_get_delete_other by congruence
    | rewrite map_get_delete_same
        by auto using map_set_keys_NoDup, map_delete_keys_NoDup ].

Lemma reduce_from_app st a b :
  reduce_from st (a ++ b) = reduce_from (reduce_from st a) b.
Proof. unfold reduce_from. apply fold_left_app. Qed.

Lemma reduce_from_cons st e evs :
  reduce_from st (e :: evs) = reduce_from (step st e) evs.
Proof. reflexivity. Qed.

Lemma step_fileIds st e : fileIds (step st e) = fileIds st.
Proof. step_cases e st; reflexivity. Qed.

Lemma reduce_from_fileIds st evs :
  fileIds (reduce_from st evs) = fileIds st.
Proof.
  revert st; induction evs as [|e evs IH]; intros st; [reflexivity|].
  rewrite reduce_from_cons, IH. apply step_fileIds.
Qed.

Lemma step_keys_NoDup st e :
  NoDup (map_keys (pages st)) -> NoDup (map_keys (pages (step st e))).
Proof.
  intros H; step_cases e st; simpl;
    auto using map_set_keys_NoDup, map_delete_keys_NoDup.
Qed.

Lemma reduce_from_keys_NoDup st evs :
  NoDup (map_keys (pages st)) ->
  NoDup (map_keys (pages (reduce_from st evs))).
Proof.
  revert st; induction evs as [|e evs IH]; intros st H; [exact H|].
  rewrite reduce_from_cons. apply IH, step_keys_NoDup, H.
Qed.

Lemma reduce_keys_NoDup evs : NoDup (map_keys (pages (reduce evs))).
Proof. apply reduce_from_keys_NoDup. constructor. Qed.

(** An event that does not disturb [t] keeps the entry of [t]: the old
    title stays, and the minor flag can only go from true to false. *)
Lemma step_keeps_entry t st e i :
  disturbs t e = false ->
  map_get t (pages st) = Some i ->
  exists i', map_get t (pages (step st e)) = Some i'
             /\ oldTitle i' = oldTitle i
             /\ (minor i = false -> minor i' = false).
Proof.
  unfold disturbs, moves_onto, is_delete_event, is_move_event, is_page_event.
  intros Hd Hi; revert Hd.
  step_cases e st; simpl; intros Hd;
    try (exists i; repeat split; auto; fail).
  - destruct (jseqb_spec (rc_title e) t) as [E|Hne].
    + rewrite E in *. map_simpl. eexists; split; [reflexivity|].
      assert (p = i) by congruence; subst p. simpl; split; auto.
      intros ->; reflexivity.
    + map_simpl. exists i; auto.
  - destruct (jseqb_spec (rc_title e) t) as [E|Hne].
    + rewrite E in *; congruence.
    + map_simpl. exists i; auto.
  - destruct (jseqb_spec (rc_title e) t) as [E|Hne]; [discriminate|].
    map_simpl. exists i; auto.
  - destruct (jseqb_spec (rc_title e) t) as [E|Hne]; [discriminate|].
    destruct (jseqb_spec (target_title (rc_logparams e)) t) as [E'|Hne'];
      [discriminate|].
    map_simpl. exists i; auto.
  - destruct (jseqb_spec (rc_title e) t) as [E|Hne]; [discriminate|].
    destruct (jseqb_spec (target_title (rc_logparams e)) t) as [E'|Hne'];
      [discriminate|].
    map_simpl. exists i; auto.
Qed.

Lemma reduce_keeps_entry t evs : forall st i,
  forallb (fun e => negb (disturbs t e)) evs = true ->
  map_get t (pages st) = Some i ->
  exists i', map_get t (pages (reduce_from st evs)) = Some i'
             /\ oldTitle i' = oldTitle i
             /\ (minor i = false -> minor i' = false).
Proof.
  induction evs as [|e evs IH]; intros st i Hall Hi; simpl in *.
  - exists i; auto.
  - apply andb_true_iff in Hall as [He Hall].
    apply negb_true_iff in He. rewrite reduce_from_cons.
    destruct (@step_keeps_entry t st e i He Hi) as (i1 & H1 & Ho1 & Hm1).
    destruct (IH (step st e) i1 Hall H1) as (i2 & H2 & Ho2 & Hm2).
    exists i2; repeat split; auto; congruence.
Qed.

(** A title that carries no old title keeps none as long as nothing is
    moved onto it. *)
Lemma step_keeps_no_old t st e :
  NoDup (map_keys (pages st)) ->
  moves_onto t e = false ->
  old_of t (pages st) = None ->
  old_of t (pages (step st e)) = None.
Proof.
  unfold old_of, moves_onto, is_move_event, is_page_event.
  intros Hnd Hd Hi; revert Hd.
  step_cases e st; simpl; intros Hd; auto.
  - destruct (jseqb_spec (rc_title e) t) as [E|Hne].
    + rewrite E in *. map_simpl. now rewrite Hget in Hi.
    + now map_simpl.
  - destruct (jseqb_spec (rc_title e) t) as [E|Hne].
    + rewrite E in *. now map_simpl.
    + now map_simpl.
  - destruct (jseqb_spec (rc_title e) t) as [E|Hne].
    + rewrite E in *. now map_simpl.
    + now map_simpl.
  - destruct (jseqb_spec (target_title (rc_logparams e)) t) as [E'|Hne'];
      [discriminate|].
    destruct (jseqb_spec (rc_title e) t) as [E|Hne].
    + rewrite E in *. now map_simpl.
    + now map_simpl.
  - destruct (jseqb_spec (target_title (rc_logparams e)) t) as [E'|Hne'];
      [discriminate|].
    destruct (jseqb_spec (rc_title e) t) as [E|Hne].
    + rewrite E in *. now map_simpl.
    + now map_simpl.
Qed.

Lemma reduce_keeps_no_old t evs : forall st,
  NoDup (map_keys (pages st)) ->
  forallb (fun e => negb (moves_onto t e)) evs = true ->
  old_of t (pages st) = None ->
  old_of t (pages (reduce_from st evs)) = None.
Proof.
  induction evs as [|e evs IH]; intros st Hnd Hall Hi; simpl in *; auto.
  apply andb_true_iff in Hall as [He Hall].
  apply negb_true_iff in He. rewrite reduce_from_cons.
  apply IH; auto using step_keys_NoDup, step_keeps_no_old.
Qed.

(** ** The exclusion filter and the move list *)

Lemma truthy_nonempty (s : jsstring) : truthy s = true <-> s <> [].
Proof. destruct s; simpl; split; congruence. Qed.

Lemma excluded_entry_false ex t i :
  excluded_entry ex (t, i) = false <->
  ~ In t ex /\ (forall o, oldTitle i = Some o -> o <> [] -> ~ In o ex).
Proof.
  unfold excluded_entry, truthy_and; simpl.
  rewrite orb_false_iff, set_has_not_In.
  destruct (oldTitle i) as [o|].
  - rewrite andb_false_iff. split.
    + intros [Ht Ho]; split; auto.
      intros o' [= <-] Hne. destruct Ho as [Ho|Ho].
      * apply truthy_nonempty in Hne; congruence.
      * now apply set_has_not_In.
    + intros [Ht Ho]; split; auto.
      destruct o as [|c o]; [now left | right].
      apply set_has_not_In, Ho; congruence.
  - split; [intros [Ht _]; split; [auto | discriminate] | tauto].
Qed.

Lemma exclude_pages_In ex st t i :
  In (t, i) (pages (exclude ex st)) <->
  In (t, i) (pages st)
  /\ ~ In t ex
  /\ (forall o, oldTitle i = Some o -> o <> [] -> ~ In o ex).
Proof.
  unfold exclude; simpl. rewrite filter_In, negb_true_iff.
  now rewrite excluded_entry_false.
Qed.

Lemma moves_In p o t :
  In (o, t) (moves p) <->
  exists i, In (t, i) p /\ oldTitle i = Some o /\ o <> [] /\ t <> o.
Proof.
  unfold moves. rewrite in_map_iff. split.
  - intros ([t' i] & E & Hin). apply filter_In in Hin as [Hin Hmv].
    unfold move_pair, is_move_entry, truthy_and in *; simpl in *.
    destruct (oldTitle i) as [o'|] eqn:Eo; [|discriminate].
    injection E as <- <-.
    apply andb_true_iff in Hmv as [Ht Hne].
    exists i; repeat split; auto.
    + now apply truthy_nonempty.
    + apply negb_true_iff in Hne. destruct (jseqb_spec t' o'); congruence.
  - intros (i & Hin & Eo & Hne & Hto). exists (t, i); split.
    + unfold move_pair; simpl. now rewrite Eo.
    + apply filter_In; split; auto.
      unfold is_move_entry, truthy_and; simpl. rewrite Eo.
      apply andb_true_iff; split; [now apply truthy_nonempty|].
      now rewrite (jseqb_neq Hto).
Qed.

Lemma moves_targets p :
  List.map snd (moves p) = map_keys (filter is_move_entry p).
Proof.
  unfold moves, map_keys. rewrite map_map. reflexivity.
Qed.

Lemma filter_unique_target (l : list (jsstring * jsstring)) a c :
  NoDup (List.map snd l) -> In (a, c) l ->
  filter (fun pr => jseqb (snd pr) c) l = [(a, c)].
Proof.
  induction l as [|[x y] l IH]; simpl; [tauto|].
  intros Hnd Hin; inversion Hnd as [|? ? Hnotin Hnd']; subst.
  assert (Hrest : forall l' : list (jsstring * jsstring),
                 ~ In c (List.map snd l') ->
                 filter (fun pr => jseqb (snd pr) c) l' = []).
  { induction l' as [|[x' y'] l' IH']; simpl; auto.
    intros Hn. destruct (jseqb_spec y' c) as [->|]; [tauto|].
    apply IH'; tauto. }
  destruct Hin as [E|Hin].
  - injection E as -> ->. rewrite jseqb_refl. f_equal. now apply Hrest.
  - destruct (jseqb_spec y c) as [->|Hne].
    + exfalso; apply Hnotin.
      change (In (snd (a, c)) (List.map snd l)). now apply in_map.
    + auto.
Qed.

Lemma todo_keys_NoDup evs ex : NoDup (map_keys (pages (todo evs ex))).
Proof. apply filter_keys_NoDup, reduce_keys_NoDup. Qed.

Lemma step_move st e :
  is_move_event e = true ->
  pages (step st e) =
    let info := match map_get (rc_title e) (pages st) with
                | Some i => i
                | None => {| oldTitle := Some (rc_title e); minor := true |}
                end in
    let moved := map_set (target_title (rc_logparams e)) info (pages st) in
    if suppressredirect (rc_logparams e)
    then map_delete (rc_title e) moved
    else map_set (rc_title e) {| oldTitle := None; minor := false |} moved.
Proof.
  unfold is_move_event, is_page_event.
  step_cases e st; simpl; intros H; try discriminate; reflexivity.
Qed.

Lemma step_page st e :
  is_page_event e = true ->
  pages (step st e) =
    map_set (rc_title e)
      match map_get (rc_title e) (pages st) with
      | Some info => {| oldTitle := oldTitle info;
                        minor := minor info && rc_minor e |}
      | None => {| oldTitle := None; minor := rc_minor e |}
      end (pages st).
Proof.
  unfold is_page_event.
  step_cases e st; simpl; intros H; try discriminate; reflexivity.
Qed.

(** After a move from [a] to [b], [b] carries what [a] carried (or a fresh
    entry naming [a] as the old title), and [a] carries no old title. *)
Lemma step_move_effect st e a b :
  NoDup (map_keys (pages st)) ->
  is_move_event e = true ->
  rc_title e = a -> target_title (rc_logparams e) = b -> a <> b ->
  map_get b (pages (step st e))
    = Some match map_get a (pages st) with
           | Some i => i
           | None => {| oldTitle := Some a; minor := true |}
           end
  /\ old_of a (pages (step st e)) = None.
Proof.
  intros Hnd Hmv <- <- Hne. rewrite (step_move st e Hmv); simpl.
  unfold old_of.
  destruct (suppressredirect (rc_logparams e)); map_simpl; auto.
Qed.

(** ** The claims about the reducer *)

(** C1, as the code has it: for [new("A", minor), move("A" -> "B",
    suppressredirect)] and no exclusions, the pending map is
    [{"B": {minor: true}}] with no old title recorded (the entry made by
    the [new] event is relocated as it is), the move list is empty, and
    "A" is no key, no old title, no member of a move pair and no export
    title. *)
Theorem C1_new_then_move :
  let p := pages (todo [ev_new (js "A") true;
                        ev_move (js "A") (js "B") true] []) in
  p = [(js "B", {| oldTitle := None; minor := true |})]
  /\ moves p = []
  /\ ~ In (js "A") (export_titles p)
  /\ (forall t i, In (t, i) p -> t <> js "A" /\ oldTitle i <> Some (js "A"))
  /\ (forall pr, In pr (moves p) -> fst pr <> js "A" /\ snd pr <> js "A").
Proof.
  cbv zeta.
  assert (E : pages (todo [ev_new (js "A") true;
                           ev_move (js "A") (js "B") true] [])
              = [(js "B", {| oldTitle := None; minor := true |})])
    by (vm_compute; reflexivity).
  rewrite E. repeat split.
  - vm_compute. intros [H|[]]; discriminate.
  - destruct H as [H|[]]; injection H as <- <-; vm_compute; discriminate.
  - destruct H as [H|[]]; injection H as <- <-; discriminate.
  - destruct H.
  - destruct H.
Qed.

(** C1, as the spec states it, fails: the pending map does not record
    "A" as the old title of "B" and the move list is not [("A","B")]. *)
Lemma C1_counterexample :
  ~ (pages (todo [ev_new (js "A") true;
                  ev_move (js "A") (js "B") true] [])
       = [(js "B", {| oldTitle := Some (js "A"); minor := true |})]
     /\ moves (pages (todo [ev_new (js "A") true;
                            ev_move (js "A") (js "B") true] []))
       = [(js "A", js "B")]).
Proof. intros [_ H]. vm_compute in H. discriminate. Qed.

(** The old title an entry records is one of the pre-move titles of its
    page. *)
Lemma old_title_is_pre_move evs : forall t o,
  old_of t (pages (reduce evs)) = Some o -> In o (pre_move_titles evs t).
Proof.
  unfold pre_move_titles, reduce.
  induction evs as [|e evs IH] using rev_ind; intros t o.
  - discriminate.
  - rewrite reduce_from_app, rev_unit.
    change (reduce_from (reduce_from empty_state evs) [e])
      with (step (reduce_from empty_state evs) e).
    pose proof (reduce_keys_NoDup evs) as Hnd. unfold reduce in Hnd.
    set (st := reduce_from empty_state evs) in *.
    unfold old_of in *. simpl trace_back.
    unfold moves_onto, is_move_event, is_delete_event, is_page_event.
    step_cases e st; simpl.
    + destruct (jseqb_spec (rc_title e) t) as [E|Hne].
      * rewrite E in *. map_simpl. simpl. intros Ho. apply IH.
        now rewrite Hget.
      * map_simpl. apply IH.
    + destruct (jseqb_spec (rc_title e) t) as [E|Hne].
      * rewrite E in *. map_simpl. discriminate.
      * map_simpl. apply IH.
    + destruct (jseqb_spec (rc_title e) t) as [E|Hne].
      * rewrite E in *. map_simpl. discriminate.
      * map_simpl. apply IH.
    + destruct (jseqb_spec (target_title (rc_logparams e)) t) as [E'|Hne'];
        destruct (jseqb_spec (rc_title e) t) as [E|Hne].
      * rewrite E in *. map_simpl. discriminate.
      * rewrite E' in *. map_simpl.
        destruct (map_get (rc_title e) (pages st)) eqn:Hget; simpl.
        -- intros Ho. right. apply IH. now rewrite Hget.
        -- intros [= <-]. now left.
      * rewrite E in *. map_simpl. discriminate.
      * map_simpl. apply IH.
    + destruct (jseqb_spec (target_title (rc_logparams e)) t) as [E'|Hne'];
        destruct (jseqb_spec (rc_title e) t) as [E|Hne].
      * rewrite E in *. map_simpl. discriminate.
      * rewrite E' in *. map_simpl.
        destruct (map_get (rc_title e) (pages st)) eqn:Hget; simpl.
        -- intros Ho. right. apply IH. now rewrite Hget.
        -- intros [= <-]. now left.
      * rewrite E in *. map_simpl. discriminate.
      * map_simpl. apply IH.
    + apply IH.
    + apply IH.
    + apply IH.
Qed.

(** C3, as the code has it: whatever the events and the exclusion set, no
    title sent to the export is in the exclusion set, and no surviving
    entry records an old title that is not empty and is in the exclusion
    set. The recorded old title is the one pre-move title the filter
    looks at, and it looks at it through [oldTitle && ...], which the
    empty string does not pass. *)
Theorem C3_excluded_not_exported evs ex t :
  In t (export_titles (pages (todo evs ex))) ->
  ~ In t ex
  /\ forall o, old_of t (pages (todo evs ex)) = Some o -> o <> [] ->
               ~ In o ex.
Proof.
  unfold export_titles, map_keys. rewrite in_map_iff.
  intros ([t' i] & E & Hin); simpl in E; subst t'.
  pose proof (@In_map_get _ _ _ _ (todo_keys_NoDup evs ex) Hin) as Hget.
  apply exclude_pages_In in Hin as (_ & Ht & Ho). split; auto.
  unfold old_of. rewrite Hget. auto.
Qed.

Lemma C3_excluded_not_exported_witness :
  ~ In (js "C") [js "X"]
  /\ forall o,
       old_of (js "C")
         (pages (todo [ev_move (js "A") (js "C") true;
                       ev_move (js "X") (js "Y") true;
                       ev_edit (js "X") false] [js "X"])) = Some o ->
       o <> [] -> ~ In o [js "X"].
Proof.
  apply (@C3_excluded_not_exported
           [ev_move (js "A") (js "C") true;
            ev_move (js "X") (js "Y") true;
            ev_edit (js "X") false] [js "X"] (js "C")).
  vm_compute. now left.
Defined.

(** C3, as the spec states it, fails: after [move A -> B, move B -> C]
    the page "C" is exported although "B", one of its pre-move titles, is
    in the exclusion set; the entry of "C" records "A" only. *)
Lemma C3_counterexample :
  ~ (forall evs ex t h,
       In t (export_titles (pages (todo evs ex))) ->
       In h (t :: pre_move_titles evs t) -> ~ In h ex).
Proof.
  intros H.
  apply (H [ev_move (js "A") (js "B") true; ev_move (js "B") (js "C") true]
           [js "B"] (js "C") (js "B")).
  - vm_compute. now left.
  - vm_compute. right. now left.
  - now left.
Qed.

(** The filter does not look up an old title that is the empty string,
    which is no title of a wiki page: the guard [oldTitle && ...] stops
    there. *)
Example empty_old_title_is_not_looked_up :
  export_titles (pages (todo [ev_move [] (js "B") true] [[]])) = [js "B"]
  /\ old_of (js "B") (pages (todo [ev_move [] (js "B") true] [[]]))
     = Some [].
Proof. vm_compute. split; reflexivity. Qed.

(** C10: every pair of the move list of a run has a source and a
    destination outside the exclusion set, and the two differ. *)
Theorem C10_moves_avoid_excluded evs ex from to :
  In (from, to) (moves (pages (todo evs ex))) ->
  ~ In from ex /\ ~ In to ex /\ from <> to.
Proof.
  rewrite moves_In. intros (i & Hin & Eo & Hne & Hto).
  apply exclude_pages_In in Hin as (_ & Ht & Ho).
  split; [now apply Ho | split; [exact Ht | congruence]].
Qed.

Lemma C10_moves_avoid_excluded_witness :
  ~ In (js "A") [js "X"] /\ ~ In (js "C") [js "X"] /\ js "A" <> js "C".
Proof.
  apply (@C10_moves_avoid_excluded
           [ev_move (js "A") (js "C") true;
            ev_move (js "X") (js "Y") true] [js "X"]).
  vm_compute. now left.
Defined.

(** C5, as the code has it: an upload log event leaves both maps as they
    are (the recording is commented out), so the file-upload map is empty
    after every reduction. *)
Theorem C5_upload_records_nothing evs st e :
  rc_type e = js "log" -> rc_logtype e = js "upload" ->
  step st e = st /\ fileIds (reduce evs) = [].
Proof.
  intros Hty Hlt; split.
  - unfold step. rewrite Hty, Hlt. reflexivity.
  - unfold reduce. now rewrite reduce_from_fileIds.
Qed.

Lemma C5_upload_records_nothing_witness :
  step empty_state (ev_upload (js "File:F.png") 7) = empty_state
  /\ fileIds (reduce [ev_upload (js "File:F.png") 7]) = [].
Proof.
  apply (@C5_upload_records_nothing
           [ev_upload (js "File:F.png") 7] empty_state
           (ev_upload (js "File:F.png") 7)); reflexivity.
Defined.

(** C5, as the spec states it, fails: after an upload of "File:F.png"
    with page id 7 the file-upload map has no entry for that title. *)
Lemma C5_counterexample :
  map_get (js "File:F.png")
          (fileIds (reduce [ev_upload (js "File:F.png") 7])) <> Some 7%Z.
Proof. vm_compute. discriminate. Qed.

(** C7, as the code has it: once a title has received a non-minor new or
    edit event, its pending entry says [minor = false] at the end of the
    reduction, provided no later event deletes the title, moves it away or
    moves another page onto it. *)
Theorem C7_nonminor_sticks t pre e post :
  is_page_event e = true -> rc_title e = t -> rc_minor e = false ->
  forallb (fun e' => negb (disturbs t e')) post = true ->
  exists i, map_get t (pages (reduce (pre ++ e :: post))) = Some i
            /\ minor i = false.
Proof.
  intros Hpg Ht Hm Hpost. unfold reduce.
  rewrite reduce_from_app, reduce_from_cons.
  set (st := reduce_from empty_state pre).
  assert (Hget : exists i0, map_get t (pages (step st e)) = Some i0
                            /\ minor i0 = false).
  { rewrite (step_page st e Hpg), Ht, Hm, map_get_set_same.
    eexists; split; [reflexivity|].
    destruct (map_get t (pages st)); simpl; auto using andb_false_r. }
  destruct Hget as (i0 & H0 & Hm0).
  destruct (@reduce_keeps_entry t post (step st e) i0 Hpost H0)
    as (i & Hi & _ & Hmi).
  exists i; auto.
Qed.

Lemma C7_nonminor_sticks_witness :
  exists i,
    map_get (js "A")
      (pages (reduce ([ev_edit (js "A") true]
                      ++ ev_edit (js "A") false
                      :: [ev_edit (js "A") true;
                          ev_move (js "X") (js "Y") false]))) = Some i
    /\ minor i = false.
Proof.
  apply (@C7_nonminor_sticks (js "A") [ev_edit (js "A") true]
           (ev_edit (js "A") false)
           [ev_edit (js "A") true; ev_move (js "X") (js "Y") false]);
    reflexivity.
Defined.

(** C7, as the spec states it, fails: "A" receives a non-minor edit, is
    deleted and restored, and then receives a minor edit; its pending
    entry ends with [minor = true]. *)
Lemma C7_counterexample :
  map_get (js "A")
    (pages (reduce [ev_edit (js "A") false;
                    ev_delete (js "A");
                    mkChange (js "log") (js "A") 0 false
                             (js "delete") (JStr (js "restore")) no_params;
                    ev_edit (js "A") true]))
  = Some {| oldTitle := None; minor := true |}.
Proof. vm_compute. reflexivity. Qed.

(** C2, as the code has it: when "A" has no pending entry at the time the
    move A -> B is processed, the three titles differ, "A" is not empty,
    nothing between the two moves deletes "B", moves it away or moves a
    page onto it, nothing after them does so to "C" or moves a page onto
    "B", and neither "A" nor "C" is excluded, then the move list has
    exactly one pair with destination "C", namely (A, C), and has neither
    (A, B) nor (B, C). *)
Theorem C2_move_chain a b c e1 e2 pre mid post ex :
  is_move_event e1 = true -> rc_title e1 = a ->
  target_title (rc_logparams e1) = b ->
  is_move_event e2 = true -> rc_title e2 = b ->
  target_title (rc_logparams e2) = c ->
  a <> [] -> a <> b -> b <> c -> a <> c ->
  map_get a (pages (reduce pre)) = None ->
  forallb (fun e => negb (disturbs b e)) mid = true ->
  forallb (fun e => negb (disturbs c e)) post = true ->
  forallb (fun e => negb (moves_onto b e)) post = true ->
  ~ In a ex -> ~ In c ex ->
  let mv := moves (pages (todo (pre ++ e1 :: mid ++ e2 :: post) ex)) in
  filter (fun pr => jseqb (snd pr) c) mv = [(a, c)]
  /\ ~ In (a, b) mv /\ ~ In (b, c) mv.
Proof.
  intros Hmv1 Ht1 Hg1 Hmv2 Ht2 Hg2 Ha Hab Hbc Hac Hfresh Hmid Hpc Hpb
         Hexa Hexc.
  cbv zeta. unfold todo, reduce.
  rewrite reduce_from_app, reduce_from_cons, reduce_from_app,
    reduce_from_cons.
  pose proof (reduce_keys_NoDup pre) as Hnd0. unfold reduce in Hnd0, Hfresh.
  set (st0 := reduce_from empty_state pre) in *.
  (* the first move *)
  destruct (@step_move_effect st0 e1 a b Hnd0 Hmv1 Ht1 Hg1 Hab) as [Hb1 _].
  rewrite Hfresh in Hb1.
  pose proof (@step_keys_NoDup st0 e1 Hnd0) as Hnd1.
  set (st1 := step st0 e1) in *.
  (* the events in between *)
  destruct (@reduce_keeps_entry b mid st1 _ Hmid Hb1) as (i2 & Hb2 & Ho2 & _).
  simpl in Ho2.
  pose proof (@reduce_from_keys_NoDup st1 mid Hnd1) as Hnd2.
  set (st2 := reduce_from st1 mid) in *.
  (* the second move *)
  destruct (@step_move_effect st2 e2 b c Hnd2 Hmv2 Ht2 Hg2 Hbc) as [Hc3 Hb3].
  rewrite Hb2 in Hc3.
  pose proof (@step_keys_NoDup st2 e2 Hnd2) as Hnd3.
  set (st3 := step st2 e2) in *.
  (* the events after *)
  destruct (@reduce_keeps_entry c post st3 _ Hpc Hc3) as (i4 & Hc4 & Ho4 & _).
  pose proof (@reduce_keeps_no_old b post st3 Hnd3 Hpb Hb3) as Hb4.
  pose proof (@reduce_from_keys_NoDup st3 post Hnd3) as Hnd4.
  set (st4 := reduce_from st3 post) in *.
  assert (Hin : In (a, c) (moves (pages (exclude ex st4)))).
  { apply moves_In. exists i4. repeat split; try congruence.
    apply exclude_pages_In. split; [now apply map_get_In|].
    split; auto. intros o Eo _. congruence. }
  split; [|split].
  - apply filter_unique_target; auto.
    rewrite moves_targets.
    apply filter_keys_NoDup, filter_keys_NoDup, Hnd4.
  - rewrite moves_In. intros (i & Hi & Eo & _).
    apply exclude_pages_In in Hi as [Hi _].
    apply (@In_map_get _ _ _ _ Hnd4) in Hi. unfold old_of in Hb4.
    rewrite Hi in Hb4. congruence.
  - rewrite moves_In. intros (i & Hi & Eo & _).
    apply exclude_pages_In in Hi as [Hi _].
    apply (@In_map_get _ _ _ _ Hnd4) in Hi. congruence.
Qed.

Lemma C2_move_chain_witness :
  let mv := moves (pages (todo ([ev_edit (js "X") true]
                                ++ ev_move (js "A") (js "B") false
                                :: [ev_edit (js "B") true]
                                ++ ev_move (js "B") (js "C") true
                                :: [ev_edit (js "C") false]) [js "X"])) in
  filter (fun pr => jseqb (snd pr) (js "C")) mv = [(js "A", js "C")]
  /\ ~ In (js "A", js "B") mv /\ ~ In (js "B", js "C") mv.
Proof.
  apply (@C2_move_chain (js "A") (js "B") (js "C")
           (ev_move (js "A") (js "B") false)
           (ev_move (js "B") (js "C") true)
           [ev_edit (js "X") true] [ev_edit (js "B") true]
           [ev_edit (js "C") false] [js "X"]);
    try reflexivity; try (vm_compute; discriminate).
  - vm_compute. intros [H|[]]; discriminate.
  - vm_compute. intros [H|[]]; discriminate.
Defined.

(** C2, as the spec states it, fails: for [new A, move A -> B,
    move B -> C] with no delete in between, the move list is empty, so it
    does not contain (A, C). *)
Lemma C2_counterexample :
  ~ In (js "A", js "C")
       (moves (pages (todo [ev_new (js "A") false;
                            ev_move (js "A") (js "B") true;
                            ev_move (js "B") (js "C") true] []))).
Proof. vm_compute. intros []. Qed.

(** ** The pending map with shared objects *)

Lemma map_vals_set (V W : Type) (g : V -> W) k v (m : JsMap V) :
  map_vals g (map_set k v m) = map_set k (g v) (map_vals g m).
Proof.
  induction m as [|[k0 v0] m IH]; simpl; auto.
  destruct (jseqb k k0); simpl; [reflexivity | now rewrite IH].
Qed.

Lemma map_vals_delete (V W : Type) (g : V -> W) k (m : JsMap V) :
  map_vals g (map_delete k m) = map_delete k (map_vals g m).
Proof.
  induction m as [|[k0 v0] m IH]; simpl; auto.
  destruct (jseqb k k0); simpl; [reflexivity | now rewrite IH].
Qed.

Lemma map_get_map_vals (V W : Type) (g : V -> W) k (m : JsMap V) :
  map_get k (map_vals g m) = option_map g (map_get k m).
Proof.
  induction m as [|[k0 v0] m IH]; simpl; auto.
  destruct (jseqb k k0); simpl; auto.
Qed.

Lemma map_vals_ext (V W : Type) (g g' : V -> W) (m : JsMap V) :
  (forall k v, In (k, v) m -> g v = g' v) -> map_vals g m = map_vals g' m.
Proof.
  intros H. unfold map_vals. apply map_ext_in. intros [k v] Hin; simpl.
  f_equal. eapply H; eauto.
Qed.

Lemma deref_old h l r :
  (r < List.length h)%nat -> deref (h ++ l) r = deref h r.
Proof. intros H. unfold deref. now apply app_nth1. Qed.

Lemma deref_new h i : deref (h ++ [i]) (List.length h) = i.
Proof. unfold deref. now rewrite nth_middle. Qed.

Lemma heap_update_length r f h :
  List.length (heap_update r f h) = List.length h.
Proof.
  revert r; induction h as [|i h IH]; intros [|r]; simpl; auto.
Qed.

Lemma deref_update_same r f h :
  (r < List.length h)%nat -> deref (heap_update r f h) r = f (deref h r).
Proof.
  unfold deref. revert r; induction h as [|i h IH]; intros [|r]; simpl;
    intros H; try lia; auto. apply IH. lia.
Qed.

Lemma deref_update_other r r' f h :
  r <> r' -> deref (heap_update r f h) r' = deref h r'.
Proof.
  unfold deref. revert r r'; induction h as [|i h IH]; intros [|r] [|r'];
    simpl; intros H; auto; try congruence.
Qed.

(** Changing the object of [title] in place changes the entry of [title]
    and no other, because no other key holds that object. *)
Lemma view_update (m : JsMap nat) h title r f :
  NoDup (map_keys m) ->
  (forall k, In (k, r) m -> k = title) ->
  map_get title m = Some r -> (r < List.length h)%nat ->
  map_vals (deref (heap_update r f h)) m
  = map_set title (f (deref h r)) (map_vals (deref h) m).
Proof.
  intros Hnd Hown Hget Hr.
  induction m as [|[k0 r0] m IH]; simpl in *; [discriminate|].
  inversion Hnd as [|? ? Hnotin Hnd']; subst.
  destruct (jseqb_spec title k0) as [->|Hne].
  - injection Hget as ->. rewrite deref_update_same by assumption.
    f_equal. apply map_vals_ext. intros k v Hin.
    apply deref_update_other. intros <-.
    apply Hnotin. rewrite <- (Hown k (or_intror Hin)).
    change (In (fst (k, r)) (List.map fst m)). now apply in_map.
  - rewrite deref_update_other.
    + f_equal. apply IH; auto.
    + intros <-. apply Hne. symmetry. apply Hown. now left.
Qed.

Lemma map_set_get_cases (V : Type) k k' (v : V) m :
  map_get k (map_set k' v m) = if jseqb k k' then Some v else map_get k m.
Proof.
  destruct (jseqb_spec k k') as [->|Hne].
  - apply map_get_set_same.
  - now apply map_get_set_other.
Qed.

Lemma map_delete_get_cases (V : Type) k k' (m : JsMap V) :
  NoDup (map_keys m) ->
  map_get k (map_delete k' m) = if jseqb k k' then None else map_get k m.
Proof.
  intros Hnd. destruct (jseqb_spec k k') as [->|Hne].
  - now apply map_get_delete_same.
  - now apply map_get_delete_other.
Qed.

Lemma unshared_empty : unshared empty_shared.
Proof.
  split; [constructor|]. split; intros; discriminate.
Qed.

(** One event keeps the objects unshared, and [step] computes the view of
    what [step_shared] computes. *)
(** Two keys with the same reference are the same key: the cases left
    after the writes of one event. *)
Ltac finish_inj Hinj Hlive :=
  intros;
  repeat match goal with
         | H : Some _ = Some _ |- _ => injection H as H
         end;
  subst;
  first
    [ congruence
    | exfalso;
      repeat match goal with
             | H : map_get _ _ = Some _ |- _ => apply Hlive in H
             end;
      rewrite ?length_app in *; simpl in *; lia
    | repeat match goal with
             | H1 : map_get ?a ?m = Some ?v, H2 : map_get ?b ?m = Some ?v
               |- _ =>
                 lazymatch a with
                 | b => fail
                 | _ => pose proof (Hinj a b v H1 H2); clear H2
                 end
             end;
      congruence ].

Lemma shared_refines s e fids :
  unshared s ->
  unshared (step_shared s e)
  /\ view (step_shared s e)
     = pages (step {| pages := view s; fileIds := fids |} e).
Proof.
  intros (Hnd & Hinj & Hlive).
  unfold step_shared, step, view. simpl pages.
  rewrite map_get_map_vals.
  destruct (jseqb (rc_type e) (js "new") || jseqb (rc_type e) (js "edit")).
  { destruct (map_get (rc_title e) (refs s)) as [r|] eqn:Hget; simpl.
    - split.
      + unfold unshared; simpl; split; [exact Hnd|]. split; [exact Hinj|].
        intros k r0 H. rewrite heap_update_length. eauto.
      + apply view_update; eauto.
        intros k Hin. apply (Hinj k (rc_title e) r); auto.
        now apply In_map_get.
    - split.
      + unfold unshared; simpl; split; [now apply map_set_keys_NoDup|]. split.
        * intros k1 k2 r. rewrite !map_set_get_cases.
          destruct (jseqb_spec k1 (rc_title e)) as [->|H1],
                   (jseqb_spec k2 (rc_title e)) as [->|H2];
            auto; intros E1 E2.
          -- injection E1 as <-. apply Hlive in E2. lia.
          -- injection E2 as <-. apply Hlive in E1. lia.
          -- eauto.
        * intros k r. rewrite map_set_get_cases, length_app. simpl.
          destruct (jseqb k (rc_title e)).
          -- intros [= <-]. lia.
          -- intros H. apply Hlive in H. lia.
      + rewrite map_vals_set, deref_new. f_equal.
        apply map_vals_ext. intros k v Hin. apply deref_old.
        apply (Hlive k). now apply In_map_get. }
  destruct (jseqb (rc_type e) (js "log")); [|split; [repeat split; assumption | reflexivity]].
  destruct (jseqb (rc_logtype e) (js "delete")
            && loosely_delete (rc_logaction e)).
  { simpl. split.
    - unfold unshared; simpl; split; [now apply map_delete_keys_NoDup|]. split.
      + intros k1 k2 r. rewrite !map_delete_get_cases by assumption.
        destruct (jseqb k1 (rc_title e)), (jseqb k2 (rc_title e));
          try discriminate. eauto.
      + intros k r. rewrite map_delete_get_cases by assumption.
        destruct (jseqb k (rc_title e)); [discriminate | eauto].
    - apply map_vals_delete. }
  destruct (jseqb (rc_logtype e) (js "move")).
  2:{ split; [repeat split; assumption|].
      now destruct (jseqb (rc_logtype e) (js "upload")). }
  generalize (rc_title e) (target_title (rc_logparams e)).
  intros title target.
  assert (Hkeys : forall v v' : nat,
             NoDup (map_keys (map_set title v' (map_set target v (refs s))))
             /\ NoDup (map_keys (map_delete title
                                   (map_set target v (refs s))))
             /\ NoDup (map_keys (map_set target v (refs s)))).
  { intros v v'. repeat split;
      auto using map_set_keys_NoDup, map_delete_keys_NoDup. }
  destruct (map_get title (refs s)) as [r|] eqn:Hget; simpl fst; simpl snd.
  - (* the object found under [title] goes under [target] *)
    assert (Hr : (r < List.length (heap s))%nat) by eauto.
    destruct (suppressredirect (rc_logparams e)); simpl.
    + split.
      * unfold unshared; simpl. split; [apply (Hkeys r 0%nat)|]. split.
        -- intros k1 k2 r0.
           rewrite !map_delete_get_cases, !map_set_get_cases
             by apply (Hkeys r 0%nat).
           destruct (jseqb_spec k1 title), (jseqb_spec k2 title),
                    (jseqb_spec k1 target), (jseqb_spec k2 target);
             finish_inj Hinj Hlive.
        -- intros k r0.
           rewrite map_delete_get_cases, map_set_get_cases
             by apply (Hkeys r 0%nat).
           destruct (jseqb k title); [discriminate|].
           destruct (jseqb k target); [intros [= <-]; exact Hr | eauto].
      * now rewrite map_vals_delete, map_vals_set.
    + split.
      * unfold unshared; simpl.
        split; [apply (Hkeys r (List.length (heap s)))|]. split.
        -- intros k1 k2 r0. rewrite !map_set_get_cases.
           destruct (jseqb_spec k1 title), (jseqb_spec k2 title),
                    (jseqb_spec k1 target), (jseqb_spec k2 target);
             finish_inj Hinj Hlive.
        -- intros k r0. rewrite !map_set_get_cases, length_app. simpl.
           destruct (jseqb k title); [intros [= <-]; lia|].
           destruct (jseqb k target); [intros [= <-]; lia|].
           intros H. apply Hlive in H. lia.
      * rewrite !map_vals_set, deref_new, deref_old by assumption.
        f_equal. f_equal.
        apply map_vals_ext. intros k v Hin. apply deref_old.
        apply (Hlive k). now apply In_map_get.
  - (* a fresh object goes under [target] *)
    destruct (suppressredirect (rc_logparams e)); simpl.
    + split.
      * unfold unshared; simpl.
        split; [apply (Hkeys (List.length (heap s)) 0%nat)|]. split.
        -- intros k1 k2 r0.
           rewrite !map_delete_get_cases, !map_set_get_cases
             by apply (Hkeys (List.length (heap s)) 0%nat).
           destruct (jseqb_spec k1 title), (jseqb_spec k2 title),
                    (jseqb_spec k1 target), (jseqb_spec k2 target);
             finish_inj Hinj Hlive.
        -- intros k r0.
           rewrite map_delete_get_cases, map_set_get_cases, length_app
             by apply (Hkeys (List.length (heap s)) 0%nat).
           simpl.
           destruct (jseqb k title); [discriminate|].
           destruct (jseqb k target); [intros [= <-]; lia|].
           intros H. apply Hlive in H. lia.
      * rewrite map_vals_delete, map_vals_set, deref_new. f_equal. f_equal.
        apply map_vals_ext. intros k v Hin. apply deref_old.
        apply (Hlive k). now apply In_map_get.
    + split.
      * unfold unshared; simpl.
        split; [apply (Hkeys (List.length (heap s))
                         (List.length (heap s ++ [mkInfo (Some title) true])))|].
        split.
        -- intros k1 k2 r0. rewrite !map_set_get_cases.
           destruct (jseqb_spec k1 title), (jseqb_spec k2 title),
                    (jseqb_spec k1 target), (jseqb_spec k2 target);
             finish_inj Hinj Hlive.
        -- intros k r0. rewrite !map_set_get_cases, !length_app. simpl.
           destruct (jseqb k title); [intros [= <-]; lia|].
           destruct (jseqb k target); [intros [= <-]; lia|].
           intros H. apply Hlive in H. lia.
      * rewrite !map_vals_set, deref_new.
        rewrite deref_old by (rewrite length_app; simpl; lia).
        rewrite deref_new. f_equal. f_equal.
        apply map_vals_ext. intros k v Hin.
        apply In_map_get in Hin; auto. apply Hlive in Hin.
        rewrite !deref_old; auto. rewrite length_app. simpl. lia.
Qed.

(** The whole loop: the map of values [reduce] computes is the view of
    the map of shared objects the script builds. *)
Lemma reduce_shared_view evs :
  view (fold_left step_shared evs empty_shared) = pages (reduce evs).
Proof.
  unfold reduce.
  assert (H : forall s st, unshared s -> view s = pages st ->
              fileIds st = [] ->
              view (fold_left step_shared evs s)
              = pages (reduce_from st evs)).
  { induction evs as [|e evs IH]; intros s st Hs Hv Hf; [exact Hv|].
    simpl. rewrite reduce_from_cons.
    destruct (@shared_refines s e [] Hs) as [Hs' Hv'].
    apply IH; auto.
    - rewrite Hv'. f_equal. f_equal. destruct st as [p f]; simpl in *.
      now subst.
    - now rewrite step_fileIds. }
  apply H; [apply unshared_empty | reflexivity | reflexivity].
Qed.

(** ** The backtracking matchers *)

Section BacktrackingFacts.
Variable R : Type.
Implicit Types (k : jsstring -> option R) (s l w : jsstring).

Lemma lit_app l s k : lit l (l ++ s) k = k s.
Proof.
  induction l as [|c l IH]; simpl; auto. now rewrite N.eqb_refl.
Qed.

Lemma lit_inv l s k r :
  lit l s k = Some r -> exists s', s = l ++ s' /\ k s' = Some r.
Proof.
  revert s; induction l as [|c l IH]; intros s; simpl.
  - intros H; exists s; auto.
  - destruct s as [|d s]; [discriminate|].
    destruct (N.eqb_spec c d) as [->|]; [|discriminate].
    intros H. destruct (IH _ H) as (s' & -> & Hk). exists s'; auto.
Qed.

Lemma greedy_stop cls s k :
  match s with [] => true | c :: _ => negb (cls c) end = true ->
  star_greedy cls s k = k s.
Proof.
  destruct s as [|c s]; simpl; auto.
  intros H; apply negb_true_iff in H. now rewrite H.
Qed.

Lemma greedy_stop_lit cls l s k :
  match l with [] => false | c :: _ => negb (cls c) end = true ->
  star_greedy cls (l ++ s) k = k (l ++ s).
Proof.
  intros H. apply greedy_stop. destruct l; [discriminate | exact H].
Qed.

Lemma greedy_commit cls w s k r :
  forallb cls w = true ->
  star_greedy cls s k = Some r ->
  star_greedy cls (w ++ s) k = Some r.
Proof.
  induction w as [|c w IH]; simpl; auto.
  intros Hw Hs. apply andb_true_iff in Hw as [Hc Hw].
  now rewrite Hc, (IH Hw Hs).
Qed.

Lemma greedy_inv cls s k r :
  star_greedy cls s k = Some r ->
  exists w s', s = w ++ s' /\ forallb cls w = true /\ k s' = Some r.
Proof.
  induction s as [|c s IH]; simpl.
  - intros H; exists [], []; auto.
  - destruct (cls c) eqn:Hc.
    + destruct (star_greedy cls s k) as [r'|] eqn:E.
      * intros [= ->]. destruct (IH eq_refl) as (w & s' & -> & Hw & Hk).
        exists (c :: w), s'; simpl. now rewrite Hc, Hw.
      * intros H; exists [], (c :: s); auto.
    + intros H; exists [], (c :: s); auto.
Qed.
End BacktrackingFacts.

Section LazyFacts.
Variable R : Type.
Implicit Types (k : jsstring -> jsstring -> option R).

Lemma lazy_now cls acc s k r :
  k acc s = Some r -> star_lazy cls acc s k = Some r.
Proof. intros H. destruct s; simpl; now rewrite H. Qed.

Lemma lazy_inv cls s k : forall acc r,
  star_lazy cls acc s k = Some r ->
  exists u s', s = u ++ s' /\ k (acc ++ u) s' = Some r.
Proof.
  induction s as [|c s IH]; intros acc r; simpl.
  - destruct (k acc []) eqn:E; [|discriminate].
    intros [= ->]. exists [], []. simpl; rewrite app_nil_r; auto.
  - destruct (k acc (c :: s)) eqn:E.
    + intros [= ->]. exists [], (c :: s). simpl; rewrite app_nil_r; auto.
    + destruct (cls c); [|discriminate].
      intros H. destruct (IH _ _ H) as (u & s' & -> & Hk).
      exists (c :: u), s'. now rewrite <- app_assoc in Hk.
Qed.

Lemma lazy_skip u rest k : forall acc,
  (forall u' u'', u = u' ++ u'' -> u'' <> [] ->
                  k (acc ++ u') (u'' ++ rest) = None) ->
  star_lazy any_unit acc (u ++ rest) k
  = star_lazy any_unit (acc ++ u) rest k.
Proof.
  induction u as [|c u IH]; intros acc Hfail; simpl.
  - now rewrite app_nil_r.
  - specialize (Hfail [] (c :: u) eq_refl) as H0.
    rewrite app_nil_r in H0. simpl in H0. rewrite H0 by discriminate.
    rewrite IH.
    + now rewrite <- app_assoc.
    + intros u' u'' -> Hne. rewrite <- app_assoc. simpl.
      apply (Hfail (c :: u') u''); auto.
Qed.
End LazyFacts.

(** ** Prefixes and occurrences *)

Lemma starts_with_app (pat s : jsstring) : starts_with pat (pat ++ s) = true.
Proof. induction pat; simpl; auto. now rewrite N.eqb_refl. Qed.

Lemma starts_with_short (pat a b : jsstring) :
  (List.length pat <= List.length a)%nat ->
  starts_with pat (a ++ b) = starts_with pat a.
Proof.
  revert a; induction pat as [|c pat IH]; intros a; simpl; auto.
  destruct a as [|d a]; simpl; [lia|].
  intros H. rewrite IH by lia. reflexivity.
Qed.

Lemma starts_in_false (pat s rest : jsstring) :
  starts_in pat s rest = false ->
  forall a l, s = a ++ l -> l <> [] -> starts_with pat (l ++ rest) = false.
Proof.
  induction s as [|c s IH]; simpl; intros H a l E Hl.
  - destruct a; destruct l; simpl in E; congruence.
  - apply orb_false_iff in H as [H1 H2].
    destruct a as [|d a]; simpl in E.
    + subst l. exact H1.
    + injection E as -> E. eapply IH; eauto.
Qed.

Lemma all_space_app (a b : jsstring) :
  all_space (a ++ b) = all_space a && all_space b.
Proof. apply forallb_app. Qed.

Lemma last_of_suffix (a l : jsstring) (d : N) :
  l <> [] -> last (a ++ l) d = last l d.
Proof.
  intros Hl. induction a as [|c a IH]; simpl; auto.
  rewrite IH. destruct (a ++ l) eqn:E; auto.
  apply app_eq_nil in E as [_ E]. congruence.
Qed.

Lemma nonspace_last_suffix (s a l : jsstring) :
  nonspace_last s = true -> s = a ++ l -> l <> [] -> all_space l = false.
Proof.
  unfold nonspace_last. intros H -> Hl.
  destruct (all_space l) eqn:E; auto.
  rewrite last_of_suffix in H by auto. exfalso.
  revert H. destruct (exists_last Hl) as (l' & c & ->).
  rewrite last_last. unfold all_space in E.
  rewrite forallb_app in E. simpl in E.
  apply andb_true_iff in E as [_ E]. apply andb_true_iff in E as [E _].
  now rewrite E.
Qed.

Lemma lit_mismatch (R : Type) (l s : jsstring) (k : jsstring -> option R) :
  starts_with l s = false -> lit l s k = None.
Proof.
  intros H. destruct (lit l s k) eqn:E; auto.
  apply lit_inv in E as (s' & -> & _).
  now rewrite starts_with_app in H.
Qed.

Lemma first_occurrence (pat s more : jsstring) :
  starts_in pat s pat = false ->
  forall a l, s = a ++ l -> l <> [] ->
  starts_with pat (l ++ pat ++ more) = false.
Proof.
  intros H a l E Hl. rewrite app_assoc, starts_with_short.
  - eapply starts_in_false; eauto.
  - rewrite length_app. lia.
Qed.

Lemma title_text_suffix (t a l : jsstring) :
  title_text t = true -> t = a ++ l -> l <> [] ->
  all_space l = false /\ forallb (fun c => negb (N.eqb c 60)) l = true.
Proof.
  unfold title_text. intros H E Hl.
  apply andb_true_iff in H as [H Hlast].
  apply andb_true_iff in H as [Hlt _]. split.
  - eapply nonspace_last_suffix; eauto.
  - subst t. rewrite forallb_app in Hlt.
    now apply andb_true_iff in Hlt as [_ Hlt].
Qed.

(** ** The title pattern on a page block *)

(** On [<title> t </title> body </revision>] where [body] holds no
    earlier [</revision>], the pattern matches the whole block and
    captures [t]. *)
Lemma re_title_block_core ws1 t ws2 body post :
  all_space ws1 = true -> all_space ws2 = true ->
  title_text t = true -> (t = [] -> ws2 = []) ->
  starts_in (js "</revision>") body (js "</revision>") = false ->
  re_title (js "<title>" ++ ws1 ++ t ++ ws2 ++ js "</title>"
            ++ body ++ js "</revision>" ++ post)
  = Some (t, post).
Proof.
  intros Hw1 Hw2 Ht Hempty Hbody. unfold re_title.
  rewrite lit_app.
  apply greedy_commit; [exact Hw1|].
  rewrite greedy_stop.
  2:{ destruct t as [|c t].
      - rewrite (Hempty eq_refl). reflexivity.
      - unfold title_text in Ht. simpl in *.
        apply andb_true_iff in Ht as [Ht _].
        now apply andb_true_iff in Ht as [_ Ht]. }
  rewrite lazy_skip.
  - apply lazy_now. change ([] ++ t) with t.
    apply greedy_commit; [exact Hw2|].
    rewrite greedy_stop_lit by reflexivity.
    rewrite lit_app.
    rewrite lazy_skip.
    + apply lazy_now. now rewrite lit_app.
    + intros b' b'' E Hne. apply lit_mismatch.
      eapply first_occurrence; eauto.
  - intros t' t'' E Hne.
    destruct (title_text_suffix _ Ht E Hne) as [Hsp Hlt].
    match goal with |- ?x = None => destruct x eqn:Hk; auto end.
    exfalso.
    apply greedy_inv in Hk as (w & s' & Es & Hw & Hk).
    apply lit_inv in Hk as (s'' & -> & _).
    apply app_eq_app in Es as [l [[E1 E2]|[E1 E2]]].
    + subst t''. destruct l as [|c l].
      * rewrite app_nil_r in Hsp. unfold all_space in Hsp. congruence.
      * rewrite forallb_app in Hlt. apply andb_true_iff in Hlt as [_ Hlt].
        simpl in Hlt. apply andb_true_iff in Hlt as [Hc _].
        change (js "</title>") with (60%N :: js "/title>") in E2.
        simpl in E2. injection E2 as <- _. discriminate.
    + subst w. unfold all_space in Hsp.
      rewrite forallb_app in Hw. apply andb_true_iff in Hw as [Hw _].
      congruence.
Qed.

Lemma re_title_block ws1 t ws2 body post :
  all_space ws1 = true -> all_space ws2 = true -> title_text t = true ->
  starts_in (js "</revision>") body (js "</revision>") = false ->
  re_title (js "<title>" ++ ws1 ++ t ++ ws2 ++ js "</title>"
            ++ body ++ js "</revision>" ++ post)
  = Some (t, post).
Proof.
  intros Hw1 Hw2 Ht Hbody. destruct t as [|c t].
  - change (ws1 ++ [] ++ ws2 ++ js "</title>" ++ body ++ js "</revision>"
            ++ post)
      with (ws1 ++ ws2 ++ js "</title>" ++ body ++ js "</revision>" ++ post).
    rewrite (app_assoc ws1 ws2).
    apply (@re_title_block_core (ws1 ++ ws2) [] [] body post); auto.
    rewrite all_space_app, Hw1, Hw2. reflexivity.
  - apply re_title_block_core; auto. discriminate.
Qed.

Lemma re_title_prefix s r :
  re_title s = Some r -> starts_with (js "<title>") s = true.
Proof.
  unfold re_title. intros H. apply lit_inv in H as (s' & -> & _).
  apply starts_with_app.
Qed.

(** What the pattern leaves is a proper suffix of what it was tried on. *)
Lemma re_title_suffix s t rest :
  re_title s = Some (t, rest) ->
  exists blk, s = blk ++ rest /\ blk <> [].
Proof.
  unfold re_title. intros H.
  apply lit_inv in H as (s1 & -> & H).
  apply greedy_inv in H as (w1 & s2 & -> & _ & H).
  apply lazy_inv in H as (u & s3 & -> & H).
  apply greedy_inv in H as (w2 & s4 & -> & _ & H).
  apply lit_inv in H as (s5 & -> & H).
  apply lazy_inv in H as (b & s6 & -> & H).
  apply lit_inv in H as (s7 & -> & H).
  injection H as _ <-.
  exists (js "<title>" ++ w1 ++ u ++ w2 ++ js "</title>" ++ b
          ++ js "</revision>").
  split.
  - now repeat rewrite <- app_assoc.
  - discriminate.
Qed.

(** ** The minor marker *)

Lemma re_minor_marker w1 w2 rest :
  all_space w1 = true -> all_space w2 = true ->
  re_minor (w1 ++ js "<minor" ++ w2 ++ js "/>" ++ rest) = Some rest.
Proof.
  intros H1 H2. unfold re_minor.
  apply greedy_commit; [exact H1|].
  rewrite greedy_stop_lit by reflexivity. rewrite lit_app.
  apply greedy_commit; [exact H2|].
  rewrite greedy_stop_lit by reflexivity. now rewrite lit_app.
Qed.

(** No match of the marker pattern starts inside a text that does not end
    in white space and in which [<minor] does not occur. *)
Lemma re_minor_not_before hd w1 more :
  nonspace_last hd = true -> all_space w1 = true ->
  starts_in (js "<minor") (hd ++ w1) (js "<minor") = false ->
  forall a l, hd = a ++ l -> l <> [] ->
  re_minor (l ++ w1 ++ js "<minor" ++ more) = None.
Proof.
  intros Hlast Hw1 Hocc a l E Hl.
  destruct (re_minor _) eqn:Hm; auto. exfalso.
  unfold re_minor in Hm.
  apply greedy_inv in Hm as (w & s' & Es & Hw & Hm).
  apply lit_inv in Hm as (s'' & -> & _).
  pose proof (nonspace_last_suffix _ Hlast E Hl) as Hsp.
  apply app_eq_app in Es as [m [[E1 E2]|[E1 E2]]].
  - subst l. destruct m as [|c m].
    + rewrite app_nil_r in Hsp. unfold all_space in Hsp. congruence.
    + assert (Hs : starts_with (js "<minor")
                     (((c :: m) ++ w1) ++ js "<minor" ++ more) = true).
      { rewrite <- app_assoc, <- E2. apply starts_with_app. }
      rewrite (@first_occurrence (js "<minor") (hd ++ w1) more Hocc
                 (a ++ w) ((c :: m) ++ w1)) in Hs.
      * discriminate.
      * subst hd. now repeat rewrite <- app_assoc.
      * discriminate.
  - subst w. unfold all_space in Hsp.
    rewrite forallb_app in Hw. apply andb_true_iff in Hw as [Hw _].
    congruence.
Qed.

Lemma strip_minor_eq str :
  strip_minor str =
  match re_minor str with
  | Some rest => rest
  | None => match str with c :: str' => c :: strip_minor str' | [] => [] end
  end.
Proof. destruct str; reflexivity. Qed.

Lemma strip_minor_skip hd rest :
  (forall a l, hd = a ++ l -> l <> [] -> re_minor (l ++ rest) = None) ->
  strip_minor (hd ++ rest) = hd ++ strip_minor rest.
Proof.
  induction hd as [|c hd IH]; intros H; auto.
  rewrite strip_minor_eq, (H [] (c :: hd) eq_refl) by discriminate.
  simpl. f_equal. apply IH.
  intros a l -> Hl. now apply (H (c :: a) l).
Qed.

(** The first marker of a text is removed together with the white space
    before it, and nothing else changes. *)
Lemma strip_minor_first hd w1 w2 tl :
  nonspace_last hd = true -> all_space w1 = true -> all_space w2 = true ->
  starts_in (js "<minor") (hd ++ w1) (js "<minor") = false ->
  strip_minor (hd ++ w1 ++ js "<minor" ++ w2 ++ js "/>" ++ tl) = hd ++ tl.
Proof.
  intros Hlast Hw1 Hw2 Hocc.
  rewrite strip_minor_skip.
  - now rewrite strip_minor_eq, re_minor_marker.
  - intros a l E Hl. eapply re_minor_not_before; eauto.
Qed.

(** ** The global replacement *)

Lemma replace_titles_skip f a b :
  replace_titles f (a ++ b) (List.length a) = replace_titles f b 0.
Proof. induction a as [|c a IH]; simpl; auto. Qed.

Lemma replace_titles_eq f xml :
  replace_titles f xml 0 =
  match xml with
  | [] => []
  | c :: xml' =>
      match re_title xml with
      | Some (title, rest) =>
          let len := (List.length xml - List.length rest)%nat in
          f (firstn len xml) title ++ replace_titles f xml' (len - 1)
      | None => c :: replace_titles f xml' 0
      end
  end.
Proof. destruct xml; reflexivity. Qed.

Lemma replace_titles_match f blk t post :
  blk <> [] -> re_title (blk ++ post) = Some (t, post) ->
  replace_titles f (blk ++ post) 0 = f blk t ++ replace_titles f post 0.
Proof.
  intros Hne Hm. rewrite replace_titles_eq, Hm.
  destruct blk as [|c blk]; [congruence|]. cbv zeta.
  change ((c :: blk) ++ post) with (c :: blk ++ post).
  assert (El : (List.length (c :: blk ++ post) - List.length post
              = List.length (c :: blk))%nat).
  { change (c :: blk ++ post) with ((c :: blk) ++ post).
    rewrite length_app. lia. }
  rewrite El.
  change (c :: blk ++ post) with ((c :: blk) ++ post) at 1.
  rewrite firstn_app, firstn_all, Nat.sub_diag, firstn_O, app_nil_r.
  simpl List.length. rewrite Nat.sub_succ, Nat.sub_0_r.
  now rewrite replace_titles_skip.
Qed.

Lemma replace_titles_pass f pre rest :
  (forall a l, pre = a ++ l -> l <> [] -> re_title (l ++ rest) = None) ->
  replace_titles f (pre ++ rest) 0 = pre ++ replace_titles f rest 0.
Proof.
  induction pre as [|c pre IH]; intros H; auto.
  rewrite replace_titles_eq.
  pose proof (H [] (c :: pre) eq_refl) as H0.
  change ((c :: pre) ++ rest) with (c :: pre ++ rest) in *.
  rewrite H0 by discriminate.
  change ((c :: pre) ++ replace_titles f rest 0)
    with (c :: (pre ++ replace_titles f rest 0)).
  f_equal. apply IH. intros a l -> Hl. now apply (H (c :: a) l).
Qed.

Lemma re_title_not_before pre more :
  starts_in (js "<title>") pre (js "<title>") = false ->
  forall a l, pre = a ++ l -> l <> [] ->
  re_title (l ++ js "<title>" ++ more) = None.
Proof.
  intros Hocc a l E Hl.
  destruct (re_title _) eqn:Hm; auto.
  apply re_title_prefix in Hm.
  rewrite (@first_occurrence _ _ more Hocc _ _ E Hl) in Hm. discriminate.
Qed.

(** A callback that returns its match makes the replacement the
    identity. *)
Lemma replace_titles_id f :
  (forall str title, f str title = str) ->
  forall n xml, (List.length xml <= n)%nat -> replace_titles f xml 0 = xml.
Proof.
  intros Hf. induction n as [|n IH]; intros xml Hn.
  - destruct xml; [reflexivity | simpl in Hn; lia].
  - destruct xml as [|c xml]; [reflexivity|].
    destruct (re_title (c :: xml)) as [[t rest]|] eqn:Hm.
    + destruct (@re_title_suffix _ _ _ Hm) as (blk & E & Hne).
      rewrite E in Hm |- *.
      rewrite (@replace_titles_match f _ _ _ Hne Hm), Hf. f_equal.
      apply IH. apply (f_equal (@List.length N)) in E.
      rewrite length_app in E. simpl in E, Hn.
      destruct blk; [congruence | simpl in E; lia].
    + rewrite replace_titles_eq, Hm. f_equal. apply IH.
      simpl in Hn; lia.
Qed.

(** ** The claims about the export post-processing *)

Lemma unminor_eq p str t :
  unminor p str t = if known_non_minor p t then strip_minor str else str.
Proof.
  unfold unminor, known_non_minor.
  destruct (map_get t p) as [i|]; auto. now destruct (minor i).
Qed.

(** When no pending entry says [minor = false], the export is not
    changed at all. *)
Lemma patch_export_all_minor p xml :
  (forall t, known_non_minor p t = false) -> patch_export p xml = xml.
Proof.
  intros H. unfold patch_export.
  apply (@replace_titles_id (unminor p)) with (n := List.length xml); auto.
  intros str t. now rewrite unminor_eq, H.
Qed.

Lemma nonspace_last_head_block a x :
  nonspace_last x = true -> nonspace_last (a ++ js "</title>" ++ x) = true.
Proof.
  unfold nonspace_last. intros H.
  rewrite last_of_suffix by discriminate.
  destruct x as [|c x]; [reflexivity|].
  now rewrite last_of_suffix by discriminate.
Qed.

(** X29: how the post-processing treats one page of the export. The text
    from a [<title>] to the first [</revision>] after it is one span. The
    callback looks up in [pages] the text [t] that stands between
    [<title>] and [</title>], trimmed of white space and otherwise as it
    is written in the XML; when that text is a key whose entry says
    [minor = false], the first [<minor/>] marker of the span goes, with
    the white space before it, and otherwise the span stays as it is;
    what follows the span is processed on its own. *)
Theorem first_marker_of_span p pre ws1 t ws2 x w1 w2 y post :
  starts_in (js "<title>") pre (js "<title>") = false ->
  all_space ws1 = true -> all_space ws2 = true -> title_text t = true ->
  all_space w1 = true -> all_space w2 = true -> nonspace_last x = true ->
  starts_in (js "<minor")
            (js "<title>" ++ ws1 ++ t ++ ws2 ++ js "</title>" ++ x ++ w1)
            (js "<minor") = false ->
  starts_in (js "</revision>")
            (x ++ w1 ++ js "<minor" ++ w2 ++ js "/>" ++ y)
            (js "</revision>") = false ->
  patch_export p
    (pre ++ js "<title>" ++ ws1 ++ t ++ ws2 ++ js "</title>" ++ x
         ++ w1 ++ js "<minor" ++ w2 ++ js "/>" ++ y
         ++ js "</revision>" ++ post)
  = pre ++ js "<title>" ++ ws1 ++ t ++ ws2 ++ js "</title>" ++ x
        ++ (if known_non_minor p t then []
            else w1 ++ js "<minor" ++ w2 ++ js "/>")
        ++ y ++ js "</revision>" ++ patch_export p post.
Proof.
  intros Hpre Hws1 Hws2 Ht Hw1 Hw2 Hx Hmin Hrev.
  unfold patch_export.
  rewrite replace_titles_pass
    by (intros a l E Hl; eapply re_title_not_before; eauto).
  f_equal.
  set (body := x ++ w1 ++ js "<minor" ++ w2 ++ js "/>" ++ y) in *.
  set (blk := js "<title>" ++ ws1 ++ t ++ ws2 ++ js "</title>"
              ++ body ++ js "</revision>").
  assert (Hm : re_title (blk ++ post) = Some (t, post)).
  { unfold blk. repeat rewrite <- app_assoc.
    now apply re_title_block. }
  assert (E : js "<title>" ++ ws1 ++ t ++ ws2 ++ js "</title>" ++ x
              ++ w1 ++ js "<minor" ++ w2 ++ js "/>" ++ y
              ++ js "</revision>" ++ post = blk ++ post).
  { unfold blk, body. now repeat rewrite <- app_assoc. }
  rewrite E, (@replace_titles_match (unminor p) blk t post)
    by (auto; discriminate).
  rewrite unminor_eq.
  destruct (known_non_minor p t).
  - assert (Eb : blk = (js "<title>" ++ ws1 ++ t ++ ws2 ++ js "</title>"
                        ++ x)
                       ++ w1 ++ js "<minor" ++ w2 ++ js "/>"
                       ++ y ++ js "</revision>").
    { unfold blk, body. now repeat rewrite <- app_assoc. }
    rewrite Eb, strip_minor_first; auto.
    + now repeat rewrite <- app_assoc.
    + rewrite 3 app_assoc. apply nonspace_last_head_block, Hx.
    + now repeat rewrite <- app_assoc.
  - unfold blk, body. now repeat rewrite <- app_assoc.
Qed.

Lemma first_marker_of_span_witness :
  patch_export [(js "A", {| oldTitle := None; minor := false |})]
    (js "<page>" ++ js "<title>" ++ js " " ++ js "A" ++ [] ++ js "</title>"
        ++ js "<revision><id>7</id>"
        ++ js " " ++ js "<minor" ++ js " " ++ js "/>" ++ js "<text/>"
        ++ js "</revision>" ++ js "</page>")
  = js "<page>" ++ js "<title>" ++ js " " ++ js "A" ++ [] ++ js "</title>"
       ++ js "<revision><id>7</id>"
       ++ (if known_non_minor
                [(js "A", {| oldTitle := None; minor := false |})] (js "A")
           then [] else js " " ++ js "<minor" ++ js " " ++ js "/>")
       ++ js "<text/>" ++ js "</revision>"
       ++ patch_export [(js "A", {| oldTitle := None; minor := false |})]
            (js "</page>").
Proof.
  apply (@first_marker_of_span
           [(js "A", {| oldTitle := None; minor := false |})]
           (js "<page>") (js " ") (js "A") [] (js "<revision><id>7</id>")
           (js " ") (js " ") (js "<text/>") (js "</page>"));
    vm_compute; reflexivity.
Defined.

(** C4 at a title that the export writes with an entity. The page "A&B"
    is pending with [minor = false], and its current revision is marked
    minor. The export gives its title as [A&amp;B]; the callback looks
    that text up in [pages], where the key is [A&B], finds nothing, and
    the marker stays: the export comes out as it went in. The same page
    under the title "AB" loses its marker. *)
Theorem C4_escaped_title_keeps_marker :
  known_non_minor [(js "A&B", {| oldTitle := None; minor := false |})]
                  (js "A&B") = true
  /\ patch_export [(js "A&B", {| oldTitle := None; minor := false |})]
       (js "<page><title>A&amp;B</title><ns>0</ns><id>3</id><revision><id>7</id><minor/><text>x</text></revision></page>")
     = js "<page><title>A&amp;B</title><ns>0</ns><id>3</id><revision><id>7</id><minor/><text>x</text></revision></page>"
  /\ patch_export [(js "AB", {| oldTitle := None; minor := false |})]
       (js "<page><title>AB</title><ns>0</ns><id>3</id><revision><id>7</id><minor/><text>x</text></revision></page>")
     = js "<page><title>AB</title><ns>0</ns><id>3</id><revision><id>7</id><text>x</text></revision></page>".
Proof. vm_compute. repeat split. Qed.

(** ** Computations of the script *)

Local Open Scope sync_scope.

Lemma bind_inv (A B : Type) (c : M A) (k : A -> M B) w r w' :
  bind c k w = (r, w') ->
  (exists a w1, c w = (Ok a, w1) /\ k a w1 = (r, w'))
  \/ (c w = (Throw (match r with Throw e => e | _ => TypeError end), w')
      /\ exists e, r = Throw e)
  \/ (c w = (Exit, w') /\ r = Exit)
  \/ (c w = (OutOfFuel, w') /\ r = OutOfFuel)
  \/ (c w = (Unmodelled, w') /\ r = Unmodelled).
Proof.
  unfold bind. destruct (c w) as [[a|e| | |] w1]; intros H.
  - left. eauto.
  - injection H as <- <-. right; left. eauto.
  - injection H as <- <-. right; right; left. eauto.
  - injection H as <- <-. right; right; right; left. eauto.
  - injection H as <- <-. right; right; right; right. eauto.
Qed.

Lemma bind_ok_inv (A B : Type) (c : M A) (k : A -> M B) w w' r :
  bind c k w = (r, w') -> (exists b, r = Ok b) \/ r = Exit ->
  (exists a w1, c w = (Ok a, w1) /\ k a w1 = (r, w'))
  \/ (c w = (Exit, w') /\ r = Exit).
Proof.
  intros H Hr. apply bind_inv in H as [H|[[_ [e ->]]|[H|[[_ ->]|[_ ->]]]]].
  - now left.
  - destruct Hr as [[b Hb]|Hb]; discriminate.
  - now right.
  - destruct Hr as [[b Hb]|Hb]; discriminate.
  - destruct Hr as [[b Hb]|Hb]; discriminate.
Qed.

Lemma guarded_nil (A : Type) (r : Outcome A) : guarded r [].
Proof. intros d1 x d2 E. destruct d1; discriminate. Qed.

Lemma guarded_one (A : Type) (r : Outcome A) x :
  (fatal x = true -> exists e, r = Throw e) -> guarded r [x].
Proof.
  intros H d1 y d2 E Hf. destruct d1 as [|z d1].
  - injection E as <- <-. auto.
  - destruct d1; discriminate.
Qed.

Lemma guarded_app (A B : Type) (a : A) (r : Outcome B) d1 d2 :
  guarded (Ok a) d1 -> guarded r d2 -> guarded r (d1 ++ d2).
Proof.
  intros H1 H2 l x l' E Hf.
  apply app_eq_app in E as [m [[E1 E2]|[E1 E2]]].
  - destruct m as [|y m].
    + rewrite app_nil_r in E1. subst l. simpl in E2. subst d2.
      apply (H2 [] x l'); auto.
    + injection E2 as <- E2. subst d1.
      destruct (H1 l x m eq_refl Hf) as [_ [e He]]. discriminate.
  - subst l. apply (H2 m x l'); auto.
Qed.

Lemma guarded_cast (A B : Type) (r : Outcome A) (r' : Outcome B) d :
  (forall e, r = Throw e -> r' = Throw e) -> guarded r d -> guarded r' d.
Proof.
  intros Hr Hg d1 x d2 E Hf.
  destruct (Hg d1 x d2 E Hf) as [H2 [e He]]. eauto.
Qed.

Lemma respects_ret (A : Type) Q K (a : A) : respects Q K (ret a).
Proof.
  intros w r w' [= <- <-].
  split; [reflexivity|]. split; [reflexivity|].
  exists []. rewrite app_nil_r.
  split; [reflexivity|]. split; [reflexivity | apply guarded_nil].
Qed.

Lemma respects_lift (A : Type) Q K (o : Outcome A) : respects Q K (lift o).
Proof.
  intros w r w' [= <- <-].
  split; [reflexivity|]. split; [reflexivity|].
  exists []. rewrite app_nil_r.
  split; [reflexivity|]. split; [reflexivity | apply guarded_nil].
Qed.

Lemma respects_bind (A B : Type) Q K (c : M A) (k : A -> M B) :
  respects Q K c -> (forall a, respects Q K (k a)) ->
  respects Q K (bind c k).
Proof.
  intros Hc Hk w r w' H. unfold bind in H.
  destruct (c w) as [r1 w1] eqn:E1.
  destruct (Hc _ _ _ E1) as (Hf1 & Hm1 & d1 & Ht1 & Hq1 & Hg1).
  assert (Hstop : forall r0 : Outcome B,
             (forall e, r1 = Throw e -> r0 = Throw e) ->
             (r0, w1) = (r, w') ->
             lastsync_file w' = lastsync_file w
             /\ (forall k0, K k0 = false ->
                            map_get k0 (mock w') = map_get k0 (mock w))
             /\ exists d, trace w' = trace w ++ d
                          /\ forallb (fun x => Q (fst x)) d = true
                          /\ guarded r d).
  { intros r0 Hr0 [= <- <-].
    split; [assumption|]. split; [assumption|].
    exists d1. split; [assumption|]. split; [assumption|].
    eapply guarded_cast; eauto. }
  destruct r1 as [a|e| | |];
    [ | apply (Hstop (Throw e)) | apply (Hstop Exit)
      | apply (Hstop OutOfFuel) | apply (Hstop Unmodelled) ];
    try exact H; try (intros ? [=]; congruence).
  destruct (Hk a _ _ _ H) as (Hf2 & Hm2 & d2 & Ht2 & Hq2 & Hg2).
  split; [congruence|]. split.
  - intros k0 Hk0. rewrite Hm2, Hm1; auto.
  - exists (d1 ++ d2). rewrite Ht2, Ht1, app_assoc, forallb_app, Hq1, Hq2.
    split; [reflexivity|]. split; [reflexivity|].
    eapply guarded_app; eauto.
Qed.

(** ** [api] *)

Lemma prop_total k v : (exists x, prop k v = Ok x) \/ prop k v = Throw TypeError.
Proof. destruct v; simpl; eauto. Qed.

Lemma prop_ok_opt k v x : prop k v = Ok x -> x = prop_opt k v.
Proof. destruct v; simpl; intros [= <-]; reflexivity. Qed.

Lemma login_succeeded_total data :
  (exists b, login_succeeded data = Ok b)
  \/ login_succeeded data = Throw TypeError.
Proof.
  unfold login_succeeded.
  destruct (prop_total (js "login") data) as [[l ->]| ->]; simpl; auto.
  destruct (prop_total (js "result") l) as [[x ->]| ->]; simpl; eauto.
Qed.

Lemma screen_errors asr data :
  has_errors data = true -> exists e, screen asr data = Throw e.
Proof.
  unfold has_errors, screen. intros H.
  apply andb_true_iff in H as [Ho Hl]. rewrite Ho.
  destruct data; try discriminate; simpl in *.
  - rewrite Hl. simpl. eauto.
Qed.

(** The assertion [apiLogin] passes to [api] accepts the replies whose
    result is "Success", and no other. *)
Lemma login_ok_spec data :
  login_ok data = match login_succeeded data with
                  | Ok true => true
                  | _ => false
                  end.
Proof.
  unfold login_ok, login_succeeded, prop, prop_opt.
  destruct data as [| | | | | |fields]; try reflexivity. simpl.
  destruct (map_get (js "login") fields) as [[| | | | | |l]|]; try reflexivity.
  simpl.
  destruct (map_get (js "result") l) as [[| | | |r| |]|]; try reflexivity.
  simpl. now destruct (jseqb r (js "Success")).
Qed.

(** What [api] raises on a reply when it has no assertion to check. *)
Lemma api_error_spec reply :
  api_error reply = match reply with
                    | Failure info => [AxiosError info]
                    | Response data =>
                        match screen None data with
                        | Throw e => [e]
                        | _ => []
                        end
                    end.
Proof.
  destruct reply as [data|info]; [|reflexivity].
  unfold api_error, has_errors, screen, prop, prop_opt.
  destruct data as [| | | | |items|fields]; try reflexivity; simpl.
  destruct (map_get (js "errors") fields) as [x|]; simpl;
    [now destruct (length_truthy x) | reflexivity].
Qed.

Lemma screen_login data :
  login_ok data = false -> exists e, screen (Some login_succeeded) data = Throw e.
Proof.
  rewrite login_ok_spec. unfold screen. intros H.
  destruct (if is_object data then _ else _) as [[]|e| | |] eqn:E1; simpl;
    eauto.
  - destruct (login_succeeded_total data) as [[b Hb]|Hb]; rewrite Hb in *;
      simpl; eauto.
    destruct b; [discriminate | eauto].
  - exfalso. destruct (is_object data); [|discriminate].
    destruct (prop_total (js "errors") data) as [[x Hx]|Hx];
      rewrite Hx in E1; simpl in E1; [|discriminate].
    destruct (length_truthy x); discriminate.
  - exfalso. destruct (is_object data); [|discriminate].
    destruct (prop_total (js "errors") data) as [[x Hx]|Hx];
      rewrite Hx in E1; simpl in E1; [|discriminate].
    destruct (length_truthy x); discriminate.
  - exfalso. destruct (is_object data); [|discriminate].
    destruct (prop_total (js "errors") data) as [[x Hx]|Hx];
      rewrite Hx in E1; simpl in E1; [|discriminate].
    destruct (length_truthy x); discriminate.
Qed.

Lemma remember_mock m d w x :
  mock (remember m d (add_exchange w x)) = mock (remember m d w).
Proof.
  unfold remember. destruct m as [key|]; auto. now destruct (truthy key).
Qed.

Lemma remember_frame m d w :
  trace (remember m d w) = trace w
  /\ lastsync_file (remember m d w) = lastsync_file w
  /\ logged (remember m d w) = logged w
  /\ mockfile (remember m d w) = mockfile w.
Proof.
  unfold remember. destruct m as [key|]; auto. now destruct (truthy key).
Qed.

Section ApiFacts.
Variable cfg : Config.
Variable server : list (Request * Reply) -> Request -> Reply.

Lemma api_hit url opt asr w data :
  cached (o_mock opt) (mock w) = Some data ->
  api cfg server url opt asr w = (Ok data, w).
Proof. unfold api. now intros ->. Qed.

(** A call that finds nothing recorded sends one request, and its
    outcome is the screening of the reply. *)
Lemma api_miss url opt asr w r w' :
  cached (o_mock opt) (mock w) = None ->
  api cfg server url opt asr w = (r, w') ->
  trace w' = trace w ++ [(request_of url opt,
                          server (trace w) (request_of url opt))]
  /\ lastsync_file w' = lastsync_file w
  /\ logged w' = logged w
  /\ r = match server (trace w) (request_of url opt) with
         | Failure info => Throw (AxiosError info)
         | Response data => screen asr data
         end
  /\ mock w' = match r with
               | Ok d => mock (remember (o_mock opt) d w)
               | _ => mock w
               end.
Proof.
  unfold api. intros ->.
  destruct (server (trace w) (request_of url opt)) as [data|info].
  - destruct (screen asr data) as [d|e| | |]; simpl;
      destruct (saveMockFlag cfg); intros [= <- <-]; simpl;
      try rewrite remember_mock;
      repeat split; auto;
      try (apply (remember_frame (o_mock opt) d
                    (add_exchange w (request_of url opt, Response data)))).
  - simpl. destruct (saveMockFlag cfg); intros [= <- <-]; simpl; auto.
Qed.

Lemma respects_api Q K url opt asr :
  Q (request_of url opt) = true ->
  (forall key, o_mock opt = Some key -> truthy key = true -> K key = true) ->
  (is_login_request (request_of url opt) = true ->
   asr = Some login_succeeded) ->
  respects Q K (api cfg server url opt asr).
Proof.
  intros HQ HK Hlogin w r w' H.
  destruct (cached (o_mock opt) (mock w)) as [data|] eqn:Hc.
  - rewrite (api_hit url opt asr w Hc) in H. injection H as <- <-.
    split; [reflexivity|]. split; [reflexivity|].
    exists []. rewrite app_nil_r.
    split; [reflexivity|]. split; [reflexivity | apply guarded_nil].
  - destruct (api_miss url opt asr w Hc H) as (Ht & Hf & _ & Hr & Hm).
    split; [assumption|]. split.
    + intros k Hk. rewrite Hm. destruct r; auto.
      unfold remember. destruct (o_mock opt) as [key|] eqn:Ek; auto.
      destruct (truthy key) eqn:Etk; auto. simpl.
      apply map_get_set_other. intros ->.
      rewrite (HK key eq_refl Etk) in Hk. discriminate.
    + eexists. split; [exact Ht|]. simpl. rewrite HQ.
      split; [reflexivity|].
      apply guarded_one. unfold fatal, failed. simpl. intros Hfat.
      apply andb_true_iff in Hfat as [_ Hfat]. rewrite Hr.
      destruct (server (trace w) (request_of url opt)) as [data|info];
        [|eauto].
      apply orb_true_iff in Hfat as [He|Hl].
      * now apply screen_errors.
      * apply andb_true_iff in Hl as [Hl1 Hl2].
        rewrite (Hlogin Hl1). apply screen_login.
        now apply negb_true_iff.
Qed.

End ApiFacts.

(** ** [apiQueryListAll] *)

Lemma same_but_query_refl a : same_but_query a a.
Proof. intros k _. reflexivity. Qed.

Lemma same_but_query_trans a b c :
  same_but_query a b -> same_but_query b c -> same_but_query a c.
Proof. intros H1 H2 k Hk. now rewrite H1, H2. Qed.

Lemma assign_query_same data v d :
  assign_query data v = Ok d -> same_but_query d data.
Proof.
  destruct data; simpl; try discriminate.
  intros [= <-] k Hk. simpl. now rewrite map_get_set_other.
Qed.

Lemma lift_inv (A : Type) (o : Outcome A) w r w' :
  lift o w = (r, w') -> r = o /\ w' = w.
Proof. unfold lift. intros [= <- <-]. auto. Qed.

Lemma write_through_spec opt data w :
  exists w', write_through opt data w = (Ok tt, w')
  /\ trace w' = trace w /\ lastsync_file w' = lastsync_file w
  /\ logged w' = logged w
  /\ mock w' = match cached (o_mock opt) (mock w), o_mock opt with
               | Some _, Some key => map_set key data (mock w)
               | _, _ => mock w
               end.
Proof.
  unfold write_through.
  destruct (cached (o_mock opt) (mock w)), (o_mock opt);
    eexists; repeat split; reflexivity.
Qed.

Lemma bind_lift (A B : Type) (o : Outcome A) (k : A -> M B) w :
  bind (lift o) k w =
  match o with
  | Ok a => k a w
  | Throw e => (Throw e, w)
  | Exit => (Exit, w)
  | OutOfFuel => (OutOfFuel, w)
  | Unmodelled => (Unmodelled, w)
  end.
Proof. unfold bind, lift. destruct o; reflexivity. Qed.

Lemma bind_assoc (A B C : Type) (c : M A) (k : A -> M B) (k' : B -> M C) w :
  bind (bind c k) k' w = bind c (fun a => bind (k a) k') w.
Proof. unfold bind. destruct (c w) as [[a|e| | |] w1]; reflexivity. Qed.

Lemma bind_step (A B : Type) (c : M A) (k : A -> M B) w a w1 :
  c w = (Ok a, w1) -> bind c k w = k a w1.
Proof. unfold bind. now intros ->. Qed.

Lemma quiet_refl key w : quiet key w w.
Proof. repeat split; auto. Qed.

Lemma quiet_trans key w1 w2 w3 :
  quiet key w1 w2 -> quiet key w2 w3 -> quiet key w1 w3.
Proof.
  intros (Ht1 & Hf1 & Hm1) (Ht2 & Hf2 & Hm2).
  split; [congruence|]. split; [congruence|].
  intros k Hk. rewrite Hm2, Hm1; auto.
Qed.

Lemma write_through_recorded opt key owner base w :
  o_mock opt = Some key -> (exists cur, map_get key (mock w) = Some cur) ->
  same_but_query owner base ->
  exists w1, write_through opt owner w = (Ok tt, w1)
             /\ quiet key w w1 /\ recorded key base w1.
Proof.
  intros Hkey [cur Hcur] Hb.
  destruct (write_through_spec opt owner w) as (w1 & E & Ht & Hf & _ & Hm).
  unfold cached in Hm. rewrite Hkey, Hcur in Hm.
  exists w1. split; [exact E|]. split.
  - split; [exact Ht|]. split; [exact Hf|].
    intros k Hk. rewrite Hm. now apply map_get_set_other.
  - exists owner. split; [|exact Hb]. rewrite Hm. apply map_get_set_same.
Qed.

Lemma remember_recorded opt key d base w :
  o_mock opt = Some key -> recorded key base w -> same_but_query d base ->
  quiet key w (remember (o_mock opt) d w)
  /\ recorded key base (remember (o_mock opt) d w).
Proof.
  intros Hkey Hrec Hb.
  destruct (remember_frame (o_mock opt) d w) as (Ht & Hf & _).
  unfold remember in *. rewrite Hkey in *.
  destruct (truthy key); [|split; [apply quiet_refl | exact Hrec]].
  simpl. split.
  - repeat split; auto. intros k Hk. simpl. now apply map_get_set_other.
  - exists d. split; [apply map_get_set_same | exact Hb].
Qed.

Lemma collect_recorded opt key data results query base w r w1 :
  o_mock opt = Some key -> recorded key base w -> same_but_query data base ->
  collect opt data results query w = (r, w1) ->
  quiet key w w1 /\ recorded key base w1.
Proof.
  intros Hkey Hrec Hb. unfold collect. destruct results as [r1|].
  - rewrite bind_lift.
    destruct (merge_page r1 query) as [merged|e| | |];
      try (intros [= <- <-]; split; [apply quiet_refl | exact Hrec]).
    rewrite bind_lift.
    destruct (assign_query data merged) as [owner|e| | |] eqn:Ea;
      try (intros [= <- <-]; split; [apply quiet_refl | exact Hrec]).
    destruct Hrec as (cur & Hcur & Hcb).
    destruct (@write_through_recorded opt key owner base w Hkey)
      as (w2 & E & Hq & Hr); eauto.
    { eapply same_but_query_trans; [eapply assign_query_same|]; eauto. }
    rewrite (@bind_step _ _ _ _ _ _ _ E). intros [= <- <-]. auto.
  - intros [= <- <-]. split; [apply quiet_refl | exact Hrec].
Qed.

Lemma finish_pages_recorded opt key data results base w r w' :
  o_mock opt = Some key -> recorded key base w -> same_but_query data base ->
  finish_pages opt data results w = (r, w') ->
  quiet key w w' /\ recorded key base w'
  /\ (forall d, r = Ok d -> same_but_query d base).
Proof.
  intros Hkey Hrec Hb. unfold finish_pages. rewrite bind_lift.
  destruct (assign_query data _) as [d|e| | |] eqn:Ea;
    try (intros [= <- <-]; split; [apply quiet_refl|];
         split; [exact Hrec | discriminate]).
  assert (Hdb : same_but_query d base).
  { eapply same_but_query_trans; [eapply assign_query_same|]; eauto. }
  destruct Hrec as (cur & Hcur & Hcb).
  destruct (@write_through_recorded opt key d base w Hkey)
    as (w2 & E & Hq & Hr); eauto.
  rewrite (@bind_step _ _ _ _ _ _ _ E). intros [= <- <-].
  destruct (@remember_recorded opt key d base w2 Hkey Hr Hdb) as [Hq2 Hr2].
  split; [eapply quiet_trans; eauto|]. split; [exact Hr2|].
  now intros d' [= <-].
Qed.

Section QueryFacts.
Variable cfg : Config.
Variable server : list (Request * Reply) -> Request -> Reply.

(** Once a reply is recorded under the fetcher's [_mock] key, every page
    the loop asks for is that recording: no request is sent any more, and
    what the fetcher returns has the recording's properties, [query]
    apart. *)
Lemma query_pages_replay url opt key base :
  o_mock opt = Some key ->
  forall fuel continuation results w r w',
  recorded key base w ->
  query_pages cfg server fuel url opt continuation results w = (r, w') ->
  quiet key w w' /\ recorded key base w'
  /\ (forall d, r = Ok d -> same_but_query d base).
Proof.
  intros Hkey. induction fuel as [|fuel IH];
    intros continuation results w r w' Hrec H.
  - apply lift_inv in H as [-> ->].
    split; [apply quiet_refl|]. split; [exact Hrec | discriminate].
  - simpl in H. destruct Hrec as (cur & Hcur & Hcb).
    set (opt1 := with_params opt _) in H.
    assert (Hhit : api cfg server url opt1 None w = (Ok cur, w)).
    { apply api_hit. unfold opt1, cached. simpl. now rewrite Hkey. }
    rewrite (@bind_step _ _ _ _ _ _ _ Hhit), bind_lift in H.
    assert (Hrec : recorded key base w) by (exists cur; auto).
    destruct (prop (js "query") cur) as [query|e| | |] eqn:Eq;
      try (injection H as <- <-; split; [apply quiet_refl|];
           split; [exact Hrec | discriminate]).
    destruct (js_truthy query); simpl in H.
    + destruct (collect opt cur results query w) as [rc w1] eqn:Ec.
      destruct (@collect_recorded opt key cur results query base w rc w1
                  Hkey Hrec Hcb Ec) as [Hq1 Hr1].
      unfold bind at 1 in H. rewrite Ec in H.
      destruct rc as [res|e| | |];
        try (injection H as <- <-; split; [exact Hq1|];
             split; [exact Hr1 | discriminate]).
      destruct (continues cur).
      * destruct (IH _ _ _ _ _ Hr1 H) as (Hq & Hr & Hd).
        split; [eapply quiet_trans; eauto | auto].
      * destruct (@finish_pages_recorded opt key cur (Some res) base w1 r w'
                    Hkey Hr1 Hcb H) as (Hq & Hr & Hd).
        split; [eapply quiet_trans; eauto | auto].
    + apply (@finish_pages_recorded opt key cur results base w r w'
               Hkey Hrec Hcb H).
Qed.

End QueryFacts.


Lemma screen_plain data :
  screen None data = Ok data \/ exists e, screen None data = Throw e.
Proof.
  unfold screen. destruct (is_object data); simpl; auto.
  destruct (prop_total (js "errors") data) as [[x ->]| ->]; simpl; eauto.
  destruct (length_truthy x); simpl; eauto.
Qed.

Lemma screen_clean data :
  has_errors data = false ->
  js_truthy (prop_opt (js "query") data) = true ->
  screen None data = Ok data.
Proof.
  destruct data; try discriminate.
  unfold has_errors, screen. simpl. now intros -> _.
Qed.

Lemma screen_ok asr data d : screen asr data = Ok d -> d = data.
Proof.
  unfold screen.
  destruct (if is_object data then _ else _) as [[]|e| | |]; simpl;
    try discriminate.
  destruct asr as [holds|]; [|now intros [= <-]].
  destruct (holds data) as [b|e| | |]; simpl; try discriminate.
  destruct b; [now intros [= <-] | discriminate].
Qed.

Section FetcherFacts.
Variable cfg : Config.
Variable server : list (Request * Reply) -> Request -> Reply.

(** A fetch under a truthy [_mock] key that finds nothing recorded sends
    exactly one request, whatever the reply says about continuation: the
    reply is recorded by [api], and every later turn of the loop is served
    from the recording. *)
Lemma query_pages_miss url opt key fuel continuation results w r w' :
  o_mock opt = Some key -> truthy key = true ->
  map_get key (mock w) = None ->
  query_pages cfg server (S fuel) url opt continuation results w = (r, w') ->
  trace w' = trace w ++ [(page_request url opt continuation,
                          server (trace w)
                                 (page_request url opt continuation))]
  /\ lastsync_file w' = lastsync_file w
  /\ (forall k, k <> key -> map_get k (mock w') = map_get k (mock w))
  /\ match server (trace w) (page_request url opt continuation) with
     | Failure info => r = Throw (AxiosError info)
     | Response data =>
         match screen None data with
         | Ok _ => forall d, r = Ok d -> same_but_query d data
         | Throw e => r = Throw e
         | _ => True
         end
     end.
Proof.
  intros Hkey Htk Hnone H.
  set (opt1 := with_params opt
                 (spread (spread [(js "action", JStr (js "query"))]
                                 (o_params opt)) continuation)).
  assert (Hc : cached (o_mock opt1) (mock w) = None).
  { unfold opt1, cached. simpl. now rewrite Hkey. }
  destruct (api cfg server url opt1 None w) as [r1 w1] eqn:E1.
  destruct (api_miss cfg server url opt1 None w Hc E1)
    as (Ht & Hf & _ & Hr & Hm).
  change (request_of url opt1) with (page_request url opt continuation)
    in Ht, Hr.
  destruct r1 as [d1|e| | |].
  - (* the reply passed the screening and is recorded now *)
    assert (Hrec : map_get key (mock w1) = Some d1).
    { rewrite Hm. unfold remember, opt1. simpl. rewrite Hkey, Htk. simpl.
      apply map_get_set_same. }
    assert (Hframe : forall k, k <> key ->
                               map_get k (mock w1) = map_get k (mock w)).
    { intros k Hk. rewrite Hm. unfold remember, opt1. simpl.
      rewrite Hkey, Htk. simpl. now apply map_get_set_other. }
    assert (Hagain : query_pages cfg server (S fuel) url opt continuation
                                 results w1 = (r, w')).
    { rewrite <- H. simpl. fold opt1.
      rewrite (@bind_step _ _ _ _ _ _ _ E1).
      assert (Hhit : api cfg server url opt1 None w1 = (Ok d1, w1)).
      { apply api_hit. unfold opt1, cached. simpl. now rewrite Hkey. }
      now rewrite (@bind_step _ _ _ _ _ _ _ Hhit). }
    destruct (@query_pages_replay cfg server url opt key d1 Hkey
                (S fuel) continuation results w1 r w')
      as ((Ht2 & Hf2 & Hm2) & _ & Hd); auto.
    { exists d1. split; [exact Hrec | apply same_but_query_refl]. }
    split; [congruence|]. split; [congruence|]. split.
    + intros k Hk. rewrite Hm2, Hframe; auto.
    + destruct (server (trace w) (page_request url opt continuation))
        as [data|info]; [|discriminate].
      rewrite <- Hr. symmetry in Hr. apply screen_ok in Hr. now subst d1.
  - assert (E : r = Throw e /\ w' = w1).
    { simpl in H. fold opt1 in H. unfold bind at 1 in H.
      rewrite E1 in H. now injection H as <- <-. }
    destruct E as [-> ->]. repeat split; auto.
    + intros k Hk. now rewrite Hm.
    + destruct (server (trace w) (page_request url opt continuation));
        [rewrite <- Hr; reflexivity | exact Hr].
  - assert (E : w' = w1).
    { simpl in H. fold opt1 in H. unfold bind at 1 in H.
      rewrite E1 in H. now injection H as <- <-. }
    subst w'. repeat split; auto.
    + intros k Hk. now rewrite Hm.
    + destruct (server (trace w) (page_request url opt continuation));
        [rewrite <- Hr; exact I | discriminate].
  - assert (E : w' = w1).
    { simpl in H. fold opt1 in H. unfold bind at 1 in H.
      rewrite E1 in H. now injection H as <- <-. }
    subst w'. repeat split; auto.
    + intros k Hk. now rewrite Hm.
    + destruct (server (trace w) (page_request url opt continuation));
        [rewrite <- Hr; exact I | discriminate].
  - assert (E : w' = w1).
    { simpl in H. fold opt1 in H. unfold bind at 1 in H.
      rewrite E1 in H. now injection H as <- <-. }
    subst w'. repeat split; auto.
    + intros k Hk. now rewrite Hm.
    + destruct (server (trace w) (page_request url opt continuation));
        [rewrite <- Hr; exact I | discriminate].
Qed.

Lemma respects_query_pages Q K url opt key fuel continuation results :
  o_mock opt = Some key -> truthy key = true -> K key = true ->
  Q (page_request url opt continuation) = true ->
  is_login_request (page_request url opt continuation) = false ->
  respects Q K (query_pages cfg server fuel url opt continuation results).
Proof.
  intros Hkey Htk HK HQ Hlogin w r w' H.
  destruct fuel as [|fuel].
  { apply (@respects_lift Json Q K OutOfFuel w r w' H). }
  destruct (map_get key (mock w)) as [cur|] eqn:Hcur.
  - destruct (@query_pages_replay cfg server url opt key cur Hkey
                (S fuel) continuation results w r w')
      as ((Ht & Hf & Hm) & _ & _); auto.
    { exists cur. split; [exact Hcur | apply same_but_query_refl]. }
    split; [exact Hf|]. split.
    + intros k Hk. apply Hm. intros ->. congruence.
    + exists []. rewrite app_nil_r.
      split; [exact Ht|]. split; [reflexivity | apply guarded_nil].
  - destruct (@query_pages_miss url opt key fuel continuation results
                w r w' Hkey Htk Hcur H) as (Ht & Hf & Hm & Hr).
    split; [exact Hf|]. split.
    + intros k Hk. apply Hm. intros ->. congruence.
    + eexists. split; [exact Ht|]. simpl. rewrite HQ.
      split; [reflexivity|].
      apply guarded_one. unfold fatal, failed. simpl. rewrite Hlogin.
      intros Hfat. apply andb_true_iff in Hfat as [_ Hfat].
      destruct (server (trace w) (page_request url opt continuation))
        as [data|info]; [|eauto].
      simpl in Hfat. rewrite orb_false_r in Hfat.
      destruct (screen_errors None data Hfat) as [e He].
      rewrite He in Hr. eauto.
Qed.

End FetcherFacts.

(** ** Pagination under a [_mock] key *)

Lemma continues_same a b : same_but_query a b -> continues a = continues b.
Proof.
  intros H. unfold continues. rewrite (H (js "continue")); [reflexivity|].
  discriminate.
Qed.

Lemma merge_page_object r q m : merge_page r q = Ok m -> js_truthy m = true.
Proof.
  destruct r, q; simpl; try discriminate.
  destruct (merge_entries fields fields0); simpl; try discriminate.
  now intros [= <-].
Qed.

Lemma assign_query_query data v d :
  assign_query data v = Ok d -> prop_opt (js "query") d = v.
Proof.
  destruct data; simpl; try discriminate.
  intros [= <-]. simpl. now rewrite map_get_set_same.
Qed.

Section Pagination.
Variable cfg : Config.
Variable server : list (Request * Reply) -> Request -> Reply.

(** A recorded page that has a [query] and announces a continuation is
    its own next page, for ever: the fetcher does not return. *)
Lemma query_pages_never_completes url opt key :
  o_mock opt = Some key ->
  forall fuel continuation results w cur r w',
  map_get key (mock w) = Some cur ->
  js_truthy (prop_opt (js "query") cur) = true -> continues cur = true ->
  query_pages cfg server fuel url opt continuation results w = (r, w') ->
  forall d, r <> Ok d.
Proof.
  intros Hkey. induction fuel as [|fuel IH];
    intros continuation results w cur r w' Hcur Hq Hc H d.
  - apply lift_inv in H as [-> _]. discriminate.
  - simpl in H.
    set (opt1 := with_params opt _) in H.
    assert (Hhit : api cfg server url opt1 None w = (Ok cur, w)).
    { apply api_hit. unfold opt1, cached. simpl. now rewrite Hkey. }
    rewrite (@bind_step _ _ _ _ _ _ _ Hhit), bind_lift in H.
    destruct (prop (js "query") cur) as [query|e| | |] eqn:Eq;
      try (injection H as <- _; discriminate).
    apply prop_ok_opt in Eq. subst query. rewrite Hq, Hc in H. simpl in H.
    unfold collect in H. destruct results as [r1|].
    + rewrite !bind_assoc, bind_lift in H.
      destruct (merge_page r1 (prop_opt (js "query") cur))
        as [merged|e| | |] eqn:Em;
        try (injection H as <- _; discriminate).
      rewrite !bind_assoc, bind_lift in H.
      destruct (assign_query cur merged) as [owner|e| | |] eqn:Ea;
        try (injection H as <- _; discriminate).
      destruct (write_through_spec opt owner w) as (w2 & E & _ & _ & _ & Hm).
      unfold cached in Hm. rewrite Hkey, Hcur in Hm.
      rewrite !bind_assoc, (@bind_step _ _ _ _ _ _ _ E) in H.
      unfold bind at 1 in H. unfold ret at 1 in H.
      eapply (IH _ _ w2 owner); eauto.
      * rewrite Hm. apply map_get_set_same.
      * rewrite (assign_query_query _ _ Ea).
        eapply merge_page_object; eauto.
      * rewrite (continues_same (assign_query_same _ _ Ea)). exact Hc.
    + rewrite bind_step with (a := prop_opt (js "query") cur) (w1 := w) in H
        by reflexivity.
      eapply (IH _ _ w cur); eauto.
Qed.

(** X19: the same from a fresh start: when the first reply to a fetch
    under a truthy [_mock] key has a [query] and announces a continuation,
    the fetch does not return, whatever budget it is given; the second
    page is never requested. *)
Lemma paginated_fetch_never_completes url opt key fuel w data :
  o_mock opt = Some key -> truthy key = true ->
  map_get key (mock w) = None ->
  server (trace w) (page_request url opt []) = Response data ->
  has_errors data = false ->
  js_truthy (prop_opt (js "query") data) = true -> continues data = true ->
  (forall d, fst (apiQueryListAll cfg server fuel url opt w) <> Ok d)
  /\ (fuel <> 0%nat ->
      trace (snd (apiQueryListAll cfg server fuel url opt w))
      = trace w ++ [(page_request url opt [], Response data)]).
Proof.
  intros Hkey Htk Hnone Hsrv Herr Hq Hc.
  unfold apiQueryListAll.
  destruct (query_pages cfg server fuel url opt [] None w) as [r w'] eqn:H.
  simpl fst. simpl snd.
  destruct fuel as [|fuel].
  { apply lift_inv in H as [-> _]. split; [discriminate | congruence]. }
  destruct (@query_pages_miss cfg server url opt key fuel [] None w r w'
              Hkey Htk Hnone H) as (Ht & _ & _ & _).
  rewrite Hsrv in Ht. split; [|intros _; exact Ht].
  (* after the first call the reply is the recording *)
  set (opt1 := with_params opt
                 (spread (spread [(js "action", JStr (js "query"))]
                                 (o_params opt)) [])).
  assert (Hcm : cached (o_mock opt1) (mock w) = None).
  { unfold opt1, cached. simpl. now rewrite Hkey. }
  destruct (api cfg server url opt1 None w) as [r1 w1] eqn:E1.
  destruct (api_miss cfg server url opt1 None w Hcm E1)
    as (_ & _ & _ & Hr & Hm).
  change (request_of url opt1) with (page_request url opt []) in Hr.
  rewrite Hsrv in Hr.
  rewrite (screen_clean data Herr Hq) in Hr. subst r1.
  assert (Hrec : map_get key (mock w1) = Some data).
  { rewrite Hm. unfold remember, opt1. simpl. rewrite Hkey, Htk. simpl.
    apply map_get_set_same. }
  assert (Hagain : query_pages cfg server (S fuel) url opt [] None w1
                   = (r, w')).
  { rewrite <- H. simpl. fold opt1.
    rewrite (@bind_step _ _ _ _ _ _ _ E1).
    assert (Hhit : api cfg server url opt1 None w1 = (Ok data, w1)).
    { apply api_hit. unfold opt1, cached. simpl. now rewrite Hkey. }
    now rewrite (@bind_step _ _ _ _ _ _ _ Hhit). }
  eapply query_pages_never_completes; eauto.
Qed.

End Pagination.

(** C9: when the first page the fetcher obtains is an object without a
    [query] key, the fetcher returns that object with [query] undefined,
    so with no list entries, and sends no request after the one of the
    first page. *)
Theorem C9_first_page_without_query cfg server fuel url opt fields w w1 :
  api cfg server url
      (with_params opt
         (spread (spread [(js "action", JStr (js "query"))] (o_params opt))
                 [])) None w = (Ok (JObj fields), w1) ->
  map_get (js "query") fields = None ->
  exists w2,
    apiQueryListAll cfg server (S fuel) url opt w
    = (Ok (JObj (map_set (js "query") JUndefined fields)), w2)
    /\ trace w2 = trace w1
    /\ (trace w2 = trace w \/ exists x, trace w2 = trace w ++ [x])
    /\ forall list,
         prop_opt list
           (prop_opt (js "query")
              (JObj (map_set (js "query") JUndefined fields))) = JUndefined.
Proof.
  intros Hapi Hq. unfold apiQueryListAll. simpl query_pages.
  rewrite (@bind_step _ _ _ _ _ _ _ Hapi), bind_lift. simpl prop.
  rewrite Hq. simpl.
  unfold finish_pages. rewrite bind_lift. simpl assign_query.
  destruct (write_through_spec opt
              (JObj (map_set (js "query") JUndefined fields)) w1)
    as (w2 & E & Ht & _).
  rewrite (@bind_step _ _ _ _ _ _ _ E).
  eexists. split; [reflexivity|].
  destruct (remember_frame (o_mock opt)
              (JObj (map_set (js "query") JUndefined fields)) w2)
    as (Ht' & _).
  split; [congruence|].
  split; [|intros list; simpl; now rewrite map_get_set_same].
  rewrite Ht', Ht.
  set (opt1 := with_params opt _) in Hapi.
  destruct (cached (o_mock opt1) (mock w)) as [data|] eqn:Hc.
  - rewrite (api_hit cfg server url opt1 None w Hc) in Hapi.
    injection Hapi as _ <-. now left.
  - destruct (api_miss cfg server url opt1 None w Hc Hapi) as (Ht1 & _).
    right. eauto.
Qed.

(** ** Outcomes of the pure parts *)

Lemma obind_no_exit (A B : Type) (o : Outcome A) (k : A -> Outcome B) :
  o <> Exit -> (forall a, k a <> Exit) -> obind o k <> Exit.
Proof. destruct o; simpl; auto; discriminate. Qed.

Lemma prop_no_exit k v : prop k v <> Exit.
Proof. destruct v; discriminate. Qed.

Lemma omap_no_exit (A B : Type) (f : A -> Outcome B) l :
  (forall x, f x <> Exit) -> omap f l <> Exit.
Proof.
  intros Hf. induction l as [|x l IH]; simpl; [discriminate|].
  apply obind_no_exit; auto. intros y.
  apply obind_no_exit; auto. discriminate.
Qed.

Lemma for_of_no_exit v : for_of v <> Exit.
Proof. destruct v; discriminate. Qed.

Lemma string_field_no_exit k v : string_field k v <> Exit.
Proof.
  unfold string_field. apply obind_no_exit; [apply prop_no_exit|].
  intros []; discriminate.
Qed.

Lemma tag_field_no_exit k v : tag_field k v <> Exit.
Proof.
  unfold tag_field. apply obind_no_exit; [apply prop_no_exit|].
  intros []; discriminate.
Qed.

Lemma decode_change_no_exit v : decode_change v <> Exit.
Proof.
  unfold decode_change.
  repeat (apply obind_no_exit;
          [first [apply prop_no_exit | apply tag_field_no_exit
                 | apply string_field_no_exit] | intros ?]).
  match goal with |- (if ?b then _ else _) <> _ => destruct b end;
    [discriminate|].
  match goal with |- (if ?b then _ else _) <> _ => destruct b end;
    [|discriminate].
  repeat (apply obind_no_exit;
          [first [apply prop_no_exit | apply string_field_no_exit]
          | intros ?]).
  discriminate.
Qed.

Lemma decode_file_no_exit v : decode_file v <> Exit.
Proof.
  unfold decode_file.
  repeat (apply obind_no_exit;
          [first [apply prop_no_exit | apply for_of_no_exit] | intros ?]).
  discriminate.
Qed.

Lemma merge_entries_no_exit entries : forall results,
  merge_entries results entries <> Exit.
Proof.
  induction entries as [|entry rest IH]; intros results; simpl;
    [discriminate|].
  apply obind_no_exit; auto.
  unfold merge_entry.
  destruct (map_get (fst entry) results) as [[]|]; try discriminate.
  destruct (snd entry); discriminate.
Qed.

Lemma merge_page_no_exit r q : merge_page r q <> Exit.
Proof.
  destruct r, q; simpl; try discriminate.
  apply obind_no_exit; [apply merge_entries_no_exit | discriminate].
Qed.

Lemma assign_query_no_exit d v : assign_query d v <> Exit.
Proof. destruct d; discriminate. Qed.

Lemma login_succeeded_no_exit d : login_succeeded d <> Exit.
Proof.
  destruct (login_succeeded_total d) as [[b H]|H]; rewrite H; discriminate.
Qed.

Lemma screen_no_exit asr data :
  (forall holds, asr = Some holds -> holds data <> Exit) ->
  screen asr data <> Exit.
Proof.
  intros Hasr. unfold screen. apply obind_no_exit.
  - destruct (is_object data); [|discriminate].
    apply obind_no_exit; [apply prop_no_exit|].
    intros errors. destruct (length_truthy errors); discriminate.
  - intros _. destruct asr as [holds|]; [|discriminate].
    apply obind_no_exit; [now apply Hasr|].
    intros []; discriminate.
Qed.

(** ** Computations that never end the process *)

Lemma no_exit_ret (A : Type) (a : A) : no_exit (ret a).
Proof. intros w r w' [= <- _]. discriminate. Qed.

Lemma no_exit_lift (A : Type) (o : Outcome A) : o <> Exit -> no_exit (lift o).
Proof. intros Ho w r w' [= <- _]. exact Ho. Qed.

Lemma no_exit_bind (A B : Type) (c : M A) (k : A -> M B) :
  no_exit c -> (forall a, no_exit (k a)) -> no_exit (bind c k).
Proof.
  intros Hc Hk w r w' H. unfold bind in H.
  destruct (c w) as [r1 w1] eqn:E1. specialize (Hc _ _ _ E1).
  destruct r1 as [a|e| | |]; try (injection H as <- _; discriminate).
  - eapply Hk; eauto.
  - congruence.
Qed.

Lemma no_exit_write_through opt data : no_exit (write_through opt data).
Proof.
  intros w r w' H.
  destruct (write_through_spec opt data w) as (w2 & E & _).
  rewrite E in H. injection H as <- _. discriminate.
Qed.

Lemma no_exit_catch_log (A : Type) (c : M A) : no_exit c -> no_exit (catch_log c).
Proof.
  intros Hc w r w' H. unfold catch_log in H.
  destruct (c w) as [r1 w1] eqn:E1. specialize (Hc _ _ _ E1).
  destruct r1; try (injection H as <- _; discriminate). congruence.
Qed.

Section NoExit.
Variable cfg : Config.
Variable server : list (Request * Reply) -> Request -> Reply.

Lemma no_exit_api url opt asr :
  (forall holds data, asr = Some holds -> holds data <> Exit) ->
  no_exit (api cfg server url opt asr).
Proof.
  intros Hasr w r w' H.
  destruct (cached (o_mock opt) (mock w)) as [data|] eqn:Hc.
  - rewrite (api_hit cfg server url opt asr w Hc) in H.
    injection H as <- _. discriminate.
  - destruct (api_miss cfg server url opt asr w Hc H) as (_ & _ & _ & Hr & _).
    rewrite Hr. destruct (server _ _) as [data|info]; [|discriminate].
    apply screen_no_exit. intros holds Hh. eapply Hasr; eauto.
Qed.

Lemma no_exit_api_plain url opt : no_exit (api cfg server url opt None).
Proof. apply no_exit_api. discriminate. Qed.

Lemma no_exit_finish_pages opt data results :
  no_exit (finish_pages opt data results).
Proof.
  unfold finish_pages.
  apply no_exit_bind; [apply no_exit_lift, assign_query_no_exit|].
  intros d. apply no_exit_bind; [apply no_exit_write_through|].
  intros _ w r w' [= <- _]. discriminate.
Qed.

Lemma no_exit_collect opt data results query :
  no_exit (collect opt data results query).
Proof.
  unfold collect. destruct results as [r|]; [|apply no_exit_ret].
  apply no_exit_bind; [apply no_exit_lift, merge_page_no_exit|].
  intros merged.
  apply no_exit_bind; [apply no_exit_lift, assign_query_no_exit|].
  intros owner.
  apply no_exit_bind; [apply no_exit_write_through|].
  intros _. apply no_exit_ret.
Qed.

Lemma no_exit_query_pages url opt fuel : forall continuation results,
  no_exit (query_pages cfg server fuel url opt continuation results).
Proof.
  induction fuel as [|fuel IH]; intros continuation results; simpl.
  - apply no_exit_lift. discriminate.
  - apply no_exit_bind; [apply no_exit_api_plain|]. intros data.
    apply no_exit_bind; [apply no_exit_lift, prop_no_exit|]. intros query.
    destruct (negb (js_truthy query)); [apply no_exit_finish_pages|].
    apply no_exit_bind; [apply no_exit_collect|]. intros res.
    destruct (continues data); [apply IH | apply no_exit_finish_pages].
Qed.

Lemma no_exit_apiLogin url username password m :
  no_exit (apiLogin cfg server url username password m).
Proof.
  intros w r w' H. unfold apiLogin in H.
  assert (Hgo : no_exit
            (tokens_data <- api cfg server url (login_token_opt m) None ;;
             query <- lift (prop (js "query") tokens_data) ;;
             tokens <- lift (prop (js "tokens") query) ;;
             logintoken <- lift (prop (js "logintoken") tokens) ;;
             api cfg server url (login_opt m username password logintoken)
                 (Some login_succeeded))).
  { apply no_exit_bind; [apply no_exit_api_plain|]. intros d.
    repeat (apply no_exit_bind;
            [apply no_exit_lift, prop_no_exit | intros ?]).
    apply no_exit_api. intros holds data [= <-].
    apply login_succeeded_no_exit. }
  destruct m; try (eapply Hgo; eauto; fail).
  destruct (map_get (js "login") (mock w)).
  - injection H as <- _. discriminate.
  - eapply Hgo; eauto.
Qed.

End NoExit.

(** ** The steps of the script *)

Ltac side_Q HL := apply (proj1 HL); reflexivity.

Ltac side_K HL :=
  let key := fresh "key" in
  let E := fresh "E" in
  let T := fresh "T" in
  intros key E T; apply (proj2 HL); intros ->;
  first [ discriminate E
        | vm_compute in E; discriminate E
        | vm_compute in T; discriminate T ].

Ltac side_login :=
  let L := fresh "L" in
  intros L; first [ reflexivity | vm_compute in L; discriminate L ].

Lemma lenient_trivial : lenient (fun _ => true) (fun _ => true).
Proof. split; reflexivity. Qed.

Lemma lenient_changes :
  lenient (fun rq => negb (is_changes_request rq))
          (fun k => negb (jseqb k (js "recentchanges"))).
Proof.
  split.
  - intros rq ->. reflexivity.
  - intros k Hk. now rewrite (jseqb_neq Hk).
Qed.

Section StepFacts.
Variable cfg : Config.
Variable server : list (Request * Reply) -> Request -> Reply.
Variables (Q : Request -> bool) (K : jsstring -> bool).
Hypothesis HL : lenient Q K.

Lemma respects_apiLogin url username password m :
  respects Q K (apiLogin cfg server url username password m).
Proof.
  intros w r w' H. unfold apiLogin in H.
  assert (Hgo : respects Q K
            (tokens_data <- api cfg server url (login_token_opt m) None ;;
             query <- lift (prop (js "query") tokens_data) ;;
             tokens <- lift (prop (js "tokens") query) ;;
             logintoken <- lift (prop (js "logintoken") tokens) ;;
             api cfg server url (login_opt m username password logintoken)
                 (Some login_succeeded))).
  { apply respects_bind.
    - apply respects_api; [side_Q HL | | side_login].
      destruct m; side_K HL.
    - intros d.
      repeat (apply respects_bind; [apply respects_lift | intros ?]).
      apply respects_api; [side_Q HL | | side_login].
      destruct m; side_K HL. }
  destruct m; try (eapply Hgo; eauto; fail).
  destruct (map_get (js "login") (mock w)).
  - injection H as <- <-.
    split; [reflexivity|]. split; [reflexivity|].
    exists []. rewrite app_nil_r.
    split; [reflexivity|]. split; [reflexivity | apply guarded_nil].
  - eapply Hgo; eauto.
Qed.

Lemma respects_source_login : respects Q K (source_login cfg server).
Proof.
  unfold source_login.
  destruct (truthy (sourceUsername cfg) && truthy (sourcePassword cfg));
    [|apply respects_ret].
  apply respects_bind; [apply respects_apiLogin|]. intros d.
  repeat (apply respects_bind; [apply respects_lift | intros ?]).
  apply respects_ret.
Qed.

Lemma no_exit_source_login : no_exit (source_login cfg server).
Proof.
  unfold source_login.
  destruct (truthy (sourceUsername cfg) && truthy (sourcePassword cfg));
    [|apply no_exit_ret].
  apply no_exit_bind; [apply no_exit_apiLogin|]. intros d.
  repeat (apply no_exit_bind; [apply no_exit_lift, prop_no_exit | intros ?]).
  apply no_exit_ret.
Qed.

Lemma respects_fetch_excluded fuel : respects Q K (fetch_excluded cfg server fuel).
Proof.
  unfold fetch_excluded, apiQueryListAll.
  apply respects_bind.
  - apply respects_query_pages with (key := js "excludedpages");
      try reflexivity.
    + apply (proj2 HL). discriminate.
    + side_Q HL.
  - intros d.
    repeat (apply respects_bind; [apply respects_lift | intros ?]).
    apply respects_lift.
Qed.

Lemma no_exit_fetch_excluded fuel : no_exit (fetch_excluded cfg server fuel).
Proof.
  unfold fetch_excluded, apiQueryListAll.
  apply no_exit_bind; [apply no_exit_query_pages|]. intros d.
  apply no_exit_bind; [apply no_exit_lift, prop_no_exit|]. intros q.
  apply no_exit_bind; [apply no_exit_lift, prop_no_exit|]. intros cm.
  apply no_exit_bind; [apply no_exit_lift, for_of_no_exit|]. intros l.
  apply no_exit_lift, omap_no_exit. intros x. apply string_field_no_exit.
Qed.

Lemma respects_export_pages p : respects Q K (export_pages cfg server p).
Proof.
  unfold export_pages.
  destruct (Nat.eqb (map_size p) 0); [apply respects_ret|].
  apply respects_bind.
  - apply respects_api; [side_Q HL | side_K HL | side_login].
  - intros d.
    repeat (apply respects_bind; [apply respects_lift | intros ?]).
    match goal with |- respects _ _ (match ?x with _ => _ end) =>
      destruct x end;
      first [apply respects_ret | apply respects_lift].
Qed.

Lemma no_exit_export_pages p : no_exit (export_pages cfg server p).
Proof.
  unfold export_pages.
  destruct (Nat.eqb (map_size p) 0); [apply no_exit_ret|].
  apply no_exit_bind; [apply no_exit_api_plain|]. intros d.
  repeat (apply no_exit_bind; [apply no_exit_lift, prop_no_exit | intros ?]).
  match goal with |- no_exit (match ?x with _ => _ end) => destruct x end;
    first [apply no_exit_ret | apply no_exit_lift; discriminate].
Qed.

Lemma respects_fetch_file_urls ids :
  respects Q K (fetch_file_urls cfg server ids).
Proof.
  unfold fetch_file_urls.
  destruct (Nat.eqb (map_size ids) 0); [apply respects_ret|].
  apply respects_bind.
  - apply respects_api; [side_Q HL | side_K HL | side_login].
  - intros d.
    repeat (apply respects_bind; [apply respects_lift | intros ?]).
    apply respects_ret.
Qed.

Lemma no_exit_fetch_file_urls ids : no_exit (fetch_file_urls cfg server ids).
Proof.
  unfold fetch_file_urls.
  destruct (Nat.eqb (map_size ids) 0); [apply no_exit_ret|].
  apply no_exit_bind; [apply no_exit_api_plain|]. intros d.
  apply no_exit_bind; [apply no_exit_lift, prop_no_exit|]. intros q.
  apply no_exit_bind; [apply no_exit_lift, prop_no_exit|]. intros pg.
  apply no_exit_bind; [apply no_exit_lift, for_of_no_exit|]. intros l.
  apply no_exit_bind; [|intros ?; apply no_exit_ret].
  apply no_exit_lift, omap_no_exit. intros x. apply decode_file_no_exit.
Qed.

Lemma respects_target_login : respects Q K (target_login cfg server).
Proof.
  intros w r w' H. unfold target_login in H. revert H.
  apply respects_bind; [apply respects_apiLogin|]. intros d.
  repeat (apply respects_bind; [apply respects_lift | intros ?]).
  apply respects_ret.
Qed.

Lemma no_exit_target_login : no_exit (target_login cfg server).
Proof.
  intros w r w' H. unfold target_login in H. revert H.
  apply no_exit_bind; [apply no_exit_apiLogin|]. intros d.
  repeat (apply no_exit_bind; [apply no_exit_lift, prop_no_exit | intros ?]).
  apply no_exit_ret.
Qed.

Lemma respects_fetch_csrf : respects Q K (fetch_csrf cfg server).
Proof.
  unfold fetch_csrf.
  apply respects_bind.
  - apply respects_api; [side_Q HL | side_K HL | side_login].
  - intros d.
    repeat (apply respects_bind; [apply respects_lift | intros ?]).
    apply respects_lift.
Qed.

Lemma no_exit_fetch_csrf : no_exit (fetch_csrf cfg server).
Proof.
  unfold fetch_csrf.
  apply no_exit_bind; [apply no_exit_api_plain|]. intros d.
  repeat (apply no_exit_bind; [apply no_exit_lift, prop_no_exit | intros ?]).
  apply no_exit_lift, prop_no_exit.
Qed.

(** A move request whose failure is caught: nothing it returns is fatal. *)
Lemma respects_caught_move from to csrftoken :
  respects Q K (catch_log (api cfg server (targetApiPhp cfg)
                               (move_opt from to csrftoken) None)).
Proof.
  intros w r w' H. unfold catch_log in H.
  set (opt := move_opt from to csrftoken) in *.
  destruct (api cfg server (targetApiPhp cfg) opt None w) as [r1 w1] eqn:E1.
  assert (Hapi : lastsync_file w1 = lastsync_file w
                 /\ mock w1 = mock w
                 /\ exists d, trace w1 = trace w ++ d
                      /\ forallb (fun x => Q (fst x)) d = true
                      /\ forallb (fun x => negb (fatal x)) d = true).
  { destruct (cached (o_mock opt) (mock w)) as [data|] eqn:Hc.
    - rewrite (api_hit cfg server _ opt None w Hc) in E1.
      injection E1 as <- <-. repeat split; auto.
      exists []. rewrite app_nil_r. auto.
    - destruct (api_miss cfg server _ opt None w Hc E1)
        as (Ht & Hf & _ & _ & Hm).
      split; [exact Hf|]. split.
      + rewrite Hm. now destruct r1.
      + eexists. split; [exact Ht|]. simpl.
        rewrite (proj1 HL) by reflexivity. split; reflexivity. }
  destruct Hapi as (Hf & Hm & d & Ht & Hq & Hnf).
  assert (Hg : guarded r d).
  { intros d1 x d2 E Hx. subst d. rewrite forallb_app in Hnf.
    apply andb_true_iff in Hnf as [_ Hnf]. simpl in Hnf.
    rewrite Hx in Hnf. discriminate. }
  destruct r1; injection H as <- <-; simpl;
    (split; [exact Hf|]; split; [intros; now rewrite Hm|];
     exists d; auto).
Qed.

Lemma respects_move_pages mvs csrftoken :
  respects Q K (move_pages cfg server mvs csrftoken).
Proof.
  induction mvs as [|[from to] mvs IH]; simpl; [apply respects_ret|].
  apply respects_bind; [apply respects_caught_move | intros _; exact IH].
Qed.

Lemma no_exit_move_pages mvs csrftoken :
  no_exit (move_pages cfg server mvs csrftoken).
Proof.
  induction mvs as [|[from to] mvs IH]; simpl; [apply no_exit_ret|].
  apply no_exit_bind; [|intros _; exact IH].
  apply no_exit_catch_log, no_exit_api_plain.
Qed.

Lemma respects_import_pages xmlExport csrftoken :
  respects Q K (import_pages cfg server xmlExport csrftoken).
Proof.
  unfold import_pages.
  destruct (truthy xmlExport); [|apply respects_ret].
  apply respects_bind; [|intros ?; apply respects_ret].
  apply respects_api; [side_Q HL | side_K HL | side_login].
Qed.

Lemma no_exit_import_pages xmlExport csrftoken :
  no_exit (import_pages cfg server xmlExport csrftoken).
Proof.
  unfold import_pages.
  destruct (truthy xmlExport); [|apply no_exit_ret].
  apply no_exit_bind; [apply no_exit_api_plain | intros ?; apply no_exit_ret].
Qed.

End StepFacts.

(** ** The end of a run *)

Lemma commits_bind (A B : Type) Q K syncTime (c : M A) (k : A -> M B) :
  respects Q K c -> no_exit c -> (forall a, commits Q syncTime (k a)) ->
  commits Q syncTime (bind c k).
Proof.
  intros Hc Hne Hk w r w' H. unfold bind in H.
  destruct (c w) as [r1 w1] eqn:E1.
  destruct (Hc _ _ _ E1) as (Hf1 & _ & d1 & Ht1 & Hq1 & Hg1).
  specialize (Hne _ _ _ E1).
  destruct r1 as [a|e| | |]; [| | congruence | | ].
  - destruct (Hk a _ _ _ H) as (Hth & Hok & Hex & d2 & Ht2 & Hq2 & Hg2).
    split; [intros He; rewrite (Hth He); exact Hf1|].
    split; [exact Hok|]. split; [exact Hex|].
    exists (d1 ++ d2). rewrite Ht2, Ht1, app_assoc, forallb_app, Hq1, Hq2.
    split; [reflexivity|]. split; [reflexivity|].
    eapply guarded_app; eauto.
  - injection H as <- <-. split; [auto|].
    split; [intros [[a Ha]|Ha]; discriminate|].
    split; [discriminate|].
    exists d1. split; [assumption|]. split; [assumption|].
    eapply guarded_cast; [|exact Hg1]. intros e0 [= ->]. reflexivity.
  - injection H as <- <-. split; [auto|].
    split; [intros [[a Ha]|Ha]; discriminate|].
    split; [discriminate|].
    exists d1. split; [assumption|]. split; [assumption|].
    eapply guarded_cast; [|exact Hg1]. intros e0 [=].
  - injection H as <- <-. split; [auto|].
    split; [intros [[a Ha]|Ha]; discriminate|].
    split; [discriminate|].
    exists d1. split; [assumption|]. split; [assumption|].
    eapply guarded_cast; [|exact Hg1]. intros e0 [=].
Qed.

Lemma commits_aborts (A : Type) Q syncTime (c : M A) :
  commits Q syncTime c -> aborts_cleanly c.
Proof.
  intros Hc w r w' H.
  destruct (Hc _ _ _ H) as (Hth & _ & _ & d & Ht & _ & Hg).
  split; [exact Hth | exists d; auto].
Qed.

Lemma aborts_bind (A B : Type) Q K (c : M A) (k : A -> M B) :
  respects Q K c -> (forall a, aborts_cleanly (k a)) ->
  aborts_cleanly (bind c k).
Proof.
  intros Hc Hk w r w' H. unfold bind in H.
  destruct (c w) as [r1 w1] eqn:E1.
  destruct (Hc _ _ _ E1) as (Hf1 & _ & d1 & Ht1 & _ & Hg1).
  assert (Hstop : forall r0 : Outcome B,
             (forall e, r1 = Throw e -> r0 = Throw e) ->
             (r0, w1) = (r, w') ->
             ((exists e, r = Throw e) -> lastsync_file w' = lastsync_file w)
             /\ exists d, trace w' = trace w ++ d /\ guarded r d).
  { intros r0 Hr0 [= <- <-]. split; [auto|].
    exists d1. split; [assumption|]. eapply guarded_cast; eauto. }
  destruct r1 as [a|e| | |];
    [ | apply (Hstop (Throw e)) | apply (Hstop Exit)
      | apply (Hstop OutOfFuel) | apply (Hstop Unmodelled) ];
    try exact H; try (intros ? [=]; congruence).
  destruct (Hk a _ _ _ H) as (Hth & d2 & Ht2 & Hg2).
  split; [intros He; rewrite (Hth He); exact Hf1|].
  exists (d1 ++ d2). rewrite Ht2, Ht1, app_assoc.
  split; [reflexivity|]. eapply guarded_app; eauto.
Qed.

Lemma writes_only_bind (A B : Type) Q K syncTime (c : M A) (k : A -> M B) :
  respects Q K c -> (forall a, writes_only syncTime (k a)) ->
  writes_only syncTime (bind c k).
Proof.
  intros Hc Hk w r w' H. unfold bind in H.
  destruct (c w) as [r1 w1] eqn:E1.
  destruct (Hc _ _ _ E1) as (Hf1 & _).
  destruct r1 as [a|e| | |]; try (injection H as <- <-; now left).
  destruct (Hk a _ _ _ H) as [Hsame|Hset]; [left; congruence | now right].
Qed.

Section EndFacts.
Variable cfg : Config.
Variable server : list (Request * Reply) -> Request -> Reply.
Variables (Q : Request -> bool) (K : jsstring -> bool).
Hypothesis HL : lenient Q K.

Lemma writes_only_commit syncTime : writes_only syncTime (commit cfg syncTime).
Proof.
  intros w r w' H. unfold commit in H.
  destruct syncTime; injection H as <- <-;
    destruct (saveMockFlag cfg); simpl; eauto.
Qed.

Lemma writes_only_apply_changes p ids syncTime :
  writes_only syncTime (apply_changes cfg server p ids syncTime).
Proof.
  unfold apply_changes.
  apply writes_only_bind with (Q := Q) (K := K);
    [now apply respects_export_pages|]. intros xmlExport.
  apply writes_only_bind with (Q := Q) (K := K);
    [now apply respects_fetch_file_urls|]. intros _.
  apply writes_only_bind with (Q := Q) (K := K);
    [now apply respects_target_login|]. intros _.
  apply writes_only_bind with (Q := Q) (K := K);
    [now apply respects_fetch_csrf|]. intros csrftoken.
  apply writes_only_bind with (Q := Q) (K := K);
    [now apply respects_move_pages|]. intros _.
  apply writes_only_bind with (Q := Q) (K := K);
    [now apply respects_import_pages|]. intros _.
  apply writes_only_commit.
Qed.

Lemma writes_only_after_fetch excludedPages
      (fetched : list ChangeEvent * Json) :
  writes_only (snd fetched)
    (let st := exclude excludedPages (reduce (fst fetched)) in
     let syncTime := snd fetched in
     if Nat.eqb (map_size (pages st)) 0 && Nat.eqb (map_size (fileIds st)) 0
     then write_lastsync syncTime ;;; lift Exit
     else apply_changes cfg server (pages st) (fileIds st) syncTime).
Proof.
  cbv zeta.
  destruct (Nat.eqb _ 0 && Nat.eqb _ 0).
  - intros w r w' H. unfold bind, write_lastsync, lift in H.
    destruct (snd fetched); injection H as <- <-; simpl; eauto.
  - apply writes_only_apply_changes.
Qed.

Lemma commits_commit syncTime : commits Q syncTime (commit cfg syncTime).
Proof.
  intros w r w' H. unfold commit in H.
  assert (E : r = Ok tt
              /\ trace w' = trace w
              /\ forall s, syncTime = JStr s -> lastsync_file w' = Some s).
  { destruct syncTime; injection H as <- <-;
      destruct (saveMockFlag cfg); repeat split; try discriminate.
    all: now intros s0 [= <-]. }
  destruct E as (-> & Ht & Hs).
  split; [intros [e He]; discriminate|].
  split; [intros _; exact Hs|]. split; [discriminate|].
  exists []. rewrite app_nil_r.
  split; [exact Ht|]. split; [reflexivity | apply guarded_nil].
Qed.

(** The "nothing to do" path. *)
Lemma commits_nothing_to_do syncTime :
  commits Q syncTime (write_lastsync syncTime ;;; lift (A:=unit) Exit).
Proof.
  intros w r w' H. unfold bind, write_lastsync, lift in H.
  assert (E : ((exists s, syncTime = JStr s /\ r = Exit
                         /\ lastsync_file w' = Some s)
               \/ (r = Throw TypeError /\ w' = w
                   /\ forall s, syncTime <> JStr s))
              /\ trace w' = trace w).
  { destruct syncTime; injection H as <- <-; split; auto;
      try (right; repeat split; auto; discriminate).
    left. eauto. }
  destruct E as [[(s & -> & -> & Hs)|(-> & -> & Hn)] Ht].
  - split; [intros [e He]; discriminate|].
    split; [intros _ s0 [= <-]; exact Hs|].
    split; [eauto|].
    exists []. rewrite app_nil_r.
    split; [exact Ht|]. split; [reflexivity | apply guarded_nil].
  - split; [reflexivity|].
    split; [intros [[a Ha]|Ha]; discriminate|].
    split; [discriminate|].
    exists []. rewrite app_nil_r.
    split; [reflexivity|]. split; [reflexivity | apply guarded_nil].
Qed.

Lemma commits_apply_changes p ids syncTime :
  commits Q syncTime (apply_changes cfg server p ids syncTime).
Proof.
  unfold apply_changes.
  apply commits_bind with (K := K);
    [now apply respects_export_pages | apply no_exit_export_pages|].
  intros xmlExport.
  apply commits_bind with (K := K);
    [now apply respects_fetch_file_urls | apply no_exit_fetch_file_urls|].
  intros _.
  apply commits_bind with (K := K);
    [now apply respects_target_login | apply no_exit_target_login|].
  intros _.
  apply commits_bind with (K := K);
    [now apply respects_fetch_csrf | apply no_exit_fetch_csrf|].
  intros csrftoken.
  apply commits_bind with (K := K);
    [now apply respects_move_pages | apply no_exit_move_pages|].
  intros _.
  apply commits_bind with (K := K);
    [now apply respects_import_pages | apply no_exit_import_pages|].
  intros _. apply commits_commit.
Qed.

(** What follows the fetch of the change log. *)
Lemma commits_after_fetch excludedPages (fetched : list ChangeEvent * Json) :
  commits Q (snd fetched)
    (let st := exclude excludedPages (reduce (fst fetched)) in
     let syncTime := snd fetched in
     if Nat.eqb (map_size (pages st)) 0 && Nat.eqb (map_size (fileIds st)) 0
     then write_lastsync syncTime ;;; lift Exit
     else apply_changes cfg server (pages st) (fileIds st) syncTime).
Proof.
  cbv zeta.
  destruct (Nat.eqb _ 0 && Nat.eqb _ 0).
  - apply commits_nothing_to_do.
  - apply commits_apply_changes.
Qed.

End EndFacts.

(** ** The run as a whole *)

Section RunFacts.
Variable cfg : Config.
Variable server : list (Request * Reply) -> Request -> Reply.

Lemma respects_read_last_sync Q K : respects Q K (read_last_sync cfg).
Proof.
  intros w r w' H. unfold read_last_sync in H.
  assert (E : w' = w).
  { destruct (truthy (envLastSync cfg)); [now injection H|].
    destruct (lastsync_file w); now injection H. }
  subst w'. split; [reflexivity|]. split; [reflexivity|].
  exists []. rewrite app_nil_r.
  split; [reflexivity|]. split; [reflexivity | apply guarded_nil].
Qed.

Lemma read_last_sync_world w r w' : read_last_sync cfg w = (r, w') -> w' = w.
Proof.
  unfold read_last_sync.
  destruct (truthy (envLastSync cfg)); [now intros [= _ <-]|].
  destruct (lastsync_file w); now intros [= _ <-].
Qed.

Lemma no_exit_read_last_sync : no_exit (read_last_sync cfg).
Proof.
  intros w r w' H. unfold read_last_sync in H.
  destruct (truthy (envLastSync cfg)); [injection H as <- _; discriminate|].
  destruct (lastsync_file w); injection H as <- _; discriminate.
Qed.

Lemma respects_require Q K v message : respects Q K (require v message).
Proof.
  unfold require. destruct (truthy v);
    [apply respects_ret | apply respects_lift].
Qed.

Lemma no_exit_require v message : no_exit (require v message).
Proof.
  unfold require. destruct (truthy v);
    [apply no_exit_ret | apply no_exit_lift; discriminate].
Qed.

Lemma respects_load_mock Q : respects Q (fun _ => true) load_mock.
Proof.
  intros w r w' [= <- <-].
  split; [reflexivity|]. split; [discriminate|].
  exists []. rewrite app_nil_r.
  split; [reflexivity|]. split; [reflexivity | apply guarded_nil].
Qed.

Lemma respects_fetch_changes fuel lastSync :
  respects (fun _ => true) (fun _ => true)
           (fetch_changes cfg server fuel lastSync).
Proof.
  unfold fetch_changes, apiQueryListAll.
  apply respects_bind.
  - apply respects_query_pages with (key := js "recentchanges");
      reflexivity.
  - intros d.
    repeat (apply respects_bind; [apply respects_lift | intros ?]).
    apply respects_ret.
Qed.

Lemma no_exit_fetch_changes fuel lastSync :
  no_exit (fetch_changes cfg server fuel lastSync).
Proof.
  unfold fetch_changes, apiQueryListAll.
  apply no_exit_bind; [apply no_exit_query_pages|]. intros d.
  apply no_exit_bind; [apply no_exit_lift, prop_no_exit|]. intros q.
  apply no_exit_bind; [apply no_exit_lift, prop_no_exit|]. intros ch.
  apply no_exit_bind; [apply no_exit_lift, prop_no_exit|]. intros ts.
  apply no_exit_bind; [apply no_exit_lift, for_of_no_exit|]. intros l.
  apply no_exit_bind; [|intros ?; apply no_exit_ret].
  apply no_exit_lift, omap_no_exit. intros x. apply decode_change_no_exit.
Qed.

(** A run that throws has not written the watermark, and a failed
    exchange other than a move is the last exchange of the run. *)
Lemma main_aborts_cleanly fuel : aborts_cleanly (main cfg server fuel).
Proof.
  pose proof lenient_trivial as HL.
  set (Q := fun _ : Request => true) in *.
  set (K := fun _ : jsstring => true) in *.
  unfold main.
  apply aborts_bind with (Q := Q) (K := K);
    [apply respects_read_last_sync|]. intros lastSync.
  do 5 (apply aborts_bind with (Q := Q) (K := K);
        [apply respects_require | intros _]).
  apply aborts_bind with (Q := Q) (K := K);
    [apply respects_load_mock | intros _].
  apply aborts_bind with (Q := Q) (K := K);
    [now apply respects_source_login | intros _].
  apply aborts_bind with (Q := Q) (K := K);
    [now apply respects_fetch_excluded|].
  intros excludedPages.
  apply aborts_bind with (Q := Q) (K := K);
    [apply respects_fetch_changes|]. intros fetched.
  apply commits_aborts with (Q := Q) (syncTime := snd fetched).
  now apply commits_after_fetch with (K := K).
Qed.

(** The move loop sends one request per pair of the move list, in order,
    whatever the replies are; it logs each failure and never throws. *)
Lemma move_pages_attempts_all mvs csrftoken : forall w,
  map_get [] (mock w) = None ->
  exists w' d,
    move_pages cfg server mvs csrftoken w = (Ok tt, w')
    /\ trace w' = trace w ++ d
    /\ List.map fst d
       = List.map (fun m => request_of (targetApiPhp cfg)
                              (move_opt (fst m) (snd m) csrftoken)) mvs
    /\ logged w' = logged w ++ flat_map (fun x => api_error (snd x)) d
    /\ mock w' = mock w
    /\ lastsync_file w' = lastsync_file w.
Proof.
  induction mvs as [|[from to] mvs IH]; intros w Hw; simpl.
  - exists w, []. now rewrite !app_nil_r.
  - set (opt := move_opt from to csrftoken).
    destruct (api cfg server (targetApiPhp cfg) opt None w) as [r1 w1] eqn:E1.
    assert (Hc : cached (o_mock opt) (mock w) = None) by exact Hw.
    destruct (api_miss cfg server _ opt None w Hc E1)
      as (Ht & Hf & Hl & Hr & Hm).
    set (x := (request_of (targetApiPhp cfg) opt,
               server (trace w) (request_of (targetApiPhp cfg) opt))) in *.
    assert (Hstep : exists w2,
               catch_log (api cfg server (targetApiPhp cfg) opt None) w
               = (Ok tt, w2)
               /\ trace w2 = trace w ++ [x]
               /\ logged w2 = logged w ++ api_error (snd x)
               /\ mock w2 = mock w
               /\ lastsync_file w2 = lastsync_file w).
    { unfold catch_log. rewrite E1, api_error_spec. simpl snd.
      destruct (server (trace w) (request_of (targetApiPhp cfg) opt))
        as [data|info].
      - destruct (screen_plain data) as [Hs|[e Hs]]; rewrite Hs in Hr |- *;
          subst r1; eexists; (split; [reflexivity|]); simpl;
          rewrite ?app_nil_r; repeat split; auto; congruence.
      - subst r1. eexists. split; [reflexivity|]. simpl.
        repeat split; auto; congruence. }
    destruct Hstep as (w2 & E2 & Ht2 & Hl2 & Hm2 & Hf2).
    destruct (IH w2) as (w' & d & E & Ht' & Hd & Hl' & Hm' & Hf');
      [congruence|].
    exists w', (x :: d).
    rewrite (@bind_step _ _ _ _ _ _ _ E2).
    split; [exact E|]. split; [rewrite Ht', Ht2, <- app_assoc; reflexivity|].
    split; [simpl; now rewrite Hd|].
    split; [simpl; rewrite Hl', Hl2, <- app_assoc; reflexivity|].
    split; congruence.
Qed.

End RunFacts.

(** ** The watermark *)

Lemma bind_success (A B : Type) (c : M A) (k : A -> M B) w r w' :
  bind c k w = (r, w') -> (exists b, r = Ok b) \/ r = Exit -> no_exit c ->
  exists a w1, c w = (Ok a, w1) /\ k a w1 = (r, w').
Proof.
  intros H Hr Hne.
  destruct (bind_ok_inv _ _ _ H Hr) as [Hok|[Hex _]]; [exact Hok|].
  now apply Hne in Hex.
Qed.

Section WatermarkFacts.
Variable cfg : Config.
Variable server : list (Request * Reply) -> Request -> Reply.

(** A fetch of the change log that returns has sent one request when
    nothing was recorded, and none when a recording was there; [syncTime]
    is the [curtimestamp] of the reply to that request, or of the
    recording. *)
Lemma fetch_changes_spec fuel lastSync w events syncTime w' :
  fetch_changes cfg server fuel lastSync w = (Ok (events, syncTime), w') ->
  lastsync_file w' = lastsync_file w
  /\ exists data,
       syncTime = prop_opt (js "curtimestamp") data
       /\ ((map_get (js "recentchanges") (mock w) = None
            /\ server (trace w)
                       (page_request (sourceApiPhp cfg)
                                     (changes_opt lastSync) [])
               = Response data
            /\ trace w' = trace w
                 ++ [(page_request (sourceApiPhp cfg)
                                   (changes_opt lastSync) [],
                      Response data)])
           \/ (map_get (js "recentchanges") (mock w) = Some data
               /\ trace w' = trace w)).
Proof.
  intros H. unfold fetch_changes, apiQueryListAll in H.
  assert (Hr : (exists b : list ChangeEvent * Json,
                   Ok (events, syncTime) = Ok b)
               \/ Ok (events, syncTime) = Exit) by eauto.
  apply bind_success in H as (d & w1 & Hq & H);
    [|exact Hr | apply no_exit_query_pages].
  repeat match type of H with
         | bind (lift ?o) _ ?w0 = _ =>
             rewrite bind_lift in H; destruct o eqn:?; try discriminate
         end.
  unfold ret in H. injection H as <- <- <-.
  match goal with
  | E : prop (js "curtimestamp") d = Ok _ |- _ =>
      apply prop_ok_opt in E; rewrite E
  end.
  destruct (map_get (js "recentchanges") (mock w)) as [cur|] eqn:Hcur.
  - destruct (@query_pages_replay cfg server (sourceApiPhp cfg)
                (changes_opt lastSync) (js "recentchanges") cur eq_refl
                fuel [] None w (Ok d) w1)
      as ((Ht & Hf & _) & _ & Hd); auto.
    { exists cur. split; [exact Hcur | apply same_but_query_refl]. }
    split; [exact Hf|]. exists cur. split; [|right; auto].
    apply (Hd d eq_refl). discriminate.
  - destruct fuel as [|fuel]; [discriminate|].
    destruct (@query_pages_miss cfg server (sourceApiPhp cfg)
                (changes_opt lastSync) (js "recentchanges") fuel [] None
                w (Ok d) w1 eq_refl eq_refl Hcur Hq)
      as (Ht & Hf & _ & Hd).
    split; [exact Hf|].
    destruct (server (trace w)
                (page_request (sourceApiPhp cfg) (changes_opt lastSync) []))
      as [data|info] eqn:Hsrv; [|discriminate].
    destruct (screen_plain data) as [Hs|[e Hs]]; rewrite Hs in Hd;
      [|discriminate].
    exists data. split; [|left; auto].
    apply (Hd d eq_refl). discriminate.
Qed.

End WatermarkFacts.

(** C6, as the code has it: in a run that ends normally, by the "nothing
    to do" exit or after the import, the change log came from one reply:
    the server's reply to the one request of the run that asked for the
    change log or, when the mock file held a recording of the change log,
    that recording and no request. When that reply carries a string
    [curtimestamp], that string is what [~lastsync] holds at the end,
    whichever way the run ended. When it carries none, the run did not
    end by the "nothing to do" exit, and [~lastsync] is as it was. *)
Theorem C6_watermark_is_server_clock cfg server fuel w0 r w1 :
  main cfg server fuel w0 = (r, w1) ->
  r = Ok tt \/ r = Exit ->
  watermark_of_change_log server w0 r w1.
Proof.
  intros Hmain Hr.
  assert (Hr' : (exists b : unit, r = Ok b) \/ r = Exit)
    by (destruct Hr; eauto).
  pose proof lenient_changes as HL.
  set (Q := fun rq => negb (is_changes_request rq)) in *.
  set (K := fun k => negb (jseqb k (js "recentchanges"))) in *.
  unfold main in Hmain.
  apply bind_success in Hmain as (lastSync & wa & Ha & Hmain);
    [|exact Hr' | apply no_exit_read_last_sync].
  apply read_last_sync_world in Ha as ->.
  do 5 (apply bind_success in Hmain as ([] & ? & Hq & Hmain);
        [|exact Hr' | apply no_exit_require];
        unfold require in Hq;
        destruct (truthy _); [|discriminate];
        injection Hq as <-).
  apply bind_success in Hmain as ([] & wb & Hb & Hmain);
    [|exact Hr' | intros ? ? ? [= <- _]; discriminate].
  injection Hb as <-.
  apply bind_success in Hmain as ([] & wc & Hc & Hmain);
    [|exact Hr' | apply no_exit_source_login].
  destruct (@respects_source_login cfg server Q K HL _ _ _ Hc)
    as (Hfc & Hmc & dc & Htc & Hqc & _).
  apply bind_success in Hmain as (excludedPages & wd & Hd & Hmain);
    [|exact Hr' | apply no_exit_fetch_excluded].
  destruct (@respects_fetch_excluded cfg server Q K HL fuel _ _ _ Hd)
    as (Hfd & Hmd & dd & Htd & Hqd & _).
  apply bind_success in Hmain as ([events syncTime] & we & He & Hmain);
    [|exact Hr' | apply no_exit_fetch_changes].
  assert (Hrec : map_get (js "recentchanges") (mock wd)
                 = map_get (js "recentchanges")
                     (match mockfile w0 with Some m => m | None => [] end)).
  { rewrite Hmd, Hmc by reflexivity. reflexivity. }
  destruct (@fetch_changes_spec cfg server fuel lastSync wd events syncTime
              we He) as (Hfe & data & Hsync & Hcase).
  pose proof (@writes_only_after_fetch cfg server Q K HL excludedPages
                (events, syncTime) _ _ _ Hmain) as Hw.
  destruct (@commits_after_fetch cfg server Q K HL excludedPages
              (events, syncTime) _ _ _ Hmain)
    as (_ & Hok & Hex & df & Htf & Hqf & _).
  simpl snd in *. rewrite Hrec in Hcase.
  assert (Hframe : lastsync_file we = lastsync_file w0).
  { rewrite Hfe, Hfd, Hfc. reflexivity. }
  exists data. split.
  { rewrite <- Hsync.
    destruct syncTime as [| | | |ts| |];
      try (split;
           [ destruct Hr as [Hr|Hr]; [exact Hr|];
             destruct (Hex Hr) as [s Hs]; discriminate
           | destruct Hw as [Hw|(s & Hs & _)];
             [congruence | discriminate] ]).
    now apply Hok. }
  destruct Hcase as [(Hnone & Hsrv & Hte)|[Hsome Hte]]; [left | right].
  - split; [exact Hnone|].
    exists (dc ++ dd),
           (page_request (sourceApiPhp cfg) (changes_opt lastSync) []), df.
    split.
    { rewrite Htf, Hte, Htd, Htc. simpl trace.
      repeat rewrite <- app_assoc. reflexivity. }
    split.
    { rewrite <- Hsrv, Htd, Htc. simpl trace.
      now rewrite <- app_assoc. }
    split; [reflexivity|].
    change (forallb (fun x => Q (fst x)) ((dc ++ dd) ++ df) = true).
    repeat rewrite forallb_app. now rewrite Hqc, Hqd, Hqf.
  - split; [exact Hsome|].
    exists ((dc ++ dd) ++ df). split.
    { rewrite Htf, Hte, Htd, Htc. simpl trace.
      repeat rewrite <- app_assoc. reflexivity. }
    change (forallb (fun x => Q (fst x)) ((dc ++ dd) ++ df) = true).
    repeat rewrite forallb_app. now rewrite Hqc, Hqd, Hqf.
Qed.

Lemma C6_watermark_is_server_clock_witness :
  watermark_of_change_log demo_wikis demo_world (Ok tt)
    (snd (main demo_config demo_wikis 3 demo_world))
  /\ watermark_of_change_log idle_wikis demo_world Exit
       (snd (main demo_config idle_wikis 3 demo_world))
  /\ watermark_of_change_log clockless_wikis synced_world (Ok tt)
       (snd (main demo_config clockless_wikis 3 synced_world))
  /\ watermark_of_change_log demo_wikis replay_world (Ok tt)
       (snd (main demo_config demo_wikis 3 replay_world)).
Proof.
  repeat split.
  - apply (@C6_watermark_is_server_clock demo_config demo_wikis 3 demo_world
             (Ok tt) (snd (main demo_config demo_wikis 3 demo_world)));
      [vm_compute; reflexivity | left; reflexivity].
  - apply (@C6_watermark_is_server_clock demo_config idle_wikis 3 demo_world
             Exit (snd (main demo_config idle_wikis 3 demo_world)));
      [vm_compute; reflexivity | right; reflexivity].
  - apply (@C6_watermark_is_server_clock demo_config clockless_wikis 3
             synced_world (Ok tt)
             (snd (main demo_config clockless_wikis 3 synced_world)));
      [vm_compute; reflexivity | left; reflexivity].
  - apply (@C6_watermark_is_server_clock demo_config demo_wikis 3
             replay_world (Ok tt)
             (snd (main demo_config demo_wikis 3 replay_world)));
      [vm_compute; reflexivity | left; reflexivity].
Defined.

(** C6, as the spec states it, fails in two ways. A run that starts
    from a mock file with a recording of the change log ends normally
    without asking for the change log, and writes the [curtimestamp] of
    the recording, which is older than the last synchronisation. And a
    run whose change log reply carries no [curtimestamp] ends normally
    after the import with [~lastsync] as it was, because the outcome of
    the last write is not looked at. *)
Lemma C6_counterexample :
  (fst (main demo_config demo_wikis 3 replay_world) = Ok tt
   /\ existsb (fun x => is_changes_request (fst x))
              (trace (snd (main demo_config demo_wikis 3 replay_world)))
      = false
   /\ lastsync_file (snd (main demo_config demo_wikis 3 replay_world))
      = Some (js "2024-01-01T00:00:00Z"))
  /\ (fst (main demo_config clockless_wikis 3 synced_world) = Ok tt
      /\ existsb (fun x => is_import_request (fst x))
                 (trace (snd (main demo_config clockless_wikis 3
                                   synced_world)))
         = true
      /\ lastsync_file (snd (main demo_config clockless_wikis 3
                                  synced_world))
         = lastsync_file synced_world).
Proof. vm_compute. repeat split. Qed.

(** ** The script on the scripted wikis *)

Lemma C9_first_page_without_query_witness :
  exists w2,
    apiQueryListAll demo_config bare_wiki 1
                    (sourceApiPhp demo_config) excluded_opt demo_world
    = (Ok (JObj (map_set (js "query") JUndefined
                         [field "batchcomplete" (JBool true)])), w2)
    /\ trace w2
       = trace (snd (api demo_config bare_wiki (sourceApiPhp demo_config)
                         (with_params excluded_opt
                            (spread (spread [(js "action", JStr (js "query"))]
                                            (o_params excluded_opt)) []))
                         None demo_world))
    /\ (trace w2 = trace demo_world
        \/ exists x, trace w2 = trace demo_world ++ [x])
    /\ forall list,
         prop_opt list
           (prop_opt (js "query")
              (JObj (map_set (js "query") JUndefined
                             [field "batchcomplete" (JBool true)])))
         = JUndefined.
Proof.
  apply (@C9_first_page_without_query demo_config bare_wiki 0
           (sourceApiPhp demo_config) excluded_opt
           [field "batchcomplete" (JBool true)] demo_world);
    reflexivity.
Defined.

(** The callers of the fetcher destructure [query]: on a first page
    without a [query] key the run ends with a [TypeError], after one
    request and without touching the watermark. *)
Example run_without_query_key :
  fst (main demo_config bare_wiki 3 demo_world) = Throw TypeError
  /\ List.length (trace (snd (main demo_config bare_wiki 3 demo_world))) = 1%nat
  /\ lastsync_file (snd (main demo_config bare_wiki 3 demo_world)) = None.
Proof. vm_compute. repeat split. Qed.

(** The example run: one move is tried and rejected, the rejection is
    logged, the import is made, and the watermark is the server's time. *)
Example run_on_demo_wikis :
  fst (main demo_config demo_wikis 3 demo_world) = Ok tt
  /\ List.map (fun x => is_move_request (fst x) || is_import_request (fst x))
              (trace (snd (main demo_config demo_wikis 3 demo_world)))
     = [false; false; false; false; false; false; true; true]
  /\ List.length (logged (snd (main demo_config demo_wikis 3 demo_world)))
     = 1%nat
  /\ lastsync_file (snd (main demo_config demo_wikis 3 demo_world))
     = Some (js "2024-05-01T20:00:00Z").
Proof. vm_compute. repeat split. Qed.

(** A refused login on the target ends the run: nothing is moved or
    imported and the watermark is not written. *)
Example run_with_refused_login :
  fst (main demo_config refusing_wikis 3 demo_world)
  = Throw (APIError (js "API action failed")
                    (obj [field "login" (obj [field "result" (str "Failed")])]))
  /\ existsb (fun x => is_move_request (fst x) || is_import_request (fst x))
             (trace (snd (main demo_config refusing_wikis 3 demo_world)))
     = false
  /\ lastsync_file (snd (main demo_config refusing_wikis 3 demo_world)) = None.
Proof. vm_compute. repeat split. Qed.

(* ===================================================================== *)
(** ** Further properties of the reducer *)
(* ===================================================================== *)

(** A title without an entry stays without one under an event that does
    not revive it. *)
Lemma step_keeps_absent t st e :
  NoDup (map_keys (pages st)) ->
  revives t e = false ->
  map_get t (pages st) = None ->
  map_get t (pages (step st e)) = None.
Proof.
  unfold revives, moves_onto, is_move_event, is_page_event.
  intros Hnd Hr Hn; revert Hr.
  step_cases e st; simpl; intros Hr; auto.
  - destruct (jseqb_spec (rc_title e) t) as [E|Hne]; [discriminate|].
    now map_simpl.
  - destruct (jseqb_spec (rc_title e) t) as [E|Hne]; [discriminate|].
    now map_simpl.
  - destruct (jseqb_spec (rc_title e) t) as [E|Hne].
    + rewrite E. now map_simpl.
    + now map_simpl.
  - destruct (jseqb_spec (target_title (rc_logparams e)) t) as [E'|Hne'];
      [discriminate|].
    destruct (jseqb_spec (rc_title e) t) as [E|Hne].
    + rewrite E. now map_simpl.
    + now map_simpl.
  - destruct (jseqb_spec (target_title (rc_logparams e)) t) as [E'|Hne'];
      [discriminate|].
    destruct (jseqb_spec (rc_title e) t) as [E|Hne]; [discriminate|].
    now map_simpl.
Qed.

Lemma reduce_keeps_absent t evs : forall st,
  NoDup (map_keys (pages st)) ->
  forallb (fun e => negb (revives t e)) evs = true ->
  map_get t (pages st) = None ->
  map_get t (pages (reduce_from st evs)) = None.
Proof.
  induction evs as [|e evs IH]; intros st Hnd Hall Hn; simpl in *; auto.
  apply andb_true_iff in Hall as [He Hall].
  apply negb_true_iff in He. rewrite reduce_from_cons.
  apply IH; auto using step_keys_NoDup, step_keeps_absent.
Qed.

Lemma exclude_keys_incl ex st :
  incl (export_titles (pages (exclude ex st))) (export_titles (pages st)).
Proof.
  unfold export_titles, map_keys, exclude; simpl. intros t.
  rewrite !in_map_iff. intros (en & E & Hin).
  apply filter_In in Hin as [Hin _]. eauto.
Qed.

(** X1: a delete log event cancels what the window has gathered for its
    title: when no later event gives the title an entry again, the title
    has no pending entry at the end and is not sent to the export. *)
Theorem delete_cancels_pending t pre e post ex :
  is_delete_event e = true -> rc_title e = t ->
  forallb (fun e' => negb (revives t e')) post = true ->
  map_get t (pages (reduce (pre ++ e :: post))) = None
  /\ ~ In t (export_titles (pages (todo (pre ++ e :: post) ex))).
Proof.
  intros Hdel Ht Hpost.
  assert (Hn : map_get t (pages (reduce (pre ++ e :: post))) = None).
  { unfold reduce. rewrite reduce_from_app, reduce_from_cons.
    pose proof (reduce_keys_NoDup pre) as Hnd. unfold reduce in Hnd.
    set (st := reduce_from empty_state pre) in *.
    apply reduce_keeps_absent; auto using step_keys_NoDup.
    revert Hdel. unfold is_delete_event, is_page_event.
    step_cases e st; simpl; try discriminate.
    intros _. rewrite Ht. now map_simpl. }
  split; [exact Hn|].
  intros Hin. apply exclude_keys_incl in Hin.
  now apply map_get_None in Hn.
Qed.

Lemma delete_cancels_pending_witness :
  map_get (js "A")
    (pages (reduce ([ev_new (js "A") false; ev_edit (js "A") true]
                    ++ ev_delete (js "A") :: [ev_edit (js "B") false])))
  = None
  /\ ~ In (js "A")
       (export_titles
          (pages (todo ([ev_new (js "A") false; ev_edit (js "A") true]
                        ++ ev_delete (js "A") :: [ev_edit (js "B") false])
                       []))).
Proof.
  apply (@delete_cancels_pending (js "A")
           [ev_new (js "A") false; ev_edit (js "A") true]
           (ev_delete (js "A")) [ev_edit (js "B") false] []);
    reflexivity.
Defined.

(** An entry under events that do not disturb it: the old title stays and
    the minor flag is multiplied by the flags of the new and edit events of
    the title. *)
Lemma reduce_minor_of_entry t evs : forall st i,
  forallb (fun e => negb (disturbs t e)) evs = true ->
  map_get t (pages st) = Some i ->
  map_get t (pages (reduce_from st evs))
  = Some {| oldTitle := oldTitle i;
            minor := minor i && forallb rc_minor (edits_of t evs) |}.
Proof.
  induction evs as [|e evs IH]; intros st i Hall Hi.
  - change (reduce_from st []) with st. rewrite Hi. simpl.
    rewrite andb_true_r. now destruct i.
  - simpl in Hall. apply andb_true_iff in Hall as [He Hall].
    apply negb_true_iff in He. rewrite reduce_from_cons.
    unfold edits_of; simpl filter.
    destruct (is_page_event e && jseqb (rc_title e) t) eqn:Hon.
    + apply andb_true_iff in Hon as [Hpg Ht].
      destruct (jseqb_spec (rc_title e) t) as [E|]; [|discriminate].
      rewrite (IH (step st e)
                  {| oldTitle := oldTitle i; minor := minor i && rc_minor e |}
                  Hall).
      * simpl. now rewrite andb_assoc.
      * rewrite (step_page st e Hpg), E, Hi. now map_simpl.
    + rewrite (IH (step st e) i Hall); [reflexivity|].
      revert He Hon.
      unfold disturbs, moves_onto, is_delete_event, is_move_event,
        is_page_event.
      step_cases e st; simpl; intros He Hon; auto;
        destruct (jseqb_spec (rc_title e) t) as [E|Hne];
        try discriminate; try (now map_simpl).
      * destruct (jseqb_spec (target_title (rc_logparams e)) t)
          as [E'|Hne']; [discriminate|]. now map_simpl.
      * destruct (jseqb_spec (target_title (rc_logparams e)) t)
          as [E'|Hne']; [discriminate|]. now map_simpl.
Qed.

(** X2: for a title that has no entry yet and that no later event deletes,
    moves away or overwrites by a move, the pending entry at the end is
    absent when the title received no new or edit event, and otherwise
    carries no old title and the conjunction of the minor flags of all the
    new and edit events of the title. *)
Theorem minor_is_conjunction t pre evs :
  map_get t (pages (reduce pre)) = None ->
  forallb (fun e => negb (disturbs t e)) evs = true ->
  map_get t (pages (reduce (pre ++ evs)))
  = match edits_of t evs with
    | [] => None
    | l => Some {| oldTitle := None; minor := forallb rc_minor l |}
    end.
Proof.
  unfold reduce. rewrite reduce_from_app.
  generalize (reduce_from empty_state pre) as st.
  induction evs as [|e evs IH]; intros st Hn Hall; [exact Hn|].
  simpl in Hall. apply andb_true_iff in Hall as [He Hall].
  rewrite reduce_from_cons. unfold edits_of; simpl filter.
  destruct (is_page_event e && jseqb (rc_title e) t) eqn:Hon.
  - apply andb_true_iff in Hon as [Hpg Ht].
    destruct (jseqb_spec (rc_title e) t) as [E|]; [|discriminate].
    rewrite (@reduce_minor_of_entry t evs (step st e)
               {| oldTitle := None; minor := rc_minor e |} Hall);
      [reflexivity|].
    rewrite (step_page st e Hpg), E, Hn. now map_simpl.
  - apply IH; [|exact Hall].
    apply negb_true_iff in He. revert He Hon.
    unfold disturbs, moves_onto, is_delete_event, is_move_event,
      is_page_event.
    step_cases e st; simpl; intros He Hon; auto;
      destruct (jseqb_spec (rc_title e) t) as [E|Hne];
      try discriminate; try (now map_simpl).
    + destruct (jseqb_spec (target_title (rc_logparams e)) t)
        as [E'|Hne']; [discriminate|]. now map_simpl.
    + destruct (jseqb_spec (target_title (rc_logparams e)) t)
        as [E'|Hne']; [discriminate|]. now map_simpl.
Qed.

Lemma minor_is_conjunction_witness :
  map_get (js "A")
    (pages (reduce ([ev_edit (js "B") false]
                    ++ [ev_new (js "A") true; ev_edit (js "B") true;
                        ev_edit (js "A") false; ev_edit (js "A") true])))
  = match edits_of (js "A")
            [ev_new (js "A") true; ev_edit (js "B") true;
             ev_edit (js "A") false; ev_edit (js "A") true] with
    | [] => None
    | l => Some {| oldTitle := None; minor := forallb rc_minor l |}
    end.
Proof.
  apply (@minor_is_conjunction (js "A") [ev_edit (js "B") false]
           [ev_new (js "A") true; ev_edit (js "B") true;
            ev_edit (js "A") false; ev_edit (js "A") true]);
    reflexivity.
Defined.

(** X3: what a move leaves under the old title. Without
    [suppressredirect] the old title gets a fresh entry that is not minor
    and has no old title (the redirect is to be synchronised), and it keeps
    such an entry as long as no later event deletes it, moves it away or
    moves a page onto it; with [suppressredirect] the old title has no
    entry as long as no later event gives it one. *)
Theorem move_leaves_redirect a pre e post :
  is_move_event e = true -> rc_title e = a ->
  forallb (fun e' => negb (if suppressredirect (rc_logparams e)
                           then revives a e' else disturbs a e')) post
  = true ->
  map_get a (pages (reduce (pre ++ e :: post)))
  = if suppressredirect (rc_logparams e) then None
    else Some {| oldTitle := None; minor := false |}.
Proof.
  intros Hmv Ha. unfold reduce.
  rewrite reduce_from_app, reduce_from_cons.
  pose proof (reduce_keys_NoDup pre) as Hnd. unfold reduce in Hnd.
  set (st := reduce_from empty_state pre) in *.
  destruct (suppressredirect (rc_logparams e)) eqn:Hsup; intros Hpost.
  - apply reduce_keeps_absent; auto using step_keys_NoDup.
    rewrite (step_move st e Hmv); simpl. rewrite Hsup, Ha.
    apply map_get_delete_same. now apply map_set_keys_NoDup.
  - rewrite (@reduce_minor_of_entry a post (step st e)
               {| oldTitle := None; minor := false |} Hpost);
      [reflexivity|].
    rewrite (step_move st e Hmv); simpl. rewrite Hsup, Ha. now map_simpl.
Qed.

Lemma move_leaves_redirect_witness :
  map_get (js "A")
    (pages (reduce ([ev_edit (js "A") true]
                    ++ ev_move (js "A") (js "B") false
                    :: [ev_edit (js "A") true; ev_edit (js "B") false])))
  = if suppressredirect (rc_logparams (ev_move (js "A") (js "B") false))
    then None
    else Some {| oldTitle := None; minor := false |}.
Proof.
  apply (@move_leaves_redirect (js "A") [ev_edit (js "A") true]
           (ev_move (js "A") (js "B") false)
           [ev_edit (js "A") true; ev_edit (js "B") false]);
    reflexivity.
Defined.

(** X4: the move list of a run is well formed: no two moves have the same
    destination, every destination is one of the titles sent to the
    export, and every source is a non-empty title. *)
Theorem moves_well_formed evs ex :
  NoDup (List.map snd (moves (pages (todo evs ex))))
  /\ forall from to, In (from, to) (moves (pages (todo evs ex))) ->
       from <> [] /\ In to (export_titles (pages (todo evs ex))).
Proof.
  split.
  - rewrite moves_targets. apply filter_keys_NoDup, todo_keys_NoDup.
  - intros from to Hin. apply moves_In in Hin as (i & Hin & _ & Hne & _).
    split; [exact Hne|].
    unfold export_titles, map_keys. apply in_map_iff.
    exists (to, i); auto.
Qed.

Lemma set_has_app (a b : JsSet) k :
  set_has (a ++ b) k = set_has a k || set_has b k.
Proof. unfold set_has. apply existsb_app. Qed.

Lemma excluded_entry_app a b en :
  excluded_entry (a ++ b) en = excluded_entry a en || excluded_entry b en.
Proof.
  unfold excluded_entry, truthy_and. rewrite set_has_app.
  destruct (oldTitle (snd en)) as [o|]; simpl.
  - rewrite set_has_app.
    destruct (set_has a (fst en)), (set_has b (fst en)), (truthy o),
      (set_has a o), (set_has b o); reflexivity.
  - now rewrite !orb_false_r.
Qed.

Lemma filter_filter (A : Type) (f g : A -> bool) (l : list A) :
  filter f (filter g l) = filter (fun x => g x && f x) l.
Proof.
  induction l as [|x l IH]; simpl; auto.
  destruct (g x); simpl; [destruct (f x)|]; now rewrite IH.
Qed.

(** X5: the exclusion filter by parts: filtering with one set and then
    with another is filtering with their union, so filtering twice with
    the same set changes nothing more, and filtering with the empty set
    keeps every entry. *)
Theorem exclude_composes a b st :
  exclude a (exclude b st) = exclude (b ++ a) st
  /\ exclude a (exclude a st) = exclude a st
  /\ exclude [] st = st.
Proof.
  assert (Hc : forall x y s, exclude x (exclude y s) = exclude (y ++ x) s).
  { intros x y s. unfold exclude; simpl. rewrite !filter_filter. f_equal.
    - apply filter_ext. intros en. rewrite excluded_entry_app.
      now rewrite negb_orb.
    - apply filter_ext. intros en. rewrite set_has_app.
      now rewrite negb_orb. }
  split; [apply Hc|]. split.
  - unfold exclude; simpl. rewrite !filter_filter. f_equal;
      apply filter_ext; intros en; apply andb_diag.
  - destruct st as [p f]. unfold exclude; simpl. f_equal.
    + induction p as [|[t i] p IH]; simpl; auto.
      unfold excluded_entry at 1, truthy_and; simpl.
      destruct (oldTitle i) as [o|]; simpl;
        [rewrite andb_false_r|]; simpl; now rewrite IH.
    + induction f as [|[t i] f IH]; simpl; auto. now rewrite IH.
Qed.

(** X6: the objects held by [pages] are never shared: after any sequence
    of events, run on references as the script does, no object is
    reachable under two titles and every reference is live, and the map
    the rest of the script sees is the one the reducer on values
    computes. So [info.minor &&= ...] changes the entry of the edited
    title only. *)
Theorem reducer_objects_unshared evs :
  unshared (fold_left step_shared evs empty_shared)
  /\ view (fold_left step_shared evs empty_shared) = pages (reduce evs).
Proof.
  unfold reduce.
  assert (H : forall s st, unshared s -> view s = pages st ->
              unshared (fold_left step_shared evs s)
              /\ view (fold_left step_shared evs s)
                 = pages (reduce_from st evs)).
  { induction evs as [|e evs IH]; intros s st Hs Hv; [now split|].
    simpl. rewrite reduce_from_cons.
    destruct (@shared_refines s e (fileIds st) Hs) as [Hs' Hv'].
    apply IH; auto.
    rewrite Hv'. f_equal. f_equal. destruct st as [p f]; simpl in *.
    now subst. }
  apply H; [apply unshared_empty | reflexivity].
Qed.

(* ===================================================================== *)
(** ** The previous version of the reducer *)
(* ===================================================================== *)

Lemma keys_set_congr (V W : Type) (m1 : JsMap V) (m2 : JsMap W) k v w :
  map_keys m1 = map_keys m2 ->
  map_keys (map_set k v m1) = map_keys (map_set k w m2).
Proof. intros E. now rewrite !map_keys_set, E. Qed.

Lemma keys_delete_congr (V W : Type) (m1 : JsMap V) (m2 : JsMap W) k :
  map_keys m1 = map_keys m2 ->
  map_keys (map_delete k m1) = map_keys (map_delete k m2).
Proof.
  revert m2; induction m1 as [|[k1 v1] m1 IH]; intros [|[k2 v2] m2] E;
    simpl in *; try discriminate; auto.
  injection E as <- E. destruct (jseqb k k1); simpl; auto.
  f_equal. now apply IH.
Qed.

Lemma keys_get_congr (V W : Type) (m1 : JsMap V) (m2 : JsMap W) k :
  map_keys m1 = map_keys m2 ->
  (map_get k m1 = None <-> map_get k m2 = None).
Proof. intros E. now rewrite !map_get_None, E. Qed.

Lemma keys_set_present (V : Type) (m : JsMap V) k v x :
  map_get k m = Some x -> map_keys (map_set k v m) = map_keys m.
Proof.
  intros H. rewrite map_keys_set.
  destruct (set_has (map_keys m) k) eqn:Hs; [reflexivity|].
  apply set_has_not_In in Hs. apply map_get_None in Hs. congruence.
Qed.

Lemma page_versions_agree old cur e v :
  is_page_event e = true ->
  versions_agree old cur ->
  versions_agree
    {| Previous.titleMapping :=
         Previous.set_if_absent (rc_title e) v (Previous.titleMapping old);
       Previous.fileIds := Previous.fileIds old |}
    (step cur e).
Proof.
  intros Hpg [Hk Hv]. unfold versions_agree, old_of.
  rewrite (step_page cur e Hpg). unfold Previous.set_if_absent. simpl.
  destruct (map_get (rc_title e) (Previous.titleMapping old)) as [o1|]
    eqn:Hget1.
  - destruct (map_get (rc_title e) (pages cur)) as [i|] eqn:Hget.
    2: { apply (keys_get_congr _ _ (rc_title e) Hk) in Hget. congruence. }
    split.
    + rewrite Hk. symmetry. eapply keys_set_present; eassumption.
    + intros t o. destruct (jseqb_spec t (rc_title e)) as [->|Hne].
      * map_simpl. simpl. intros Ho. apply Hv.
        unfold old_of. now rewrite Hget.
      * map_simpl. apply Hv.
  - pose proof (proj1 (keys_get_congr _ _ (rc_title e) Hk) Hget1) as Hget.
    rewrite Hget. split.
    + now apply keys_set_congr.
    + intros t o. destruct (jseqb_spec t (rc_title e)) as [->|Hne].
      * map_simpl. discriminate.
      * map_simpl. apply Hv.
Qed.

Lemma step_versions_agree old cur e :
  NoDup (map_keys (pages cur)) ->
  versions_agree old cur ->
  versions_agree (Previous.step old e) (step cur e).
Proof.
  intros Hnd Ha.
  destruct (jseqb (rc_type e) (js "new")) eqn:Hnew.
  { unfold Previous.step. rewrite Hnew. apply page_versions_agree; auto.
    unfold is_page_event. now rewrite Hnew. }
  destruct (jseqb (rc_type e) (js "edit")) eqn:Hedit.
  { unfold Previous.step. rewrite Hnew, Hedit.
    apply page_versions_agree; auto.
    unfold is_page_event. now rewrite Hnew, Hedit. }
  destruct Ha as [Hk Hv].
  unfold versions_agree, old_of, Previous.step, step.
  rewrite Hnew, Hedit. simpl orb.
  destruct (jseqb (rc_type e) (js "log")) eqn:Hlog; [|now split].
  destruct (jseqb (rc_logtype e) (js "delete")
            && loosely_delete (rc_logaction e)) eqn:Hdel; simpl.
  { split; [now apply keys_delete_congr|].
    intros t o. destruct (jseqb_spec t (rc_title e)) as [->|Hne].
    - now map_simpl.
    - map_simpl. apply Hv. }
  destruct (jseqb (rc_logtype e) (js "move")) eqn:Hmove.
  2: { destruct (jseqb (rc_logtype e) (js "upload")); now split. }
  set (a := rc_title e). set (b := target_title (rc_logparams e)).
  assert (Hb : forall o,
             oldTitle match map_get a (pages cur) with
                      | Some i => i
                      | None => {| oldTitle := Some a; minor := true |}
                      end = Some o ->
             match map_get a (Previous.titleMapping old) with
             | Some o1 => o1
             | None => a
             end = o).
  { intros o. destruct (map_get a (pages cur)) as [i|] eqn:Hget.
    - intros Ho. rewrite (Hv a o); [reflexivity|].
      unfold old_of. now rewrite Hget.
    - apply (keys_get_congr _ _ a Hk) in Hget. rewrite Hget. simpl.
      congruence. }
  destruct (suppressredirect (rc_logparams e)); simpl; split.
  - now apply keys_delete_congr, keys_set_congr.
  - intros t o. destruct (jseqb_spec t a) as [->|Hne].
    + now map_simpl.
    + map_simpl. destruct (jseqb_spec t b) as [->|Hne'].
      * map_simpl. intros Ho. f_equal. now apply Hb.
      * map_simpl. apply Hv.
  - now apply keys_set_congr, keys_set_congr.
  - intros t o. destruct (jseqb_spec t a) as [->|Hne].
    + map_simpl. discriminate.
    + map_simpl. destruct (jseqb_spec t b) as [->|Hne'].
      * map_simpl. intros Ho. f_equal. now apply Hb.
      * map_simpl. apply Hv.
Qed.

Lemma reduce_versions_agree evs :
  versions_agree (Previous.reduce evs) (reduce evs).
Proof.
  unfold Previous.reduce, reduce, reduce_from.
  assert (H : forall old cur, NoDup (map_keys (pages cur)) ->
              versions_agree old cur ->
              versions_agree (fold_left Previous.step evs old)
                             (fold_left step evs cur)).
  { induction evs as [|e evs IH]; intros old cur Hnd Ha; [exact Ha|].
    simpl. apply IH; auto using step_keys_NoDup, step_versions_agree. }
  apply H; [constructor|]. split; [reflexivity|]. discriminate.
Qed.

(** X7: the two versions of the loop over [changes] keep the same pending
    titles: after the same events the keys of [titleMapping] (previous
    version) and of [pages] (current version) are the same, in the same
    order. *)
Theorem versions_same_pending_titles evs :
  map_keys (Previous.titleMapping (Previous.reduce evs))
  = export_titles (pages (reduce evs)).
Proof. apply reduce_versions_agree. Qed.

(** X8: every move the current version derives, with or without
    exclusions, the previous version derived too (there as the pair
    [to, from]). *)
Theorem versions_moves_included evs ex from to :
  In (from, to) (moves (pages (todo evs ex))) ->
  In (to, from)
     (Previous.moves (Previous.titleMapping (Previous.reduce evs))).
Proof.
  intros Hin. apply moves_In in Hin as (i & Hin & Ho & Hne & Hd).
  apply exclude_pages_In in Hin as [Hin _].
  apply (@In_map_get _ _ _ _ (reduce_keys_NoDup evs)) in Hin.
  destruct (reduce_versions_agree evs) as [_ Hv].
  specialize (Hv to from). unfold old_of in Hv. rewrite Hin in Hv.
  specialize (Hv Ho). apply map_get_In in Hv.
  unfold Previous.moves. apply filter_In. split; [exact Hv|]. simpl.
  apply andb_true_iff. split.
  - now apply truthy_nonempty.
  - apply negb_true_iff, jseqb_neq, Hd.
Qed.

Lemma versions_moves_included_witness :
  In (js "C", js "A")
     (Previous.moves
        (Previous.titleMapping
           (Previous.reduce [ev_move (js "A") (js "B") true;
                             ev_edit (js "X") false;
                             ev_move (js "B") (js "C") false]))).
Proof.
  apply (@versions_moves_included
           [ev_move (js "A") (js "B") true; ev_edit (js "X") false;
            ev_move (js "B") (js "C") false] [js "X"] (js "A") (js "C")).
  vm_compute. now left.
Defined.

(** The inclusion is strict: a page edited and then moved is moved on the
    target by the previous version and imported under its new title only
    by the current one. *)
Example edit_then_move_in_both_versions :
  Previous.moves
    (Previous.titleMapping
       (Previous.reduce [ev_edit (js "A") false;
                         ev_move (js "A") (js "B") true]))
  = [(js "B", js "A")]
  /\ moves (pages (reduce [ev_edit (js "A") false;
                           ev_move (js "A") (js "B") true])) = [].
Proof. vm_compute. split; reflexivity. Qed.

Lemma previous_step_fileIds_other t st e :
  (is_upload_event e && jseqb (rc_title e) t) = false ->
  map_get t (Previous.fileIds (Previous.step st e))
  = map_get t (Previous.fileIds st).
Proof.
  unfold is_upload_event, is_page_event, Previous.step.
  destruct (jseqb (rc_type e) (js "new")); [reflexivity|].
  destruct (jseqb (rc_type e) (js "edit")); [reflexivity|].
  destruct (jseqb (rc_type e) (js "log")); [|reflexivity].
  destruct (jseqb (rc_logtype e) (js "delete")
            && loosely_delete (rc_logaction e)); [reflexivity|].
  destruct (jseqb (rc_logtype e) (js "move")).
  { now destruct (suppressredirect (rc_logparams e)). }
  destruct (jseqb (rc_logtype e) (js "upload")); [|reflexivity].
  simpl. destruct (jseqb_spec (rc_title e) t) as [E|Hne]; [discriminate|].
  intros _. now map_simpl.
Qed.

(** X9: the previous version records uploads: after the events, the
    file-upload map holds, for a title that was uploaded, the page id of
    the last upload event of that title. *)
Theorem previous_version_records_uploads t pre e post :
  is_upload_event e = true -> rc_title e = t ->
  forallb (fun e' => negb (is_upload_event e' && jseqb (rc_title e') t)) post
  = true ->
  map_get t (Previous.fileIds (Previous.reduce (pre ++ e :: post)))
  = Some (rc_pageid e).
Proof.
  intros Hup Ht Hpost. unfold Previous.reduce.
  rewrite fold_left_app. simpl fold_left.
  generalize (fold_left Previous.step pre Previous.empty_state) as st.
  intros st.
  assert (H0 : map_get t (Previous.fileIds (Previous.step st e))
               = Some (rc_pageid e)).
  { revert Hup. unfold is_upload_event, is_page_event, Previous.step.
    destruct (jseqb (rc_type e) (js "new")); [discriminate|].
    destruct (jseqb (rc_type e) (js "edit")); [discriminate|].
    destruct (jseqb (rc_type e) (js "log")); [|discriminate].
    destruct (jseqb (rc_logtype e) (js "delete")
              && loosely_delete (rc_logaction e)); [discriminate|].
    destruct (jseqb (rc_logtype e) (js "move")); [discriminate|].
    destruct (jseqb (rc_logtype e) (js "upload")); [|discriminate].
    intros _. simpl. rewrite Ht. now map_simpl. }
  revert H0. generalize (Previous.step st e) as st1.
  induction post as [|e' post IH]; intros st1 H0; [exact H0|].
  simpl in Hpost. apply andb_true_iff in Hpost as [He Hpost].
  apply negb_true_iff in He. simpl. apply IH; auto.
  now rewrite previous_step_fileIds_other.
Qed.

Lemma previous_version_records_uploads_witness :
  map_get (js "File:F.png")
    (Previous.fileIds
       (Previous.reduce ([ev_upload (js "File:F.png") 7]
                         ++ ev_upload (js "File:F.png") 9
                         :: [ev_upload (js "File:G.png") 11])))
  = Some (rc_pageid (ev_upload (js "File:F.png") 9)).
Proof.
  apply (@previous_version_records_uploads (js "File:F.png")
           [ev_upload (js "File:F.png") 7]
           (ev_upload (js "File:F.png") 9)
           [ev_upload (js "File:G.png") 11]);
    reflexivity.
Defined.

(* ===================================================================== *)
(** ** Further properties of the export post-processing *)
(* ===================================================================== *)

Lemma unmarked_refl s : unmarked s s.
Proof. induction s; constructor; auto. Qed.

Lemma unmarked_app a b a' b' :
  unmarked a b -> unmarked a' b' -> unmarked (a ++ a') (b ++ b').
Proof.
  intros H H'. induction H as [|c out xml H IH|w1 w2 out xml H1 H2 H IH].
  - exact H'.
  - simpl. now constructor.
  - repeat rewrite <- app_assoc. now constructor.
Qed.

Lemma unmarked_length a b :
  unmarked a b -> (List.length a <= List.length b)%nat.
Proof.
  induction 1 as [|c out xml H IH|w1 w2 out xml H1 H2 H IH].
  - simpl; lia.
  - simpl; lia.
  - rewrite !length_app. lia.
Qed.

Lemma re_minor_inv str rest :
  re_minor str = Some rest ->
  exists w1 w2, all_space w1 = true /\ all_space w2 = true
                /\ str = w1 ++ js "<minor" ++ w2 ++ js "/>" ++ rest.
Proof.
  unfold re_minor. intros H.
  apply greedy_inv in H as (w1 & s1 & -> & H1 & H).
  apply lit_inv in H as (s2 & -> & H).
  apply greedy_inv in H as (w2 & s3 & -> & H2 & H).
  apply lit_inv in H as (s4 & -> & H).
  injection H as <-. now exists w1, w2.
Qed.

Lemma strip_minor_unmarked str : unmarked (strip_minor str) str.
Proof.
  induction str as [|c str IH]; rewrite strip_minor_eq.
  - destruct (re_minor []) as [rest|] eqn:Hm; [|constructor].
    apply re_minor_inv in Hm as (w1 & w2 & _ & _ & E).
    destruct w1; discriminate.
  - destruct (re_minor (c :: str)) as [rest|] eqn:Hm.
    + apply re_minor_inv in Hm as (w1 & w2 & H1 & H2 & ->).
      constructor; auto using unmarked_refl.
    + now constructor.
Qed.

Lemma replace_titles_unmarked p :
  forall n xml, (List.length xml <= n)%nat ->
  unmarked (replace_titles (unminor p) xml 0) xml.
Proof.
  induction n as [|n IH]; intros xml Hn.
  - destruct xml; [constructor | simpl in Hn; lia].
  - destruct xml as [|c xml]; [constructor|].
    destruct (re_title (c :: xml)) as [[t rest]|] eqn:Hm.
    + destruct (@re_title_suffix _ _ _ Hm) as (blk & E & Hne).
      rewrite E in Hm |- *.
      rewrite (@replace_titles_match (unminor p) _ _ _ Hne Hm).
      apply unmarked_app.
      * rewrite unminor_eq.
        destruct (known_non_minor p t);
          auto using strip_minor_unmarked, unmarked_refl.
      * apply IH. apply (f_equal (@List.length N)) in E.
        rewrite length_app in E. simpl in E, Hn.
        destruct blk; [congruence | simpl in E; lia].
    + rewrite replace_titles_eq, Hm. constructor. apply IH.
      simpl in Hn; lia.
Qed.

(** X10: the post-processing of the export only takes minor markers out:
    the patched XML is the exported XML with some [<minor/>] markers
    removed, each together with the white space in front of it, and with
    everything else in place; in particular it is never longer. *)
Theorem patch_export_only_removes_markers p xml :
  unmarked (patch_export p xml) xml
  /\ (List.length (patch_export p xml) <= List.length xml)%nat.
Proof.
  assert (H : unmarked (patch_export p xml) xml)
    by (apply replace_titles_unmarked with (n := List.length xml); lia).
  split; [exact H | now apply unmarked_length].
Qed.

Lemma starts_in_occurs pat a b :
  pat <> [] -> starts_in pat (a ++ pat ++ b) [] = true.
Proof.
  intros Hp. induction a as [|x a IH]; simpl.
  - destruct pat as [|c pat]; [congruence|]. simpl.
    rewrite N.eqb_refl. simpl. rewrite <- app_assoc.
    now rewrite starts_with_app.
  - rewrite IH. apply orb_true_r.
Qed.

Lemma unmarked_no_marker out xml :
  unmarked out xml -> starts_in (js "<minor") xml [] = false -> out = xml.
Proof.
  induction 1 as [|c out xml H IH|w1 w2 out xml H1 H2 H IH]; intros Hno.
  - reflexivity.
  - simpl in Hno. apply orb_false_iff in Hno as [_ Hno]. f_equal. auto.
  - rewrite starts_in_occurs in Hno; discriminate.
Qed.

(** X11: the post-processing leaves the export as it is, unit for unit,
    when no pending entry says [minor = false], and also when the export
    holds no [<minor] at all. *)
Theorem patch_export_identity p xml :
  (forall t, known_non_minor p t = false)
  \/ starts_in (js "<minor") xml [] = false ->
  patch_export p xml = xml.
Proof.
  intros [H|H].
  - now apply patch_export_all_minor.
  - apply unmarked_no_marker; [|exact H].
    apply replace_titles_unmarked with (n := List.length xml). lia.
Qed.

Lemma patch_export_identity_witness :
  patch_export [(js "A", {| oldTitle := None; minor := false |})]
    (js "<page><title>A</title><revision><id>7</id></revision></page>")
  = js "<page><title>A</title><revision><id>7</id></revision></page>".
Proof.
  apply (@patch_export_identity
           [(js "A", {| oldTitle := None; minor := false |})]
           (js "<page><title>A</title><revision><id>7</id></revision></page>")).
  right. vm_compute. reflexivity.
Defined.

(* ===================================================================== *)
(** ** Further properties of [api] and [apiLogin] *)
(* ===================================================================== *)

Lemma map_set_same_value (V : Type) k (v : V) m :
  map_get k m = Some v -> map_set k v m = m.
Proof.
  induction m as [|[k' v'] m IH]; simpl; [discriminate|].
  destruct (jseqb k k'); [now intros [= ->] | intros H; now rewrite IH].
Qed.

Lemma set_mock_same w : set_mock w (mock w) = w.
Proof. now destruct w. Qed.

Section ApiMore.
Variable cfg : Config.
Variable server : list (Request * Reply) -> Request -> Reply.

(** X12: a call of [api] under a non-empty [_mock] key that finds nothing
    recorded records the reply it returns, and from then on every call
    under that key, whatever its URL, parameters and assertion, returns
    that reply and changes nothing (no request is sent); a call that fails
    records nothing. *)
Theorem api_record_then_replay url opt asr key w r w1 :
  o_mock opt = Some key -> truthy key = true ->
  map_get key (mock w) = None ->
  api cfg server url opt asr w = (r, w1) ->
  match r with
  | Ok d => forall url' opt' asr', o_mock opt' = Some key ->
              api cfg server url' opt' asr' w1 = (Ok d, w1)
  | _ => mock w1 = mock w
  end.
Proof.
  intros Hkey Htk Hnone H.
  assert (Hc : cached (o_mock opt) (mock w) = None)
    by (unfold cached; now rewrite Hkey).
  destruct (api_miss cfg server url opt asr w Hc H) as (_ & _ & _ & _ & Hm).
  destruct r as [d|e| | |]; auto.
  intros url' opt' asr' Hkey'. apply api_hit.
  unfold cached. rewrite Hkey', Hm. unfold remember.
  rewrite Hkey, Htk. simpl. apply map_get_set_same.
Qed.

(** X13: the [finally] of [api]: when a request was sent, the mock file
    holds the [mock] object afterwards if [SAVE_MOCK] is set, whether the
    call returned or threw, and is left alone otherwise. *)
Theorem api_saves_mock_file url opt asr w r w1 :
  cached (o_mock opt) (mock w) = None ->
  api cfg server url opt asr w = (r, w1) ->
  mockfile w1 = if saveMockFlag cfg then Some (mock w1) else mockfile w.
Proof.
  unfold api. intros ->.
  destruct (server (trace w) (request_of url opt)) as [data|info].
  - destruct (screen asr data) as [d|e| | |]; simpl;
      destruct (saveMockFlag cfg); intros [= <- <-]; simpl; auto.
    apply (remember_frame (o_mock opt) d
             (add_exchange w (request_of url opt, Response data))).
  - simpl. destruct (saveMockFlag cfg); intros [= <- <-]; simpl; auto.
Qed.

(** X14: the dry run: when [mock] has an entry under the empty key, the
    calls marked as data-modifying are dropped: the move loop and the
    import return normally without sending a request, logging an error
    or changing anything. *)
Theorem dry_run_drops_writes mvs csrftoken xmlExport w v :
  map_get [] (mock w) = Some v ->
  move_pages cfg server mvs csrftoken w = (Ok tt, w)
  /\ import_pages cfg server xmlExport csrftoken w = (Ok tt, w).
Proof.
  intros Hv. split.
  - induction mvs as [|[from to] mvs IH]; [reflexivity|].
    simpl. unfold bind, catch_log.
    rewrite (api_hit cfg server (targetApiPhp cfg)
               (move_opt from to csrftoken) None w (data := v)); auto.
  - unfold import_pages. destruct (truthy xmlExport); [|reflexivity].
    unfold bind.
    rewrite (api_hit cfg server (targetApiPhp cfg)
               (import_opt xmlExport csrftoken) None w (data := v)); auto.
Qed.

End ApiMore.

Lemma api_record_then_replay_witness :
  match fst (api demo_config demo_wikis (sourceApiPhp demo_config)
                 (export_opt [js "A"]) None demo_world) with
  | Ok d =>
      forall url' opt' asr', o_mock opt' = Some (js "export") ->
        api demo_config demo_wikis url' opt' asr'
            (snd (api demo_config demo_wikis (sourceApiPhp demo_config)
                      (export_opt [js "A"]) None demo_world))
        = (Ok d, snd (api demo_config demo_wikis (sourceApiPhp demo_config)
                          (export_opt [js "A"]) None demo_world))
  | _ => mock (snd (api demo_config demo_wikis (sourceApiPhp demo_config)
                        (export_opt [js "A"]) None demo_world))
         = mock demo_world
  end.
Proof.
  apply (@api_record_then_replay demo_config demo_wikis
           (sourceApiPhp demo_config) (export_opt [js "A"]) None
           (js "export") demo_world);
    reflexivity.
Defined.

Lemma api_saves_mock_file_witness :
  mockfile (snd (api file_config demo_wikis (targetApiPhp file_config)
                     (move_opt (js "P") (js "Q") (str "ct")) None
                     demo_world))
  = if saveMockFlag file_config
    then Some (mock (snd (api file_config demo_wikis
                              (targetApiPhp file_config)
                              (move_opt (js "P") (js "Q") (str "ct")) None
                              demo_world)))
    else mockfile demo_world.
Proof.
  apply (@api_saves_mock_file file_config demo_wikis
           (targetApiPhp file_config)
           (move_opt (js "P") (js "Q") (str "ct")) None demo_world
           (fst (api file_config demo_wikis (targetApiPhp file_config)
                     (move_opt (js "P") (js "Q") (str "ct")) None
                     demo_world))).
  - reflexivity.
  - apply surjective_pairing.
Defined.

Lemma dry_run_drops_writes_witness :
  move_pages demo_config demo_wikis [(js "P", js "Q"); (js "R", js "S")]
             (str "ct") dry_world = (Ok tt, dry_world)
  /\ import_pages demo_config demo_wikis (js "<page/>") (str "ct") dry_world
     = (Ok tt, dry_world).
Proof.
  apply (@dry_run_drops_writes demo_config demo_wikis
           [(js "P", js "Q"); (js "R", js "S")] (str "ct") (js "<page/>")
           dry_world (obj [])).
  reflexivity.
Defined.

Lemma screen_login_ok data d :
  screen (Some login_succeeded) data = Ok d <->
  has_errors data = false /\ login_ok data = true /\ d = data.
Proof.
  rewrite login_ok_spec. unfold has_errors. split.
  - intros H. pose proof (screen_ok _ _ H) as ->.
    destruct (has_errors data) eqn:He.
    + destruct (screen_errors (Some login_succeeded) data He) as [e E].
      congruence.
    + destruct (login_succeeded data) as [[|]| | | |] eqn:Hl.
      * now repeat split.
      * destruct (@screen_login data) as [e E];
          [rewrite login_ok_spec; now rewrite Hl | congruence].
      * destruct (@screen_login data) as [e' E];
          [rewrite login_ok_spec; now rewrite Hl | congruence].
      * destruct (@screen_login data) as [e' E];
          [rewrite login_ok_spec; now rewrite Hl | congruence].
      * destruct (@screen_login data) as [e' E];
          [rewrite login_ok_spec; now rewrite Hl | congruence].
      * destruct (@screen_login data) as [e' E];
          [rewrite login_ok_spec; now rewrite Hl | congruence].
  - intros (He & Hl & ->). unfold screen.
    destruct (login_succeeded data) as [[|]| | | |] eqn:E; try discriminate.
    destruct data; try discriminate; simpl in *.
    now rewrite He.
Qed.

Lemma screen_not_null data x :
  has_errors data = false -> prop (js "query") data = Ok x ->
  screen None data = Ok data.
Proof.
  unfold has_errors, screen.
  destruct data; simpl; try discriminate; try reflexivity.
  now intros ->.
Qed.

Section LoginFacts.
Variable cfg : Config.
Variable server : list (Request * Reply) -> Request -> Reply.

(** X15: a login without recordings is two requests to the same URL: the
    [GET] for a login token and then the [POST] of [action=login], whose
    form carries the user name, the password and the token of the first
    reply. The call returns the second reply exactly when that reply has
    no errors and its [login.result] is "Success"; [mock] and the
    watermark are left alone. *)
Theorem apiLogin_two_requests url username password w d1 q t logintoken :
  server (trace w) (request_of url (login_token_opt MockFalse))
  = Response d1 ->
  has_errors d1 = false ->
  prop (js "query") d1 = Ok q -> prop (js "tokens") q = Ok t ->
  prop (js "logintoken") t = Ok logintoken ->
  let rq1 := request_of url (login_token_opt MockFalse) in
  let rq2 := request_of url
               (login_opt MockFalse username password logintoken) in
  let reply2 := server (trace w ++ [(rq1, Response d1)]) rq2 in
  exists r w',
    apiLogin cfg server url username password MockFalse w = (r, w')
    /\ trace w' = trace w ++ [(rq1, Response d1); (rq2, reply2)]
    /\ mock w' = mock w
    /\ lastsync_file w' = lastsync_file w
    /\ forall d2, r = Ok d2 <->
                  reply2 = Response d2 /\ has_errors d2 = false
                  /\ login_ok d2 = true.
Proof.
  intros Hs Herr Hq Ht Hl rq1 rq2 reply2.
  unfold apiLogin. simpl.
  destruct (api cfg server url (login_token_opt MockFalse) None w)
    as [r1 w1] eqn:E1.
  destruct (api_miss cfg server url (login_token_opt MockFalse) None w
              eq_refl E1) as (Ht1 & Hf1 & _ & Hr1 & Hm1).
  fold rq1 in Ht1, Hr1, Hs. rewrite Hs in Ht1, Hr1.
  rewrite (screen_not_null d1 Herr Hq) in Hr1. subst r1.
  rewrite (@bind_step _ _ _ _ _ _ _ E1), bind_lift, Hq, bind_lift, Ht,
    bind_lift, Hl.
  destruct (api cfg server url
                (login_opt MockFalse username password logintoken)
                (Some login_succeeded) w1) as [r w'] eqn:E2.
  destruct (api_miss cfg server url
              (login_opt MockFalse username password logintoken)
              (Some login_succeeded) w1 eq_refl E2)
    as (Ht2 & Hf2 & _ & Hr2 & Hm2).
  fold rq2 in Ht2, Hr2. rewrite Ht1 in Ht2, Hr2. fold reply2 in Ht2, Hr2.
  exists r, w'. split; [reflexivity|]. split.
  { rewrite Ht2, <- app_assoc. reflexivity. }
  split.
  { rewrite Hm2. destruct r; simpl; exact Hm1. }
  split; [congruence|].
  intros d2. rewrite Hr2. destruct reply2 as [data|info].
  - rewrite screen_login_ok. split.
    + intros (He & Hlo & ->). auto.
    + intros ([= ->] & He & Hlo). auto.
  - split; [discriminate | intros ([=] & _)].
Qed.

(** X16: the login on the target in a dry run. When [mock] has an entry
    under the empty key, the target login runs under the keys
    ["logintoken"] and ["login"], which are the keys of the source login
    under [MOCK_LOGIN]: with recordings under these keys it sends no
    request and changes nothing, and the recorded login reply is accepted
    as it is, whatever its [login.result]. *)
Theorem target_login_replays_recording w v tokens_data login_data
        q t logintoken login lgusername :
  map_get [] (mock w) = Some v ->
  map_get (js "logintoken") (mock w) = Some tokens_data ->
  map_get (js "login") (mock w) = Some login_data ->
  prop (js "query") tokens_data = Ok q -> prop (js "tokens") q = Ok t ->
  prop (js "logintoken") t = Ok logintoken ->
  prop (js "login") login_data = Ok login ->
  prop (js "lgusername") login = Ok lgusername ->
  target_login cfg server w = (Ok tt, w).
Proof.
  intros Hv Htok Hlog Hq Ht Hl Hlogin Hname.
  unfold target_login. rewrite Hv. unfold apiLogin. cbv beta iota.
  rewrite bind_assoc.
  rewrite (@bind_step _ _ _ _ _ _ _
             (api_hit cfg server (targetApiPhp cfg)
                      (login_token_opt MockTrue) None w Htok)).
  rewrite !bind_assoc, bind_lift, Hq.
  rewrite !bind_assoc, bind_lift, Ht.
  rewrite !bind_assoc, bind_lift, Hl.
  rewrite (@bind_step _ _ _ _ _ _ _
             (api_hit cfg server (targetApiPhp cfg)
                      (login_opt MockTrue (targetUsername cfg)
                                 (targetPassword cfg) logintoken)
                      (Some login_succeeded) w Hlog)).
  rewrite bind_lift, Hlogin, bind_lift, Hname. reflexivity.
Qed.

End LoginFacts.

Lemma apiLogin_two_requests_witness :
  let rq1 := request_of (targetApiPhp demo_config)
               (login_token_opt MockFalse) in
  let rq2 := request_of (targetApiPhp demo_config)
               (login_opt MockFalse (js "SyncBot") (js "secret")
                          (str "lt")) in
  let reply2 :=
    demo_wikis
      (trace demo_world
       ++ [(rq1,
            Response
              (obj [field "query"
                      (obj [field "tokens"
                              (obj [field "logintoken" (str "lt")])])]))])
      rq2 in
  exists r w',
    apiLogin demo_config demo_wikis (targetApiPhp demo_config)
             (js "SyncBot") (js "secret") MockFalse demo_world = (r, w')
    /\ trace w'
       = trace demo_world
         ++ [(rq1,
              Response
                (obj [field "query"
                        (obj [field "tokens"
                                (obj [field "logintoken" (str "lt")])])]));
             (rq2, reply2)]
    /\ mock w' = mock demo_world
    /\ lastsync_file w' = lastsync_file demo_world
    /\ forall d2, r = Ok d2 <->
                  reply2 = Response d2 /\ has_errors d2 = false
                  /\ login_ok d2 = true.
Proof.
  apply (@apiLogin_two_requests demo_config demo_wikis
           (targetApiPhp demo_config) (js "SyncBot") (js "secret")
           demo_world
           (obj [field "query"
                   (obj [field "tokens"
                           (obj [field "logintoken" (str "lt")])])])
           (obj [field "tokens" (obj [field "logintoken" (str "lt")])])
           (obj [field "logintoken" (str "lt")])
           (str "lt"));
    reflexivity.
Defined.

Lemma target_login_replays_recording_witness :
  target_login demo_config demo_wikis dry_world = (Ok tt, dry_world).
Proof.
  apply (@target_login_replays_recording demo_config demo_wikis dry_world
           (obj [])
           (obj [field "query"
                   (obj [field "tokens"
                           (obj [field "logintoken" (str "lt")])])])
           (obj [field "login"
                   (obj [field "result" (str "Failed");
                         field "lgusername" (str "SourceBot")])])
           (obj [field "tokens" (obj [field "logintoken" (str "lt")])])
           (obj [field "logintoken" (str "lt")])
           (str "lt")
           (obj [field "result" (str "Failed");
                 field "lgusername" (str "SourceBot")])
           (str "SourceBot"));
    reflexivity.
Defined.

(* ===================================================================== *)
(** ** Further properties of [apiQueryListAll] *)
(* ===================================================================== *)

Arguments merge_page : simpl never.

Lemma bind_ret (A B : Type) (a : A) (k : A -> M B) w :
  bind (ret a) k w = k a w.
Proof. reflexivity. Qed.

Lemma truthy_query_field data :
  js_truthy (prop_opt (js "query") data) = true ->
  exists fields q,
    data = JObj fields /\ map_get (js "query") fields = Some q
    /\ js_truthy q = true.
Proof.
  destruct data; simpl; try discriminate.
  destruct (map_get (js "query") fields) as [q|] eqn:E; [|discriminate].
  intros Hq. now exists fields, q.
Qed.

Section FetchMore.
Variable cfg : Config.
Variable server : list (Request * Reply) -> Request -> Reply.

(** A fetch under a key whose recording is a single page returns the
    recording and changes nothing. *)
Lemma query_pages_replays_single url opt key fuel continuation w data :
  o_mock opt = Some key -> truthy key = true ->
  map_get key (mock w) = Some data ->
  js_truthy (prop_opt (js "query") data) = true -> continues data = false ->
  query_pages cfg server (S fuel) url opt continuation None w = (Ok data, w).
Proof.
  intros Hkey Htk Hrec Hq Hc.
  destruct (truthy_query_field data Hq) as (fields & q & -> & Hf & Hq').
  simpl query_pages.
  rewrite (@bind_step _ _ _ _ _ _ _
             (api_hit cfg server url
                (with_params opt
                   (spread (spread [(js "action", JStr (js "query"))]
                                   (o_params opt)) continuation))
                None w (data := JObj fields)
                ltac:(unfold cached; simpl; now rewrite Hkey))).
  rewrite bind_lift. simpl prop. rewrite Hf, Hq'.
  change (negb true) with false. cbv iota.
  rewrite bind_ret, Hc.
  unfold finish_pages. rewrite bind_lift. simpl assign_query.
  rewrite (map_set_same_value _ _ Hf).
  unfold bind, write_through, cached. rewrite Hkey, Hrec.
  rewrite (map_set_same_value _ _ Hrec), set_mock_same.
  unfold remember. rewrite Htk.
  now rewrite (map_set_same_value _ _ Hrec), set_mock_same.
Qed.

(** The first fetch under a key, of a list of one page. *)
Lemma single_page_fetch url opt key fuel w data :
  o_mock opt = Some key -> truthy key = true ->
  map_get key (mock w) = None ->
  server (trace w) (page_request url opt []) = Response data ->
  has_errors data = false ->
  js_truthy (prop_opt (js "query") data) = true -> continues data = false ->
  exists w1,
    apiQueryListAll cfg server (S fuel) url opt w = (Ok data, w1)
    /\ trace w1 = trace w ++ [(page_request url opt [], Response data)]
    /\ map_get key (mock w1) = Some data
    /\ (forall k, k <> key -> map_get k (mock w1) = map_get k (mock w))
    /\ lastsync_file w1 = lastsync_file w
    /\ logged w1 = logged w.
Proof.
  intros Hkey Htk Hnone Hsrv Herr Hq Hc.
  set (opt1 := with_params opt
                 (spread (spread [(js "action", JStr (js "query"))]
                                 (o_params opt)) [])).
  assert (Hcm : cached (o_mock opt1) (mock w) = None).
  { unfold opt1, cached. simpl. now rewrite Hkey. }
  destruct (api cfg server url opt1 None w) as [r1 w1] eqn:E1.
  destruct (api_miss cfg server url opt1 None w Hcm E1)
    as (Ht & Hf & Hl & Hr & Hm).
  change (request_of url opt1) with (page_request url opt []) in Ht, Hr.
  rewrite Hsrv in Ht, Hr.
  rewrite (screen_clean data Herr Hq) in Hr. subst r1.
  assert (Hmock : mock w1 = map_set key data (mock w)).
  { rewrite Hm. unfold remember, opt1. simpl. now rewrite Hkey, Htk. }
  assert (Hrec : map_get key (mock w1) = Some data).
  { rewrite Hmock. apply map_get_set_same. }
  exists w1. split; [|split; [exact Ht | split; [exact Hrec|]]].
  - transitivity (query_pages cfg server (S fuel) url opt [] None w1).
    + unfold apiQueryListAll. simpl query_pages. fold opt1.
      rewrite (@bind_step _ _ _ _ _ _ _ E1).
      assert (Hhit : api cfg server url opt1 None w1 = (Ok data, w1)).
      { apply api_hit. unfold opt1, cached. simpl. now rewrite Hkey. }
      now rewrite (@bind_step _ _ _ _ _ _ _ Hhit).
    + now apply query_pages_replays_single with (key := key).
  - split; [|split; [exact Hf | exact Hl]].
    intros k Hk. rewrite Hmock. now apply map_get_set_other.
Qed.

(** X17: a list fetch under a non-empty [_mock] key whose first reply has
    no errors, has a [query] and announces no continuation sends that one
    request, returns the reply and records it; from then on every fetch
    under that key returns the same object without sending a request or
    changing anything. *)
Theorem single_page_fetch_records url opt key fuel w data :
  o_mock opt = Some key -> truthy key = true ->
  map_get key (mock w) = None ->
  server (trace w) (page_request url opt []) = Response data ->
  has_errors data = false ->
  js_truthy (prop_opt (js "query") data) = true -> continues data = false ->
  exists w1,
    apiQueryListAll cfg server (S fuel) url opt w = (Ok data, w1)
    /\ trace w1 = trace w ++ [(page_request url opt [], Response data)]
    /\ map_get key (mock w1) = Some data
    /\ forall fuel' url' opt', o_mock opt' = Some key ->
         apiQueryListAll cfg server (S fuel') url' opt' w1 = (Ok data, w1).
Proof.
  intros Hkey Htk Hnone Hsrv Herr Hq Hc.
  destruct (@single_page_fetch url opt key fuel w data
              Hkey Htk Hnone Hsrv Herr Hq Hc)
    as (w1 & E & Ht & Hrec & _).
  exists w1. repeat (split; [assumption|]).
  intros fuel' url' opt' Hkey'. unfold apiQueryListAll.
  now apply query_pages_replays_single with (key := key).
Qed.

Lemma merge_page_single name acc items :
  merge_page (JObj [(name, JArr acc)]) (JObj [(name, JArr items)])
  = Ok (JObj [(name, JArr (acc ++ items))]).
Proof.
  unfold merge_page, merge_entries, merge_entry. simpl.
  rewrite jseqb_refl. reflexivity.
Qed.

(** One turn of the loop of a fetch without [_mock]: the request is sent
    and the page comes back as it is. *)
Lemma page_step url opt continuation name items data w :
  o_mock opt = None ->
  server (trace w) (page_request url opt continuation) = Response data ->
  holds_list name items data ->
  exists w1 fields,
    data = JObj fields
    /\ map_get (js "query") fields = Some (JObj [(name, JArr items)])
    /\ api cfg server url
           (with_params opt
              (spread (spread [(js "action", JStr (js "query"))]
                              (o_params opt)) continuation)) None w
       = (Ok data, w1)
    /\ trace w1 = trace w ++ [(page_request url opt continuation,
                               Response data)].
Proof.
  intros Hm Hs [Herr Hq].
  assert (Hq' : js_truthy (prop_opt (js "query") data) = true)
    by now rewrite Hq.
  destruct (truthy_query_field data Hq') as (fields & q & -> & Hf & _).
  simpl in Hq. rewrite Hf in Hq. subst q.
  set (opt1 := with_params opt _).
  assert (Hcm : cached (o_mock opt1) (mock w) = None).
  { unfold opt1, cached. simpl. now rewrite Hm. }
  destruct (api cfg server url opt1 None w) as [r1 w1] eqn:E1.
  destruct (api_miss cfg server url opt1 None w Hcm E1)
    as (Ht & _ & _ & Hr & _).
  change (request_of url opt1) with (page_request url opt continuation)
    in Ht, Hr.
  rewrite Hs in Ht, Hr. rewrite (screen_clean _ Herr Hq') in Hr. subst r1.
  exists w1, fields. auto.
Qed.

Lemma write_through_unrecorded opt data w :
  o_mock opt = None -> write_through opt data w = (Ok tt, w).
Proof. unfold write_through, cached. now intros ->. Qed.

Lemma finish_pages_unrecorded opt fields results w :
  o_mock opt = None ->
  finish_pages opt (JObj fields) (Some results) w
  = (Ok (JObj (map_set (js "query") results fields)), w).
Proof.
  intros Hm. unfold finish_pages. rewrite bind_lift. simpl assign_query.
  unfold bind. rewrite (write_through_unrecorded _ _ _ Hm).
  unfold remember. now rewrite Hm.
Qed.

(** One turn of the loop of a fetch without [_mock], after the first
    page and on the first page. *)
Lemma query_pages_turn url opt continuation name acc items fields fuel w w1 :
  o_mock opt = None ->
  api cfg server url
      (with_params opt
         (spread (spread [(js "action", JStr (js "query"))] (o_params opt))
                 continuation)) None w
  = (Ok (JObj fields), w1) ->
  map_get (js "query") fields = Some (JObj [(name, JArr items)]) ->
  query_pages cfg server (S fuel) url opt continuation
              (Some (JObj [(name, JArr acc)])) w
  = if continues (JObj fields)
    then query_pages cfg server fuel url opt
                     (continue_entries (JObj fields))
                     (Some (JObj [(name, JArr (acc ++ items))])) w1
    else (Ok (JObj (map_set (js "query")
                            (JObj [(name, JArr (acc ++ items))]) fields)),
          w1).
Proof.
  intros Hm E1 Hf. simpl query_pages.
  rewrite (@bind_step _ _ _ _ _ _ _ E1), bind_lift. simpl prop.
  rewrite Hf. change (negb (js_truthy (JObj [(name, JArr items)])))
    with false. cbv iota.
  unfold collect. rewrite !bind_assoc, bind_lift, merge_page_single.
  rewrite !bind_assoc, bind_lift. simpl assign_query. cbv iota.
  rewrite !bind_assoc.
  rewrite (@bind_step _ _ _ _ _ _ _ (write_through_unrecorded _ _ _ Hm)).
  rewrite bind_ret.
  destruct (continues (JObj fields)); [reflexivity|].
  now apply finish_pages_unrecorded.
Qed.

Lemma query_pages_first_turn url opt continuation name items fields fuel
      w w1 :
  o_mock opt = None ->
  api cfg server url
      (with_params opt
         (spread (spread [(js "action", JStr (js "query"))] (o_params opt))
                 continuation)) None w
  = (Ok (JObj fields), w1) ->
  map_get (js "query") fields = Some (JObj [(name, JArr items)]) ->
  query_pages cfg server (S fuel) url opt continuation None w
  = if continues (JObj fields)
    then query_pages cfg server fuel url opt
                     (continue_entries (JObj fields))
                     (Some (JObj [(name, JArr items)])) w1
    else (Ok (JObj (map_set (js "query")
                            (JObj [(name, JArr items)]) fields)), w1).
Proof.
  intros Hm E1 Hf. simpl query_pages.
  rewrite (@bind_step _ _ _ _ _ _ _ E1), bind_lift. simpl prop.
  rewrite Hf. change (negb (js_truthy (JObj [(name, JArr items)])))
    with false. cbv iota.
  unfold collect. rewrite bind_ret.
  destruct (continues (JObj fields)); [reflexivity|].
  now apply finish_pages_unrecorded.
Qed.

Lemma query_pages_appends url opt name :
  o_mock opt = None ->
  forall pgs items fuel continuation acc w,
  serves server url opt (trace w) continuation pgs ->
  Forall2 (holds_list name) items pgs ->
  (List.length pgs <= fuel)%nat ->
  exists w' fields,
    last pgs JNull = JObj fields
    /\ query_pages cfg server fuel url opt continuation
                   (Some (JObj [(name, JArr acc)])) w
       = (Ok (JObj (map_set (js "query")
                            (JObj [(name, JArr (acc ++ List.concat items))])
                            fields)), w')
    /\ trace w' = trace w ++ page_exchanges url opt continuation pgs.
Proof.
  intros Hm. induction pgs as [|data rest IH];
    intros items fuel continuation acc w Hs Hall Hfuel; [destruct Hs|].
  inversion Hall as [|it d2 its r2 Hhold Hrest]; subst.
  destruct fuel as [|fuel]; [simpl in Hfuel; lia|].
  destruct Hs as [Hsrv Hnext].
  destruct (@page_step url opt continuation name it data w Hm Hsrv Hhold)
    as (w1 & fields & -> & Hf & E1 & Ht).
  rewrite (@query_pages_turn url opt continuation name acc it fields fuel
             w w1 Hm E1 Hf).
  destruct rest as [|d2 rest].
  - rewrite Hnext. inversion Hrest; subst. exists w1, fields. simpl.
    rewrite app_nil_r. auto.
  - destruct Hnext as [Hc Hnext]. rewrite Hc. rewrite <- Ht in Hnext.
    destruct (IH its fuel (continue_entries (JObj fields)) (acc ++ it) w1
                 Hnext Hrest ltac:(simpl in *; lia))
      as (w' & fields' & Hlast & E & Ht').
    exists w', fields'. split; [exact Hlast|]. split.
    + rewrite E. simpl List.concat. now rewrite app_assoc.
    + rewrite Ht', Ht, <- app_assoc. reflexivity.
Qed.

(** X18: without [_mock] the fetcher pages through the list: when the
    wiki answers the successive requests with pages that have no errors
    and whose [query] holds one list each, every page but the last
    announcing a continuation, the fetcher sends one request per page, the
    request after a page carrying the entries of its [continue], and
    returns the last page with the lists of all the pages appended in
    order under [query]. *)
Theorem unrecorded_fetch_appends_pages url opt name pgs items fuel w :
  o_mock opt = None ->
  serves server url opt (trace w) [] pgs ->
  Forall2 (holds_list name) items pgs ->
  (List.length pgs <= fuel)%nat ->
  exists w' fields,
    last pgs JNull = JObj fields
    /\ apiQueryListAll cfg server fuel url opt w
       = (Ok (JObj (map_set (js "query")
                            (JObj [(name, JArr (List.concat items))])
                            fields)),
          w')
    /\ trace w' = trace w ++ page_exchanges url opt [] pgs.
Proof.
  intros Hm Hs Hall Hfuel. unfold apiQueryListAll.
  destruct pgs as [|data rest]; [destruct Hs|].
  inversion Hall as [|it d2 its r2 Hhold Hrest]; subst.
  destruct fuel as [|fuel]; [simpl in Hfuel; lia|].
  destruct Hs as [Hsrv Hnext].
  destruct (@page_step url opt [] name it data w Hm Hsrv Hhold)
    as (w1 & fields & -> & Hf & E1 & Ht).
  rewrite (@query_pages_first_turn url opt [] name it fields fuel
             w w1 Hm E1 Hf).
  destruct rest as [|d2 rest].
  - rewrite Hnext. inversion Hrest; subst. exists w1, fields. simpl.
    rewrite app_nil_r. auto.
  - destruct Hnext as [Hc Hnext]. rewrite Hc. rewrite <- Ht in Hnext.
    destruct (@query_pages_appends url opt name Hm (d2 :: rest) its fuel
                 (continue_entries (JObj fields)) it w1
                 Hnext Hrest ltac:(simpl in *; lia))
      as (w' & fields' & Hlast & E & Ht').
    exists w', fields'. split; [exact Hlast|]. split.
    + exact E.
    + rewrite Ht', Ht, <- app_assoc. reflexivity.
Qed.

End FetchMore.

Lemma single_page_fetch_records_witness :
  exists w1,
    apiQueryListAll demo_config demo_wikis 1 (sourceApiPhp demo_config)
                    excluded_opt demo_world
    = (Ok (obj [field "query"
                  (obj [field "categorymembers"
                          (JArr [obj [field "title" (str "X")]])])]), w1)
    /\ trace w1
       = trace demo_world
         ++ [(page_request (sourceApiPhp demo_config) excluded_opt [],
              Response
                (obj [field "query"
                        (obj [field "categorymembers"
                                (JArr [obj [field "title" (str "X")]])])]))]
    /\ map_get (js "excludedpages") (mock w1)
       = Some (obj [field "query"
                      (obj [field "categorymembers"
                              (JArr [obj [field "title" (str "X")]])])])
    /\ forall fuel' url' opt', o_mock opt' = Some (js "excludedpages") ->
         apiQueryListAll demo_config demo_wikis (S fuel') url' opt' w1
         = (Ok (obj [field "query"
                       (obj [field "categorymembers"
                               (JArr [obj [field "title" (str "X")]])])]),
            w1).
Proof.
  apply (@single_page_fetch_records demo_config demo_wikis
           (sourceApiPhp demo_config) excluded_opt (js "excludedpages") 0
           demo_world
           (obj [field "query"
                   (obj [field "categorymembers"
                           (JArr [obj [field "title" (str "X")]])])]));
    reflexivity.
Defined.

Lemma unrecorded_fetch_appends_pages_witness :
  exists w' fields,
    last [first_page; second_page] JNull = JObj fields
    /\ apiQueryListAll demo_config paged_wiki 5 (sourceApiPhp demo_config)
                       plain_changes_opt demo_world
       = (Ok (JObj (map_set (js "query")
                      (JObj [(js "recentchanges",
                              JArr (List.concat
                                      [[obj [field "type" (str "edit");
                                             field "title" (str "A")]];
                                       [obj [field "type" (str "edit");
                                             field "title" (str "B")]]]))])
                      fields)), w')
    /\ trace w'
       = trace demo_world
         ++ page_exchanges (sourceApiPhp demo_config) plain_changes_opt []
                           [first_page; second_page].
Proof.
  apply (@unrecorded_fetch_appends_pages demo_config paged_wiki
           (sourceApiPhp demo_config) plain_changes_opt
           (js "recentchanges") [first_page; second_page]
           [[obj [field "type" (str "edit"); field "title" (str "A")]];
            [obj [field "type" (str "edit"); field "title" (str "B")]]]
           5 demo_world).
  - reflexivity.
  - simpl. repeat split; reflexivity.
  - repeat constructor.
  - simpl. lia.
Defined.

Lemma paginated_fetch_never_completes_witness :
  (forall d,
     fst (apiQueryListAll demo_config paged_wiki 7
            (sourceApiPhp demo_config)
            (changes_opt (js "2024-04-30T20:00:00Z")) demo_world) <> Ok d)
  /\ (7%nat <> 0%nat ->
      trace (snd (apiQueryListAll demo_config paged_wiki 7
                    (sourceApiPhp demo_config)
                    (changes_opt (js "2024-04-30T20:00:00Z")) demo_world))
      = trace demo_world
        ++ [(page_request (sourceApiPhp demo_config)
                          (changes_opt (js "2024-04-30T20:00:00Z")) [],
             Response first_page)]).
Proof.
  apply (@paginated_fetch_never_completes demo_config paged_wiki
           (sourceApiPhp demo_config)
           (changes_opt (js "2024-04-30T20:00:00Z")) (js "recentchanges")
           7 demo_world first_page);
    reflexivity.
Defined.

(** On a wiki whose lists have a second page the run does not get past
    the first fetch: one request is sent and the loop goes on without
    end. *)
Example run_on_paged_wiki :
  fst (main demo_config paged_wiki 6 demo_world) = OutOfFuel
  /\ List.length (trace (snd (main demo_config paged_wiki 6 demo_world)))
     = 1%nat
  /\ lastsync_file (snd (main demo_config paged_wiki 6 demo_world)) = None.
Proof. vm_compute. repeat split. Qed.

(* ===================================================================== *)
(** ** The requests of a run *)
(* ===================================================================== *)

Lemma sends_ret (A : Type) Q (a : A) : sends Q (ret a).
Proof.
  intros w r w' [= <- <-]. exists []. now rewrite app_nil_r.
Qed.

Lemma sends_lift (A : Type) Q (o : Outcome A) : sends Q (lift o).
Proof.
  intros w r w' [= <- <-]. exists []. now rewrite app_nil_r.
Qed.

Lemma sends_bind (A B : Type) Q (c : M A) (k : A -> M B) :
  sends Q c -> (forall a, sends Q (k a)) -> sends Q (bind c k).
Proof.
  intros Hc Hk w r w' H. unfold bind in H.
  destruct (c w) as [r1 w1] eqn:E1.
  destruct (Hc w r1 w1 E1) as (d1 & Ht1 & Hq1).
  destruct r1 as [a|e| | |];
    try (injection H as <- <-; exists d1; auto; fail).
  destruct (Hk a w1 r w' H) as (d2 & Ht2 & Hq2).
  exists (d1 ++ d2). split.
  - now rewrite Ht2, Ht1, app_assoc.
  - now rewrite forallb_app, Hq1, Hq2.
Qed.

Lemma respects_sends (A : Type) Q K (c : M A) : respects Q K c -> sends Q c.
Proof.
  intros Hc w r w' H. destruct (Hc w r w' H) as (_ & _ & d & Ht & Hq & _).
  eauto.
Qed.

Lemma sends_catch_log (A : Type) Q (c : M A) :
  sends Q c -> sends Q (catch_log c).
Proof.
  intros Hc w r w' H. unfold catch_log in H.
  destruct (c w) as [r1 w1] eqn:E1.
  destruct (Hc w r1 w1 E1) as (d1 & Ht1 & Hq1).
  destruct r1; injection H as <- <-; exists d1; auto.
Qed.

Lemma two_stage_last (A : Type) Q1 Q2 (c : M A) :
  sends Q2 c -> no_exit c -> two_stage Q1 Q2 c.
Proof.
  intros Hc Hn w r w' H. split; [eapply Hn; eauto|].
  destruct (Hc w r w' H) as (d & Ht & Hq). exists [], d. auto.
Qed.

Lemma two_stage_bind (A B : Type) Q1 Q2 (c : M A) (k : A -> M B) :
  sends Q1 c -> no_exit c -> (forall a, two_stage Q1 Q2 (k a)) ->
  two_stage Q1 Q2 (bind c k).
Proof.
  intros Hc Hn Hk w r w' H. unfold bind in H.
  destruct (c w) as [r1 w1] eqn:E1.
  destruct (Hc w r1 w1 E1) as (d & Ht & Hq).
  pose proof (Hn w r1 w1 E1) as Hne.
  destruct r1 as [a|e| | |]; try congruence;
    try (injection H as <- <-; split; [discriminate|];
         exists d, []; rewrite app_nil_r; auto; fail).
  destruct (Hk a w1 r w' H) as (Hr & d1 & d2 & Ht2 & Hq1 & Hq2).
  split; [exact Hr|]. exists (d ++ d1), d2. split.
  - now rewrite Ht2, Ht, !app_assoc.
  - now rewrite forallb_app, Hq, Hq1.
Qed.

Lemma staged_two_stage (A : Type) Q0 Q1 Q2 (c : M A) :
  two_stage Q1 Q2 c -> staged Q0 Q1 Q2 c.
Proof.
  intros Hc w r w' H. destruct (Hc w r w' H) as (Hr & d1 & d2 & Ht & H1 & H2).
  exists [], d1, d2. repeat split; auto; congruence.
Qed.

Lemma staged_front (A : Type) Q0 Q1 Q2 (c : M A) :
  sends Q0 c -> staged Q0 Q1 Q2 c.
Proof.
  intros Hc w r w' H. destruct (Hc w r w' H) as (d & Ht & Hq).
  exists d, [], []. rewrite !app_nil_r. repeat split; auto.
Qed.

Lemma staged_bind (A B : Type) Q0 Q1 Q2 (c : M A) (k : A -> M B) :
  sends Q0 c -> no_exit c -> (forall a, staged Q0 Q1 Q2 (k a)) ->
  staged Q0 Q1 Q2 (bind c k).
Proof.
  intros Hc Hn Hk w r w' H. unfold bind in H.
  destruct (c w) as [r1 w1] eqn:E1.
  destruct (Hc w r1 w1 E1) as (d & Ht & Hq).
  pose proof (Hn w r1 w1 E1) as Hne.
  destruct r1 as [a|e| | |]; try congruence;
    try (injection H as <- <-; exists d, [], []; rewrite !app_nil_r;
         repeat split; auto; discriminate).
  destruct (Hk a w1 r w' H) as (d0 & d1 & d2 & Ht2 & H0 & H1 & H2 & He).
  exists (d ++ d0), d1, d2. split.
  - now rewrite Ht2, Ht, !app_assoc.
  - rewrite forallb_app, Hq, H0. auto.
Qed.

(** The file-upload map of a run is empty. *)
Lemma exclude_reduce_fileIds ex evs : fileIds (exclude ex (reduce evs)) = [].
Proof.
  unfold exclude, reduce. simpl. now rewrite reduce_from_fileIds.
Qed.

Section RequestFacts.
Variable cfg : Config.
Variable server : list (Request * Reply) -> Request -> Reply.

Lemma sends_api Q url opt asr :
  Q (request_of url opt) = true -> sends Q (api cfg server url opt asr).
Proof.
  intros HQ w r w' H.
  destruct (cached (o_mock opt) (mock w)) as [data|] eqn:Hc.
  - rewrite (api_hit cfg server url opt asr w Hc) in H.
    injection H as <- <-. exists []. now rewrite app_nil_r.
  - destruct (api_miss cfg server url opt asr w Hc H) as (Ht & _).
    eexists. split; [exact Ht|]. simpl. now rewrite HQ.
Qed.

Lemma sends_apiLogin Q url username password m :
  Q (request_of url (login_token_opt m)) = true ->
  (forall tok, Q (request_of url (login_opt m username password tok)) = true) ->
  sends Q (apiLogin cfg server url username password m).
Proof.
  intros H1 H2 w r w' H. unfold apiLogin in H.
  assert (Hgo : sends Q
            (tokens_data <- api cfg server url (login_token_opt m) None ;;
             query <- lift (prop (js "query") tokens_data) ;;
             tokens <- lift (prop (js "tokens") query) ;;
             logintoken <- lift (prop (js "logintoken") tokens) ;;
             api cfg server url (login_opt m username password logintoken)
                 (Some login_succeeded))).
  { apply sends_bind; [now apply sends_api|]. intros d.
    repeat (apply sends_bind; [apply sends_lift | intros ?]).
    apply sends_api, H2. }
  destruct m; try (eapply Hgo; eauto; fail).
  destruct (map_get (js "login") (mock w)).
  - injection H as <- <-. exists []. now rewrite app_nil_r.
  - eapply Hgo; eauto.
Qed.

(** Under a non-empty [_mock] key the fetcher sends the request of the
    first page at most. *)
Lemma sends_fetch Q fuel url opt key :
  o_mock opt = Some key -> truthy key = true ->
  Q (page_request url opt []) = true ->
  is_login_request (page_request url opt []) = false ->
  sends Q (apiQueryListAll cfg server fuel url opt).
Proof.
  intros Hkey Htk HQ Hl. unfold apiQueryListAll.
  apply respects_sends with (K := fun _ => true).
  now apply respects_query_pages with (key := key).
Qed.

Lemma sends_commit Q syncTime : sends Q (commit cfg syncTime).
Proof.
  intros w r w' H. unfold commit in H. exists []. rewrite app_nil_r.
  split; [|reflexivity].
  destruct (saveMockFlag cfg), syncTime; injection H as _ <-; reflexivity.
Qed.

Lemma no_exit_commit syncTime : no_exit (commit cfg syncTime).
Proof.
  intros w r w' H. unfold commit in H.
  destruct syncTime; injection H as <- _; discriminate.
Qed.

Lemma sends_nothing_to_do Q syncTime :
  sends Q (write_lastsync syncTime ;;; lift (A:=unit) Exit).
Proof.
  intros w r w' H. unfold bind, write_lastsync, lift in H.
  exists []. rewrite app_nil_r. split; [|reflexivity].
  destruct syncTime; injection H as _ <-; reflexivity.
Qed.

Variables Q0 Q1 Q2 : Request -> bool.
Hypothesis H0_token :
  forall m, Q0 (request_of (sourceApiPhp cfg) (login_token_opt m)) = true.
Hypothesis H0_login :
  forall m u p tok,
    Q0 (request_of (sourceApiPhp cfg) (login_opt m u p tok)) = true.
Hypothesis H0_excluded :
  Q0 (page_request (sourceApiPhp cfg) excluded_opt []) = true.
Hypothesis H0_changes :
  forall lastSync,
    Q0 (page_request (sourceApiPhp cfg) (changes_opt lastSync) []) = true.
Hypothesis H1_export :
  forall titles,
    Q1 (request_of (sourceApiPhp cfg) (export_opt titles)) = true.
Hypothesis H2_token :
  forall m, Q2 (request_of (targetApiPhp cfg) (login_token_opt m)) = true.
Hypothesis H2_login :
  forall m u p tok,
    Q2 (request_of (targetApiPhp cfg) (login_opt m u p tok)) = true.
Hypothesis H2_csrf : Q2 (request_of (targetApiPhp cfg) csrf_opt) = true.
Hypothesis H2_move :
  forall from to tok,
    Q2 (request_of (targetApiPhp cfg) (move_opt from to tok)) = true.
Hypothesis H2_import :
  forall xml tok,
    Q2 (request_of (targetApiPhp cfg) (import_opt xml tok)) = true.

Lemma sends_source_login : sends Q0 (source_login cfg server).
Proof.
  unfold source_login.
  destruct (truthy (sourceUsername cfg) && truthy (sourcePassword cfg));
    [|apply sends_ret].
  apply sends_bind; [now apply sends_apiLogin|]. intros d.
  repeat (apply sends_bind; [apply sends_lift | intros ?]).
  apply sends_ret.
Qed.

Lemma sends_fetch_excluded fuel : sends Q0 (fetch_excluded cfg server fuel).
Proof.
  unfold fetch_excluded.
  apply sends_bind.
  - now apply sends_fetch with (key := js "excludedpages").
  - intros d. repeat (apply sends_bind; [apply sends_lift | intros ?]).
    apply sends_lift.
Qed.

Lemma sends_fetch_changes fuel lastSync :
  sends Q0 (fetch_changes cfg server fuel lastSync).
Proof.
  unfold fetch_changes.
  apply sends_bind.
  - now apply sends_fetch with (key := js "recentchanges").
  - intros d. repeat (apply sends_bind; [apply sends_lift | intros ?]).
    apply sends_ret.
Qed.

Lemma sends_export_pages p : sends Q1 (export_pages cfg server p).
Proof.
  unfold export_pages.
  destruct (Nat.eqb (map_size p) 0); [apply sends_ret|].
  apply sends_bind; [now apply sends_api|]. intros d.
  repeat (apply sends_bind; [apply sends_lift | intros ?]).
  match goal with |- sends _ (match ?x with _ => _ end) => destruct x end;
    first [apply sends_ret | apply sends_lift].
Qed.

(** With no file to transfer, no file URL is asked for. *)
Lemma sends_no_file_urls : sends Q1 (fetch_file_urls cfg server []).
Proof. unfold fetch_file_urls. simpl. apply sends_ret. Qed.

Lemma sends_target_login : sends Q2 (target_login cfg server).
Proof.
  intros w r w' H. unfold target_login in H. revert H.
  apply sends_bind; [now apply sends_apiLogin|]. intros d.
  repeat (apply sends_bind; [apply sends_lift | intros ?]).
  apply sends_ret.
Qed.

Lemma sends_fetch_csrf : sends Q2 (fetch_csrf cfg server).
Proof.
  unfold fetch_csrf.
  apply sends_bind; [now apply sends_api|]. intros d.
  repeat (apply sends_bind; [apply sends_lift | intros ?]).
  apply sends_lift.
Qed.

Lemma sends_move_pages mvs csrftoken :
  sends Q2 (move_pages cfg server mvs csrftoken).
Proof.
  induction mvs as [|[from to] mvs IH]; simpl; [apply sends_ret|].
  apply sends_bind; [|intros _; exact IH].
  now apply sends_catch_log, sends_api.
Qed.

Lemma sends_import_pages xmlExport csrftoken :
  sends Q2 (import_pages cfg server xmlExport csrftoken).
Proof.
  unfold import_pages.
  destruct (truthy xmlExport); [|apply sends_ret].
  apply sends_bind; [now apply sends_api | intros ?; apply sends_ret].
Qed.

Lemma apply_changes_two_stage p syncTime :
  two_stage Q1 Q2 (apply_changes cfg server p [] syncTime).
Proof.
  unfold apply_changes.
  apply two_stage_bind;
    [apply sends_export_pages | apply no_exit_export_pages |].
  intros xmlExport.
  apply two_stage_bind;
    [apply sends_no_file_urls | apply no_exit_fetch_file_urls |].
  intros _. apply two_stage_last.
  - apply sends_bind; [apply sends_target_login | intros _].
    apply sends_bind; [apply sends_fetch_csrf | intros csrftoken].
    apply sends_bind; [apply sends_move_pages | intros _].
    apply sends_bind; [apply sends_import_pages | intros _].
    apply sends_commit.
  - apply no_exit_bind; [apply no_exit_target_login | intros _].
    apply no_exit_bind; [apply no_exit_fetch_csrf | intros csrftoken].
    apply no_exit_bind; [apply no_exit_move_pages | intros _].
    apply no_exit_bind; [apply no_exit_import_pages | intros _].
    apply no_exit_commit.
Qed.

(** The requests of a run come in three stages: the logins and the two
    list fetches on the source; then, unless the run ends with "nothing to
    do", the export; then the target. *)
Lemma main_staged fuel : staged Q0 Q1 Q2 (main cfg server fuel).
Proof.
  unfold main.
  apply staged_bind;
    [ apply respects_sends with (K := fun _ => true),
        respects_read_last_sync
    | apply no_exit_read_last_sync |].
  intros lastSync.
  do 5 (apply staged_bind;
        [ apply respects_sends with (K := fun _ => true), respects_require
        | apply no_exit_require | intros _ ]).
  apply staged_bind;
    [ apply respects_sends with (K := fun _ => true), respects_load_mock
    | intros w r w' [= <- _]; discriminate | intros _ ].
  apply staged_bind;
    [apply sends_source_login | apply no_exit_source_login | intros _].
  apply staged_bind;
    [apply sends_fetch_excluded | apply no_exit_fetch_excluded |].
  intros excludedPages.
  apply staged_bind;
    [apply sends_fetch_changes | apply no_exit_fetch_changes |].
  intros fetched. cbv zeta. rewrite exclude_reduce_fileIds.
  match goal with |- staged _ _ _ (if ?b then _ else _) => destruct b end.
  - apply staged_front, sends_nothing_to_do.
  - apply staged_two_stage, apply_changes_two_stage.
Qed.

End RequestFacts.

Lemma source_request_get cfg opt :
  o_method opt = get_method ->
  source_request cfg (request_of (sourceApiPhp cfg) opt) = true.
Proof.
  intros Hm. unfold source_request, request_of. simpl.
  now rewrite jseqb_refl, Hm.
Qed.

Lemma source_request_login cfg m u p tok :
  source_request cfg (request_of (sourceApiPhp cfg) (login_opt m u p tok))
  = true.
Proof.
  unfold source_request, request_of. simpl rq_url.
  now rewrite jseqb_refl.
Qed.

Lemma target_request_get cfg opt :
  o_method opt = get_method ->
  target_request cfg (request_of (targetApiPhp cfg) opt) = true.
Proof.
  intros Hm. unfold target_request, request_of. simpl.
  now rewrite jseqb_refl, Hm.
Qed.

Lemma target_request_login cfg m u p tok :
  target_request cfg (request_of (targetApiPhp cfg) (login_opt m u p tok))
  = true.
Proof.
  unfold target_request, request_of. simpl rq_url.
  now rewrite jseqb_refl.
Qed.

Lemma target_request_move cfg from to tok :
  target_request cfg (request_of (targetApiPhp cfg) (move_opt from to tok))
  = true.
Proof.
  unfold target_request, request_of. simpl rq_url.
  now rewrite jseqb_refl.
Qed.

Lemma target_request_import cfg xml tok :
  target_request cfg (request_of (targetApiPhp cfg) (import_opt xml tok))
  = true.
Proof.
  unfold target_request, request_of. simpl rq_url.
  now rewrite jseqb_refl.
Qed.

(** X20: the order of the requests of a run, however it ends: first come
    requests to the source wiki, each a [GET] or the [POST] of the login,
    and then requests to the target wiki, each a [GET] or the [POST] of
    the login, of a move or of an import. So nothing is written on the
    source wiki, and the source is not contacted again once the work on
    the target has begun. *)
Theorem run_source_then_target cfg server fuel w r w' :
  main cfg server fuel w = (r, w') ->
  exists d1 d2,
    trace w' = trace w ++ d1 ++ d2
    /\ forallb (fun x => source_request cfg (fst x)) d1 = true
    /\ forallb (fun x => target_request cfg (fst x)) d2 = true.
Proof.
  intros H.
  destruct (@main_staged cfg server
              (source_request cfg) (source_request cfg)
              (target_request cfg)) with
    (fuel := fuel) (w := w) (r := r) (w' := w')
    as (d0 & d1 & d2 & Ht & H0 & H1 & H2 & _);
    auto using source_request_login, target_request_login,
      target_request_move, target_request_import;
    try (intros; now apply source_request_get);
    try (intros; now apply target_request_get).
  exists (d0 ++ d1), d2. split; [now rewrite Ht, !app_assoc|].
  split; [now rewrite forallb_app, H0, H1 | exact H2].
Qed.

Lemma run_source_then_target_witness :
  exists d1 d2,
    trace (snd (main demo_config demo_wikis 3 demo_world))
    = trace demo_world ++ d1 ++ d2
    /\ forallb (fun x => source_request demo_config (fst x)) d1 = true
    /\ forallb (fun x => target_request demo_config (fst x)) d2 = true.
Proof.
  apply (@run_source_then_target demo_config demo_wikis 3 demo_world
           (fst (main demo_config demo_wikis 3 demo_world))).
  apply surjective_pairing.
Defined.

(** X21: a run that ends with "nothing to do" has talked to the source
    wiki only, and has asked for no export: all its requests go to the
    source URL, are [GET]s or the login, and carry no [export]
    parameter. *)
Theorem nothing_to_do_stays_on_source cfg server fuel w w' :
  main cfg server fuel w = (Exit, w') ->
  exists d,
    trace w' = trace w ++ d
    /\ forallb (fun x => source_request cfg (fst x)
                         && negb (is_export_request (fst x))) d = true.
Proof.
  intros H.
  destruct (@main_staged cfg server
              (fun rq => source_request cfg rq
                         && negb (is_export_request rq))
              (fun _ => true) (fun _ => true)) with
    (fuel := fuel) (w := w) (r := @Exit unit) (w' := w')
    as (d0 & d1 & d2 & Ht & H0 & _ & _ & He); auto.
  - intros m. cbv beta. now rewrite source_request_get.
  - intros m u p tok. cbv beta. now rewrite source_request_login.
  - cbv beta. unfold page_request. now rewrite source_request_get.
  - intros ls. cbv beta. unfold page_request.
    now rewrite source_request_get.
  - destruct (He eq_refl) as [-> ->]. exists d0.
    now rewrite !app_nil_r in Ht.
Qed.

Lemma nothing_to_do_stays_on_source_witness :
  exists d,
    trace (snd (main demo_config idle_wikis 3 demo_world))
    = trace demo_world ++ d
    /\ forallb (fun x => source_request demo_config (fst x)
                         && negb (is_export_request (fst x))) d = true.
Proof.
  apply (@nothing_to_do_stays_on_source demo_config idle_wikis 3
           demo_world).
  reflexivity.
Defined.

(** X27: the file transfer is switched off: in a run, however it ends,
    no request asks for image information ([prop=imageinfo], the file
    URLs) and no request is an upload. *)
Theorem file_transfer_is_disabled cfg server fuel w r w' :
  main cfg server fuel w = (r, w') ->
  exists d,
    trace w' = trace w ++ d
    /\ forallb (fun x => negb (param_is "prop" "imageinfo" (fst x))
                         && negb (action_is "upload" (fst x))) d = true.
Proof.
  intros H.
  set (Q := fun rq => negb (param_is "prop" "imageinfo" rq)
                      && negb (action_is "upload" rq)).
  destruct (@main_staged cfg server Q Q Q) with
    (fuel := fuel) (w := w) (r := r) (w' := w')
    as (d0 & d1 & d2 & Ht & H0 & H1 & H2 & _);
    try (intros; reflexivity); auto.
  exists (d0 ++ d1 ++ d2). split; [exact Ht|].
  change (forallb (fun x => Q (fst x)) (d0 ++ d1 ++ d2) = true).
  now rewrite !forallb_app, H0, H1, H2.
Qed.

Lemma file_transfer_is_disabled_witness :
  exists d,
    trace (snd (main demo_config demo_wikis 3 demo_world))
    = trace demo_world ++ d
    /\ forallb (fun x => negb (param_is "prop" "imageinfo" (fst x))
                         && negb (action_is "upload" (fst x))) d = true.
Proof.
  apply (@file_transfer_is_disabled demo_config demo_wikis 3 demo_world
           (fst (main demo_config demo_wikis 3 demo_world))).
  apply surjective_pairing.
Defined.

(* ===================================================================== *)
(** ** When the watermark is written *)
(* ===================================================================== *)

Lemma settles_bind (A B : Type) Q K (c : M A) (k : A -> M B) :
  respects Q K c -> (forall a, settles (k a)) -> settles (bind c k).
Proof.
  intros Hc Hk w r w' H. unfold bind in H.
  destruct (c w) as [r1 w1] eqn:E1.
  destruct (Hc _ _ _ E1) as (Hf1 & _).
  destruct r1 as [a|e| | |]; try (injection H as <- <-; now left).
  destruct (Hk a _ _ _ H) as [Hf|Hn]; [left; congruence | now right].
Qed.

Section SettleFacts.
Variable cfg : Config.
Variable server : list (Request * Reply) -> Request -> Reply.

Lemma settles_apply_changes p ids syncTime :
  settles (apply_changes cfg server p ids syncTime).
Proof.
  pose proof lenient_trivial as HL.
  set (Q := fun _ : Request => true) in *.
  set (K := fun _ : jsstring => true) in *.
  unfold apply_changes.
  apply settles_bind with (Q := Q) (K := K);
    [now apply respects_export_pages | intros xmlExport].
  apply settles_bind with (Q := Q) (K := K);
    [now apply respects_fetch_file_urls | intros _].
  apply settles_bind with (Q := Q) (K := K);
    [now apply respects_target_login | intros _].
  apply settles_bind with (Q := Q) (K := K);
    [now apply respects_fetch_csrf | intros csrftoken].
  apply settles_bind with (Q := Q) (K := K);
    [now apply respects_move_pages | intros _].
  apply settles_bind with (Q := Q) (K := K);
    [now apply respects_import_pages | intros _].
  intros w r w' H. unfold commit in H. right. left.
  destruct syncTime; injection H as <- _; eauto.
Qed.

Lemma settles_main fuel : settles (main cfg server fuel).
Proof.
  pose proof lenient_trivial as HL.
  set (Q := fun _ : Request => true) in *.
  set (K := fun _ : jsstring => true) in *.
  unfold main.
  apply settles_bind with (Q := Q) (K := K);
    [apply respects_read_last_sync|]. intros lastSync.
  do 5 (apply settles_bind with (Q := Q) (K := K);
        [apply respects_require | intros _]).
  apply settles_bind with (Q := Q) (K := K);
    [apply respects_load_mock | intros _].
  apply settles_bind with (Q := Q) (K := K);
    [now apply respects_source_login | intros _].
  apply settles_bind with (Q := Q) (K := K);
    [now apply respects_fetch_excluded|].
  intros excludedPages.
  apply settles_bind with (Q := Q) (K := K);
    [apply respects_fetch_changes|]. intros fetched. cbv zeta.
  match goal with |- settles (if ?b then _ else _) => destruct b end.
  - intros w r w' H. unfold bind, write_lastsync, lift in H.
    destruct (snd fetched); injection H as <- <-; auto.
  - apply settles_apply_changes.
Qed.

End SettleFacts.

(** X22: the watermark is written at a normal end only: a run that
    leaves [~lastsync] different from what it was has ended either with
    "nothing to do" or after the import; a run that throws, at whatever
    step, or that does not finish its fetches leaves the file as it
    was. *)
Theorem watermark_written_at_normal_end_only cfg server fuel w r w' :
  main cfg server fuel w = (r, w') ->
  lastsync_file w' <> lastsync_file w ->
  r = Ok tt \/ r = Exit.
Proof.
  intros H Hne.
  destruct (@settles_main cfg server fuel w r w' H) as [Hf|[[[] ->]| ->]];
    auto. contradiction.
Qed.

Lemma watermark_written_at_normal_end_only_witness :
  fst (main demo_config demo_wikis 3 demo_world) = Ok tt
  \/ fst (main demo_config demo_wikis 3 demo_world) = Exit.
Proof.
  apply (@watermark_written_at_normal_end_only demo_config demo_wikis 3
           demo_world
           (fst (main demo_config demo_wikis 3 demo_world))
           (snd (main demo_config demo_wikis 3 demo_world))).
  - apply surjective_pairing.
  - vm_compute. discriminate.
Defined.

(* ===================================================================== *)
(** ** The configuration and the last-sync time *)
(* ===================================================================== *)

Lemma trim_start_space w x :
  all_space w = true -> trim_start (w ++ x) = trim_start x.
Proof.
  induction w as [|c w IH]; simpl; [reflexivity|].
  intros H. apply andb_true_iff in H as [Hc Hw]. rewrite Hc. auto.
Qed.

Lemma trim_start_head x : nonspace_head x = true -> trim_start x = x.
Proof.
  destruct x as [|c x]; simpl; [reflexivity|].
  intros H. apply negb_true_iff in H. now rewrite H.
Qed.

Lemma all_space_rev w : all_space (rev w) = all_space w.
Proof.
  induction w as [|c w IH]; [reflexivity|]. simpl rev.
  rewrite all_space_app, IH. simpl. rewrite andb_true_r. apply andb_comm.
Qed.

Lemma nonspace_head_rev ts :
  nonspace_last ts = true -> nonspace_head (rev ts) = true.
Proof.
  destruct ts as [|c ts] using rev_ind; [reflexivity|].
  unfold nonspace_last. rewrite last_last, rev_unit. auto.
Qed.

Lemma trim_blank w : all_space w = true -> trim w = [].
Proof.
  intros H. unfold trim.
  rewrite <- (app_nil_r w), (trim_start_space _ [] H). reflexivity.
Qed.

Lemma trim_core w1 ts w2 :
  all_space w1 = true -> all_space w2 = true ->
  nonspace_head ts = true -> nonspace_last ts = true ->
  trim (w1 ++ ts ++ w2) = ts.
Proof.
  intros H1 H2 Hh Hl. unfold trim. rewrite (trim_start_space _ _ H1).
  destruct ts as [|c ts].
  - simpl. rewrite <- (app_nil_r w2), (trim_start_space _ [] H2).
    reflexivity.
  - rewrite (@trim_start_head ((c :: ts) ++ w2) Hh).
    rewrite rev_app_distr, trim_start_space
      by (now rewrite all_space_rev).
    rewrite (@trim_start_head (rev (c :: ts)) (nonspace_head_rev _ Hl)).
    apply rev_involutive.
Qed.

(** X23: where the last-sync time comes from when [LAST_SYNC] is not
    set: it is the content of [~lastsync] without the white space at its
    two ends, so a file that holds the time followed by a line break
    gives the time itself; nothing is sent or written. *)
Theorem last_sync_read_from_file cfg w w1 ts w2 :
  truthy (envLastSync cfg) = false ->
  lastsync_file w = Some (w1 ++ ts ++ w2) ->
  all_space w1 = true -> all_space w2 = true ->
  nonspace_head ts = true -> nonspace_last ts = true ->
  read_last_sync cfg w = (Ok ts, w).
Proof.
  intros He Hf H1 H2 Hh Hl. unfold read_last_sync.
  now rewrite He, Hf, trim_core.
Qed.

(** X24: a run that is not configured (one of [SOURCE_APIPHP],
    [TARGET_APIPHP], [TARGET_USERNAME] and [TARGET_PASSWORD] is missing,
    or there is neither [LAST_SYNC] nor a [~lastsync] file that is not
    blank) throws an error at once: no request is sent and nothing is
    written. *)
Theorem unconfigured_run_throws_at_once cfg server fuel w :
  configured cfg w = false ->
  exists message,
    main cfg server fuel w = (Throw (PlainError message), w).
Proof.
  unfold configured, main, read_last_sync, require, bind, ret, lift.
  destruct (truthy (envLastSync cfg)) eqn:He.
  - destruct (truthy (sourceApiPhp cfg)); [|eauto].
    destruct (truthy (targetApiPhp cfg)); [|eauto].
    destruct (truthy (targetUsername cfg)); [|eauto].
    destruct (truthy (targetPassword cfg)); [|eauto].
    discriminate.
  - destruct (lastsync_file w) as [content|]; [|eauto].
    destruct (truthy (sourceApiPhp cfg)); [|eauto].
    destruct (truthy (targetApiPhp cfg)); [|eauto].
    destruct (truthy (targetUsername cfg)); [|eauto].
    destruct (truthy (targetPassword cfg)); [|eauto].
    simpl. intros Hb. apply negb_false_iff in Hb.
    rewrite (trim_blank _ Hb). simpl. eauto.
Qed.

Lemma last_sync_read_from_file_witness :
  read_last_sync file_config synced_world
  = (Ok (js "2024-05-01T20:00:00Z"), synced_world).
Proof.
  apply (@last_sync_read_from_file file_config synced_world []
           (js "2024-05-01T20:00:00Z") [10%N]);
    reflexivity.
Defined.

Lemma unconfigured_run_throws_at_once_witness :
  exists message,
    main file_config demo_wikis 3 demo_world
    = (Throw (PlainError message), demo_world).
Proof.
  apply (@unconfigured_run_throws_at_once file_config demo_wikis 3
           demo_world).
  reflexivity.
Defined.

(* ===================================================================== *)
(** ** The work on the target, step by step *)
(* ===================================================================== *)

Lemma bind_ok (A B : Type) (c : M A) (k : A -> M B) w b w' :
  bind c k w = (Ok b, w') ->
  exists a w1, c w = (Ok a, w1) /\ k a w1 = (Ok b, w').
Proof.
  unfold bind. destruct (c w) as [[a|e| | |] w1]; try discriminate. eauto.
Qed.

Lemma lift_ok (A : Type) (o : Outcome A) w a w' :
  lift o w = (Ok a, w') -> o = Ok a /\ w' = w.
Proof. unfold lift. now intros [= -> ->]. Qed.

Section TargetSteps.
Variable cfg : Config.
Variable server : list (Request * Reply) -> Request -> Reply.

(** A call of [api] that sent its request and returned. *)
Lemma api_ok_miss url opt asr w d w' :
  cached (o_mock opt) (mock w) = None ->
  api cfg server url opt asr w = (Ok d, w') ->
  screen asr d = Ok d
  /\ trace w' = trace w ++ [(request_of url opt, Response d)]
  /\ logged w' = logged w
  /\ mock w' = mock (remember (o_mock opt) d w).
Proof.
  intros Hc H.
  destruct (api_miss cfg server url opt asr w Hc H) as (Ht & _ & Hl & Hr & Hm).
  destruct (server (trace w) (request_of url opt)) as [data|info];
    [|discriminate].
  symmetry in Hr. pose proof (screen_ok _ _ Hr) as ->. auto.
Qed.

(** X25: the work of a run that gets to its end, when nothing is
    recorded under the keys ["export"] and [""]: one export request for
    all the pending titles; the token request and the login on the
    target, the login carrying the token just received; the request for a
    CSRF token; one move request per pair of the move list, in order, and
    then, if the patched export is not empty, one import request of the
    patched export; the moves and the import carry the CSRF token just
    received, and nothing else is sent. *)
Theorem target_work_of_a_successful_run p syncTime w w' :
  p <> [] ->
  map_get [] (mock w) = None ->
  map_get (js "export") (mock w) = None ->
  apply_changes cfg server p [] syncTime w = (Ok tt, w') ->
  exists d_export xml d_token d_login d_csrf moved imported,
    let logintoken :=
      prop_opt (js "logintoken")
               (prop_opt (js "tokens") (prop_opt (js "query") d_token)) in
    let csrftoken :=
      prop_opt (js "csrftoken")
               (prop_opt (js "tokens") (prop_opt (js "query") d_csrf)) in
    prop_opt (js "export") (prop_opt (js "query") d_export) = JStr xml
    /\ login_ok d_login = true
    /\ trace w'
       = trace w
         ++ [ (request_of (sourceApiPhp cfg) (export_opt (export_titles p)),
               Response d_export);
              (request_of (targetApiPhp cfg) (login_token_opt MockFalse),
               Response d_token);
              (request_of (targetApiPhp cfg)
                          (login_opt MockFalse (targetUsername cfg)
                                     (targetPassword cfg) logintoken),
               Response d_login);
              (request_of (targetApiPhp cfg) csrf_opt, Response d_csrf) ]
         ++ moved ++ imported
    /\ List.map fst moved
       = List.map (fun m => request_of (targetApiPhp cfg)
                              (move_opt (fst m) (snd m) csrftoken))
                  (moves p)
    /\ List.map fst imported
       = (if truthy (patch_export p xml)
          then [request_of (targetApiPhp cfg)
                           (import_opt (patch_export p xml) csrftoken)]
          else [])
    /\ logged w' = logged w ++ flat_map (fun x => api_error (snd x)) moved.
Proof.
  intros Hp Hdry Hexp H. unfold apply_changes in H.
  (* the export *)
  apply bind_ok in H as (xmlExport & w1 & Hx & H).
  unfold export_pages in Hx.
  assert (Hsz : Nat.eqb (map_size p) 0 = false)
    by (destruct p; [congruence | reflexivity]).
  rewrite Hsz in Hx.
  apply bind_ok in Hx as (d_export & wa & Ha & Hx).
  apply api_ok_miss in Ha as (_ & Hta & Hla & Hma); [|exact Hexp].
  apply bind_ok in Hx as (query & ? & Hq & Hx).
  apply lift_ok in Hq as [Hq ->]. apply prop_ok_opt in Hq. subst query.
  apply bind_ok in Hx as (x & ? & Hq & Hx).
  apply lift_ok in Hq as [Hq ->]. apply prop_ok_opt in Hq.
  destruct x as [| | | |xml| |]; try discriminate.
  injection Hx as <- <-.
  (* no file urls *)
  apply bind_ok in H as ([] & ? & Hf & H). injection Hf as <-.
  (* the login *)
  assert (Hdry1 : map_get [] (mock wa) = None).
  { rewrite Hma. unfold remember. simpl.
    rewrite map_get_set_other by discriminate. exact Hdry. }
  apply bind_ok in H as ([] & w3 & Hlg & H).
  unfold target_login in Hlg. rewrite Hdry1 in Hlg.
  apply bind_ok in Hlg as (d_login & w3' & Hlg & Hrest).
  assert (E3 : w3' = w3).
  { apply bind_ok in Hrest as (? & ? & Hq1 & Hrest).
    apply lift_ok in Hq1 as [_ ->].
    apply bind_ok in Hrest as (? & ? & Hq1 & Hrest).
    apply lift_ok in Hq1 as [_ ->]. now injection Hrest as <-. }
  subst w3'. clear Hrest.
  unfold apiLogin in Hlg. cbv beta iota in Hlg.
  apply bind_ok in Hlg as (d_token & w2 & Htk & Hlg).
  apply api_ok_miss in Htk as (_ & Ht2 & Hl2 & Hm2); [|reflexivity].
  apply bind_ok in Hlg as (query & ? & Hq1 & Hlg).
  apply lift_ok in Hq1 as [Hq1 ->]. apply prop_ok_opt in Hq1. subst query.
  apply bind_ok in Hlg as (tokens & ? & Hq1 & Hlg).
  apply lift_ok in Hq1 as [Hq1 ->]. apply prop_ok_opt in Hq1. subst tokens.
  apply bind_ok in Hlg as (logintoken & ? & Hq1 & Hlg).
  apply lift_ok in Hq1 as [Hq1 ->]. apply prop_ok_opt in Hq1.
  subst logintoken.
  apply api_ok_miss in Hlg as (Hs3 & Ht3 & Hl3 & Hm3); [|reflexivity].
  apply screen_login_ok in Hs3 as (_ & Hok & _).
  (* the CSRF token *)
  apply bind_ok in H as (csrftoken & w4x & Hc & H).
  unfold fetch_csrf in Hc.
  apply bind_ok in Hc as (d_csrf & w4 & Hc & Hrest).
  apply api_ok_miss in Hc as (_ & Ht4 & Hl4 & Hm4); [|reflexivity].
  apply bind_ok in Hrest as (query & ? & Hq1 & Hrest).
  apply lift_ok in Hq1 as [Hq1 ->]. apply prop_ok_opt in Hq1. subst query.
  apply bind_ok in Hrest as (tokens & ? & Hq1 & Hrest).
  apply lift_ok in Hq1 as [Hq1 ->]. apply prop_ok_opt in Hq1. subst tokens.
  apply lift_ok in Hrest as [Hq1 ->]. apply prop_ok_opt in Hq1.
  subst csrftoken.
  (* the moves *)
  assert (Hdry4 : map_get [] (mock w4) = None).
  { unfold remember in Hm2, Hm3, Hm4. simpl in Hm2, Hm3, Hm4.
    rewrite Hm4, Hm3, Hm2. exact Hdry1. }
  apply bind_ok in H as ([] & w5 & Hmv & H).
  destruct (move_pages_attempts_all cfg server (moves p)
              (prop_opt (js "csrftoken")
                 (prop_opt (js "tokens") (prop_opt (js "query") d_csrf)))
              w4 Hdry4)
    as (w5' & moved & Emv & Ht5 & Hd5 & Hl5 & Hm5 & _).
  rewrite Emv in Hmv. injection Hmv as ->.
  (* the import *)
  apply bind_ok in H as ([] & w6 & Him & H).
  assert (Himp : exists imported,
             trace w6 = trace w5 ++ imported
             /\ logged w6 = logged w5
             /\ List.map fst imported
                = if truthy (patch_export p xml)
                  then [request_of (targetApiPhp cfg)
                          (import_opt (patch_export p xml)
                             (prop_opt (js "csrftoken")
                                (prop_opt (js "tokens")
                                   (prop_opt (js "query") d_csrf))))]
                  else []).
  { unfold import_pages in Him.
    destruct (truthy (patch_export p xml)).
    - apply bind_ok in Him as (d_import & w6' & Him & Hr).
      injection Hr as <-.
      apply api_ok_miss in Him as (_ & Ht6 & Hl6 & _);
        [|unfold cached; simpl; now rewrite Hm5].
      eexists. split; [exact Ht6|]. split; [exact Hl6 | reflexivity].
    - injection Him as <-. exists []. now rewrite app_nil_r. }
  destruct Himp as (imported & Ht6 & Hl6 & Hd6).
  (* the end *)
  assert (Hend : trace w' = trace w6 /\ logged w' = logged w6).
  { unfold commit in H.
    destruct (saveMockFlag cfg), syncTime; injection H as <-; auto. }
  destruct Hend as [Ht7 Hl7].
  exists d_export, xml, d_token, d_login, d_csrf, moved, imported.
  cbv zeta. split; [now symmetry|]. split; [exact Hok|]. split.
  { rewrite Ht7, Ht6, Ht5, Ht4, Ht3, Ht2, Hta.
    repeat rewrite <- app_assoc. reflexivity. }
  split; [exact Hd5|]. split; [exact Hd6|].
  rewrite Hl7, Hl6, Hl5, Hl4, Hl3, Hl2, Hla. reflexivity.
Qed.

End TargetSteps.

Lemma target_work_of_a_successful_run_witness :
  exists d_export xml d_token d_login d_csrf moved imported,
    let logintoken :=
      prop_opt (js "logintoken")
               (prop_opt (js "tokens") (prop_opt (js "query") d_token)) in
    let csrftoken :=
      prop_opt (js "csrftoken")
               (prop_opt (js "tokens") (prop_opt (js "query") d_csrf)) in
    prop_opt (js "export") (prop_opt (js "query") d_export) = JStr xml
    /\ login_ok d_login = true
    /\ trace (snd (apply_changes demo_config demo_wikis demo_pages []
                                 (str "2024-05-01T20:00:00Z") demo_world))
       = trace demo_world
         ++ [ (request_of (sourceApiPhp demo_config)
                          (export_opt (export_titles demo_pages)),
               Response d_export);
              (request_of (targetApiPhp demo_config)
                          (login_token_opt MockFalse),
               Response d_token);
              (request_of (targetApiPhp demo_config)
                          (login_opt MockFalse (targetUsername demo_config)
                                     (targetPassword demo_config) logintoken),
               Response d_login);
              (request_of (targetApiPhp demo_config) csrf_opt,
               Response d_csrf) ]
         ++ moved ++ imported
    /\ List.map fst moved
       = List.map (fun m => request_of (targetApiPhp demo_config)
                              (move_opt (fst m) (snd m) csrftoken))
                  (moves demo_pages)
    /\ List.map fst imported
       = (if truthy (patch_export demo_pages xml)
          then [request_of (targetApiPhp demo_config)
                           (import_opt (patch_export demo_pages xml)
                                       csrftoken)]
          else [])
    /\ logged (snd (apply_changes demo_config demo_wikis demo_pages []
                                  (str "2024-05-01T20:00:00Z") demo_world))
       = logged demo_world ++ flat_map (fun x => api_error (snd x)) moved.
Proof.
  apply (@target_work_of_a_successful_run demo_config demo_wikis demo_pages
           (str "2024-05-01T20:00:00Z") demo_world).
  - discriminate.
  - reflexivity.
  - reflexivity.
  - vm_compute. reflexivity.
Defined.

(* ===================================================================== *)
(** ** Entries of the change log that cannot be read *)
(* ===================================================================== *)

Lemma decode_move_without_params v :
  move_without_params v -> decode_change v = Throw TypeError.
Proof.
  intros (fields & title & -> & Hty & Hlt & Hti & Hlp).
  unfold decode_change, tag_field, string_field. simpl.
  rewrite Hty, Hlt, Hti, Hlp. simpl.
  destruct (map_get (js "logaction") fields) as [[]|]; reflexivity.
Qed.

Lemma omap_stops (A B : Type) (f : A -> Outcome B) good bad rest ys e :
  omap f good = Ok ys -> f bad = Throw e ->
  omap f (good ++ bad :: rest) = Throw e.
Proof.
  revert ys; induction good as [|x good IH]; intros ys Hg Hb; simpl.
  - now rewrite Hb.
  - simpl in Hg. destruct (f x) as [y| | | |]; try discriminate. simpl in *.
    destruct (omap f good) as [zs| | | |]; try discriminate.
    now rewrite (IH zs eq_refl Hb).
Qed.

(** [logaction] is compared loosely with "delete": an entry of log type
    "delete" is a deletion when its [logaction] is that string, or an
    array that holds nothing but that string or such an array, and not
    when it is an array of two strings, an empty array, another string,
    [null] or a plain object; on an object with a [toString] of its own
    the comparison throws. *)
Example logaction_is_compared_loosely :
  List.map (fun logaction =>
              obind (decode_change
                       (obj [field "type" (str "log");
                             field "title" (str "A");
                             field "logtype" (str "delete");
                             field "logaction" logaction]))
                    (fun e => Ok (is_delete_event e)))
           [ str "delete"; JArr [str "delete"]; JArr [JArr [str "delete"]];
             JArr [str "delete"; str "x"]; JArr []; str "restore"; JNull;
             obj []; obj [field "toString" (str "delete")] ]
  = [ Ok true; Ok true; Ok true; Ok false; Ok false; Ok false; Ok false;
      Ok false; Throw TypeError ].
Proof. vm_compute. reflexivity. Qed.

(** X26: an entry of the change log that is a move without [logparams]
    cannot be destructured: when the fetched list holds such an entry
    after entries that can be read, the fetch of the change log throws a
    [TypeError] (and with it the run, before the to-do list is built). *)
Theorem move_without_params_aborts cfg server fuel lastSync w data w1
        good bad rest events :
  apiQueryListAll cfg server fuel (sourceApiPhp cfg) (changes_opt lastSync) w
  = (Ok data, w1) ->
  prop_opt (js "recentchanges") (prop_opt (js "query") data)
  = JArr (good ++ bad :: rest) ->
  omap decode_change good = Ok events ->
  move_without_params bad ->
  fetch_changes cfg server fuel lastSync w = (Throw TypeError, w1).
Proof.
  intros Hf Hl Hg Hb. unfold fetch_changes.
  rewrite (@bind_step _ _ _ _ _ _ _ Hf).
  destruct data as [| | | | | |fields]; try discriminate.
  rewrite bind_lift. simpl prop.
  destruct (map_get (js "query") fields) as [q|] eqn:Hq;
    [|simpl in Hl; rewrite Hq in Hl; discriminate].
  simpl in Hl. rewrite Hq in Hl.
  destruct q as [| | | | | |qf]; try discriminate.
  rewrite bind_lift. simpl prop. simpl in Hl. rewrite Hl.
  rewrite bind_lift, bind_lift. simpl for_of. cbv iota.
  rewrite bind_lift.
  now rewrite (omap_stops decode_change good bad rest Hg
                 (decode_move_without_params Hb)).
Qed.

Lemma move_without_params_aborts_witness :
  fetch_changes demo_config hiding_wikis 3 (js "2024-04-30T20:00:00Z")
                demo_world
  = (Throw TypeError,
     snd (apiQueryListAll demo_config hiding_wikis 3
            (sourceApiPhp demo_config)
            (changes_opt (js "2024-04-30T20:00:00Z")) demo_world)).
Proof.
  apply (@move_without_params_aborts demo_config hiding_wikis 3
           (js "2024-04-30T20:00:00Z") demo_world
           (obj [field "query"
                   (obj [field "recentchanges"
                           (JArr [obj [field "type" (str "edit");
                                       field "title" (str "A");
                                       field "minor" (JBool false)];
                                  hidden_move])]);
                 field "curtimestamp" (str "2024-05-02T20:00:00Z")])
           (snd (apiQueryListAll demo_config hiding_wikis 3
                   (sourceApiPhp demo_config)
                   (changes_opt (js "2024-04-30T20:00:00Z")) demo_world))
           [obj [field "type" (str "edit"); field "title" (str "A");
                 field "minor" (JBool false)]]
           hidden_move []
           [ev_edit (js "A") false]).
  - vm_compute. reflexivity.
  - reflexivity.
  - reflexivity.
  - exists [field "type" (str "log"); field "title" (str "P");
            field "logtype" (str "move"); field "logaction" (str "move");
            field "actionhidden" (JBool true)], (js "P").
    repeat split; reflexivity.
Defined.

(* ===================================================================== *)
(** ** The run up to the to-do list *)
(* ===================================================================== *)

Lemma prop_truthy k v : js_truthy v = true -> prop k v = Ok (prop_opt k v).
Proof. destruct v; simpl; try discriminate; reflexivity. Qed.

Lemma prop_opt_truthy k v :
  js_truthy (prop_opt k v) = true -> js_truthy v = true.
Proof. destruct v; simpl; try discriminate; reflexivity. Qed.

Lemma holds_array_truthy k v items :
  prop_opt k v = JArr items -> js_truthy v = true.
Proof. destruct v; simpl; try discriminate; reflexivity. Qed.

Section RunSteps.
Variable cfg : Config.
Variable server : list (Request * Reply) -> Request -> Reply.

(** X28: the run up to the to-do list, from a configured start without
    source credentials and without a mock file, when the excluded
    category and the change log have one page each: the run sends the two
    list requests, in this order, builds the to-do list from the decoded
    change log and the excluded titles, and then either ends with
    "nothing to do", writing the [curtimestamp] of the change log to
    [~lastsync], when no page is pending, or goes on to the work on the
    target with the pending pages, no files, and that [curtimestamp] as
    the time to write at the end. *)
Theorem run_up_to_the_todo_list fuel w d_ex members ex d_ch entries events
        ts :
  truthy (sourceApiPhp cfg) && truthy (targetApiPhp cfg)
  && truthy (targetUsername cfg) && truthy (targetPassword cfg)
  && truthy (envLastSync cfg) = true ->
  truthy (sourceUsername cfg) && truthy (sourcePassword cfg) = false ->
  mockfile w = None ->
  server (trace w) (page_request (sourceApiPhp cfg) excluded_opt [])
  = Response d_ex ->
  has_errors d_ex = false -> continues d_ex = false ->
  prop_opt (js "categorymembers") (prop_opt (js "query") d_ex)
  = JArr members ->
  omap (string_field (js "title")) members = Ok ex ->
  server (trace w ++ [(page_request (sourceApiPhp cfg) excluded_opt [],
                       Response d_ex)])
         (page_request (sourceApiPhp cfg) (changes_opt (envLastSync cfg)) [])
  = Response d_ch ->
  has_errors d_ch = false -> continues d_ch = false ->
  prop_opt (js "recentchanges") (prop_opt (js "query") d_ch)
  = JArr entries ->
  omap decode_change entries = Ok events ->
  prop_opt (js "curtimestamp") d_ch = JStr ts ->
  exists w2,
    trace w2
    = trace w
      ++ [ (page_request (sourceApiPhp cfg) excluded_opt [], Response d_ex);
           (page_request (sourceApiPhp cfg)
                         (changes_opt (envLastSync cfg)) [],
            Response d_ch) ]
    /\ lastsync_file w2 = lastsync_file w
    /\ map_get [] (mock w2) = None
    /\ map_get (js "export") (mock w2) = None
    /\ main cfg server (S fuel) w
       = if Nat.eqb (map_size (pages (todo events ex))) 0
         then (Exit, set_lastsync w2 ts)
         else apply_changes cfg server (pages (todo events ex)) []
                            (JStr ts) w2.
Proof.
  intros Hcfg Hcred Hmf Hs1 He1 Hc1 Hm1 Hex Hs2 He2 Hc2 Hm2 Hev Hts.
  apply andb_true_iff in Hcfg as [Hcfg Henv].
  apply andb_true_iff in Hcfg as [Hcfg Hpass].
  apply andb_true_iff in Hcfg as [Hcfg Huser].
  apply andb_true_iff in Hcfg as [Hsrc Htgt].
  pose proof (holds_array_truthy _ _ Hm1) as Hq1.
  pose proof (holds_array_truthy _ _ Hm2) as Hq2.
  set (w0 := set_mock w []).
  destruct (@single_page_fetch cfg server (sourceApiPhp cfg) excluded_opt
              (js "excludedpages") fuel w0 d_ex eq_refl eq_refl eq_refl
              Hs1 He1 Hq1 Hc1)
    as (w1 & E1 & Ht1 & _ & Hk1 & Hf1 & _).
  assert (Hs2' : server (trace w1)
                   (page_request (sourceApiPhp cfg)
                                 (changes_opt (envLastSync cfg)) [])
                 = Response d_ch) by (rewrite Ht1; exact Hs2).
  destruct (@single_page_fetch cfg server (sourceApiPhp cfg)
              (changes_opt (envLastSync cfg))
              (js "recentchanges") fuel w1 d_ch eq_refl eq_refl
              ltac:(rewrite Hk1 by discriminate; reflexivity)
              Hs2' He2 Hq2 Hc2)
    as (w2 & E2 & Ht2 & _ & Hk2 & Hf2 & _).
  exists w2. split; [rewrite Ht2, Ht1, <- app_assoc; reflexivity|].
  split; [rewrite Hf2, Hf1; reflexivity|].
  split; [rewrite Hk2, Hk1 by discriminate; reflexivity|].
  split; [rewrite Hk2, Hk1 by discriminate; reflexivity|].
  (* the excluded titles *)
  assert (Fex : fetch_excluded cfg server (S fuel) w0 = (Ok ex, w1)).
  { unfold fetch_excluded. rewrite (@bind_step _ _ _ _ _ _ _ E1).
    rewrite bind_lift,
      (prop_truthy (js "query") d_ex (prop_opt_truthy _ _ Hq1)).
    rewrite bind_lift, (prop_truthy (js "categorymembers") _ Hq1), Hm1.
    rewrite bind_lift. simpl for_of. unfold lift. now rewrite Hex. }
  (* the change log *)
  assert (Fch : fetch_changes cfg server (S fuel) (envLastSync cfg) w1
                = (Ok (events, JStr ts), w2)).
  { unfold fetch_changes. rewrite (@bind_step _ _ _ _ _ _ _ E2).
    rewrite bind_lift,
      (prop_truthy (js "query") d_ch (prop_opt_truthy _ _ Hq2)).
    rewrite bind_lift, (prop_truthy (js "recentchanges") _ Hq2), Hm2.
    rewrite bind_lift,
      (prop_truthy (js "curtimestamp") d_ch (prop_opt_truthy _ _ Hq2)),
      Hts.
    rewrite bind_lift. simpl for_of. cbv iota.
    unfold bind, lift, ret. now rewrite Hev. }
  (* the script *)
  assert (R : read_last_sync cfg w = (Ok (envLastSync cfg), w))
    by (unfold read_last_sync; now rewrite Henv).
  assert (L : load_mock w = (Ok tt, w0))
    by (unfold load_mock, w0; now rewrite Hmf).
  unfold main. rewrite (@bind_step _ _ _ _ _ _ _ R).
  unfold require. rewrite Hsrc, Htgt, Huser, Hpass, Henv.
  rewrite !bind_ret, (@bind_step _ _ _ _ _ _ _ L).
  unfold source_login. rewrite Hcred, bind_ret.
  rewrite (@bind_step _ _ _ _ _ _ _ Fex), (@bind_step _ _ _ _ _ _ _ Fch).
  cbv zeta. rewrite exclude_reduce_fileIds.
  change (fst (events, JStr ts)) with events.
  change (snd (events, JStr ts)) with (JStr ts).
  change (Nat.eqb (map_size (@nil (jsstring * unit))) 0) with true.
  rewrite andb_true_r. fold (todo events ex).
  destruct (Nat.eqb (map_size (pages (todo events ex))) 0); reflexivity.
Qed.

End RunSteps.

Lemma run_up_to_the_todo_list_witness :
  exists d_ex d_ch w2,
    trace w2
    = trace demo_world
      ++ [ (page_request (sourceApiPhp demo_config) excluded_opt [],
            Response d_ex);
           (page_request (sourceApiPhp demo_config)
                         (changes_opt (envLastSync demo_config)) [],
            Response d_ch) ]
    /\ lastsync_file w2 = lastsync_file demo_world
    /\ map_get [] (mock w2) = None
    /\ map_get (js "export") (mock w2) = None
    /\ main demo_config demo_wikis 1 demo_world
       = apply_changes demo_config demo_wikis demo_pages []
                       (str "2024-05-01T20:00:00Z") w2.
Proof.
  do 2 eexists.
  edestruct (@run_up_to_the_todo_list demo_config demo_wikis 0 demo_world)
    as (w2 & Ht & Hf & Hk & Hx & Hm);
    [ vm_compute; reflexivity .. | ].
  exists w2. repeat split; [exact Ht | exact Hf | exact Hk | exact Hx |].
  rewrite Hm.
  match goal with
  | |- (if _ then _ else apply_changes _ _ (pages (todo ?evs ?ex)) _ _ _) = _ =>
      assert (P : pages (todo evs ex) = demo_pages)
        by (vm_compute; reflexivity);
      rewrite P
  end.
  reflexivity.
Defined.

(* ===================================================================== *)
(** ** Failed moves and failed calls *)
(* ===================================================================== *)

Lemma split_at_move (dc dk d1 d2 : list (Request * Reply)) x :
  forallb (fun y => not_a_move (fst y)) dc = true ->
  is_move_request (fst x) = true ->
  dc ++ dk = d1 ++ x :: d2 ->
  exists d1', d1 = dc ++ d1' /\ dk = d1' ++ x :: d2.
Proof.
  revert d1. induction dc as [|y dc IH]; intros d1 Hq Hx E; simpl in *.
  - exists d1. auto.
  - apply andb_true_iff in Hq as [Hy Hq].
    destruct d1 as [|z d1]; simpl in E; injection E as E1 E2.
    + subst y. unfold not_a_move in Hy. rewrite Hx in Hy. discriminate.
    + subst z. destruct (IH d1 Hq Hx E2) as (d1' & -> & ->).
      exists d1'. auto.
Qed.

Lemma tolerant_of_sends (A : Type) (c : M A) :
  sends not_a_move c -> tolerant c.
Proof.
  intros Hc w r w' H. destruct (Hc _ _ _ H) as (d & Ht & Hq).
  exists d. split; [exact Ht|]. intros d1 x d2 -> Hx. exfalso.
  rewrite forallb_app in Hq. simpl in Hq. unfold not_a_move in Hq.
  rewrite Hx in Hq. simpl in Hq. rewrite andb_false_r in Hq. discriminate.
Qed.

Lemma tolerant_bind (A B : Type) (c : M A) (k : A -> M B) :
  sends not_a_move c -> (forall a, tolerant (k a)) -> tolerant (bind c k).
Proof.
  intros Hc Hk w r w' H. unfold bind in H.
  destruct (c w) as [r1 w1] eqn:E1.
  destruct (Hc _ _ _ E1) as (dc & Htc & Hqc).
  assert (Hno : forall d1 x d2, dc = d1 ++ x :: d2 ->
                  is_move_request (fst x) = true -> False).
  { intros d1 x d2 E Hx. rewrite E, forallb_app in Hqc. simpl in Hqc.
    unfold not_a_move in Hqc. rewrite Hx in Hqc. simpl in Hqc.
    rewrite andb_false_r in Hqc. discriminate. }
  destruct r1 as [a|e| | |].
  - destruct (Hk a _ _ _ H) as (dk & Htk & Hm).
    exists (dc ++ dk). split; [rewrite Htk, Htc, app_assoc; reflexivity|].
    intros d1 x d2 E Hx.
    destruct (@split_at_move dc dk d1 d2 x Hqc Hx E) as (d1' & _ & E').
    eapply Hm; eauto.
  - injection H as <- <-. exists dc. split; [exact Htc|].
    intros d1 x d2 -> Hx. exfalso. now apply (Hno d1 x d2).
  - injection H as <- <-. exists dc. split; [exact Htc|].
    intros d1 x d2 -> Hx. exfalso. now apply (Hno d1 x d2).
  - injection H as <- <-. exists dc. split; [exact Htc|].
    intros d1 x d2 -> Hx. exfalso. now apply (Hno d1 x d2).
  - injection H as <- <-. exists dc. split; [exact Htc|].
    intros d1 x d2 -> Hx. exfalso. now apply (Hno d1 x d2).
Qed.

Lemma carries_tolerant (A : Type) (c : M A) : carries_on c -> tolerant c.
Proof.
  intros Hc w r w' H. destruct (Hc _ _ _ H) as (d & Ht & _ & Hm). eauto.
Qed.

Section MoveFailures.
Variable cfg : Config.
Variable server : list (Request * Reply) -> Request -> Reply.

Lemma commit_returns syncTime w r w' :
  commit cfg syncTime w = (r, w') -> r = Ok tt /\ trace w' = trace w.
Proof.
  unfold commit. intros H.
  destruct (saveMockFlag cfg), syncTime; injection H as <- <-; auto.
Qed.

(** After the last move: the import, when there is something to import,
    and the last statement. *)
Lemma carries_on_import xmlExport csrftoken syncTime :
  carries_on (import_pages cfg server xmlExport csrftoken ;;;
              commit cfg syncTime).
Proof.
  intros w r w' H. unfold import_pages in H.
  destruct (truthy xmlExport).
  - set (opt := import_opt xmlExport csrftoken) in *.
    unfold bind at 1 2 in H.
    destruct (api cfg server (targetApiPhp cfg) opt None w)
      as [r1 w1] eqn:E1.
    destruct (cached (o_mock opt) (mock w)) as [data|] eqn:Hc.
    + rewrite (api_hit cfg server _ opt None w Hc) in E1.
      injection E1 as <- <-. unfold ret in H.
      apply commit_returns in H as [-> Ht].
      exists []. rewrite app_nil_r. split; [exact Ht|].
      split; eauto.
    + destruct (api_miss cfg server _ opt None w Hc E1) as (Ht1 & _).
      set (x := (request_of (targetApiPhp cfg) opt,
                 server (trace w) (request_of (targetApiPhp cfg) opt)))
        in *.
      assert (Hx : is_move_request (fst x) = false) by reflexivity.
      assert (Hnot : forall d1 y d2, [x] = d1 ++ y :: d2 ->
                       is_move_request (fst y) = true -> False).
      { intros d1 y d2 E Hy.
        destruct d1 as [|z d1]; simpl in E; injection E as E2 E3.
        - subst y. congruence.
        - destruct d1; discriminate. }
      destruct r1 as [d|e| | |].
      * unfold ret in H. apply commit_returns in H as [-> Ht].
        exists [x]. split; [congruence|]. split; eauto.
      * injection H as <- <-. exists [x]. split; [exact Ht1|].
        split; [discriminate|]. intros d1 y d2 E Hy.
        destruct (Hnot _ _ _ E Hy).
      * injection H as <- <-. exists [x]. split; [exact Ht1|].
        split; [discriminate|]. intros d1 y d2 E Hy.
        destruct (Hnot _ _ _ E Hy).
      * injection H as <- <-. exists [x]. split; [exact Ht1|].
        split; [discriminate|]. intros d1 y d2 E Hy.
        destruct (Hnot _ _ _ E Hy).
      * injection H as <- <-. exists [x]. split; [exact Ht1|].
        split; [discriminate|]. intros d1 y d2 E Hy.
        destruct (Hnot _ _ _ E Hy).
  - rewrite bind_ret in H. apply commit_returns in H as [-> Ht].
    exists []. rewrite app_nil_r. split; [exact Ht|]. split; eauto.
Qed.

(** The move loop and what follows it: a move, whatever its reply, is
    followed by the next move, by the import, or by the normal end of
    the run. *)
Lemma carries_on_moves mvs csrftoken xmlExport syncTime :
  carries_on (move_pages cfg server mvs csrftoken ;;;
              import_pages cfg server xmlExport csrftoken ;;;
              commit cfg syncTime).
Proof.
  induction mvs as [|[from to] mvs IH]; intros w r w' H.
  - simpl move_pages in H. rewrite bind_ret in H.
    exact (carries_on_import _ _ _ _ H).
  - simpl move_pages in H. rewrite bind_assoc in H.
    set (opt := move_opt from to csrftoken) in *.
    unfold bind at 1 in H. unfold catch_log in H.
    destruct (api cfg server (targetApiPhp cfg) opt None w)
      as [r1 w1] eqn:E1.
    destruct (cached (o_mock opt) (mock w)) as [data|] eqn:Hc.
    + rewrite (api_hit cfg server _ opt None w Hc) in E1.
      injection E1 as <- <-. exact (IH _ _ _ H).
    + destruct (api_miss cfg server _ opt None w Hc E1)
        as (Ht1 & _ & _ & Hr1 & _).
      assert (Hr : (exists d, r1 = Ok d) \/ exists e, r1 = Throw e).
      { rewrite Hr1.
        destruct (server (trace w) (request_of (targetApiPhp cfg) opt))
          as [data|info]; [|eauto].
        destruct (screen_plain data) as [->|[e ->]]; eauto. }
      set (x := (request_of (targetApiPhp cfg) opt,
                 server (trace w) (request_of (targetApiPhp cfg) opt)))
        in *.
      assert (Hgo : exists w2, trace w2 = trace w ++ [x]
                      /\ (move_pages cfg server mvs csrftoken ;;;
                          import_pages cfg server xmlExport csrftoken ;;;
                          commit cfg syncTime) w2 = (r, w')).
      { destruct Hr as [[d ->]|[e ->]].
        - exists w1. auto.
        - exists (console_error w1 e). auto. }
      destruct Hgo as (w2 & Ht2 & Hrest).
      destruct (IH _ _ _ Hrest) as (d & Ht & Hnil & Hm).
      exists (x :: d). split; [rewrite Ht, Ht2, <- app_assoc; reflexivity|].
      split; [discriminate|].
      intros d1 y d2 E Hy.
      destruct d1 as [|z d1]; simpl in E; injection E as E2 E3.
      * subst y d2. destruct d as [|y' d']; [right; auto | left; discriminate].
      * subst z. eapply Hm; eauto.
Qed.

Lemma not_a_move_get url opt :
  o_method opt = get_method -> not_a_move (request_of url opt) = true.
Proof.
  intros Hm. unfold not_a_move, is_move_request, request_of. simpl.
  now rewrite Hm.
Qed.

(** No move brings a run to an end. *)
Lemma main_tolerant fuel : tolerant (main cfg server fuel).
Proof.
  unfold main.
  apply tolerant_bind;
    [ apply respects_sends with (K := fun _ => true),
        respects_read_last_sync |].
  intros lastSync.
  do 5 (apply tolerant_bind;
        [ apply respects_sends with (K := fun _ => true), respects_require
        | intros _ ]).
  apply tolerant_bind;
    [ apply respects_sends with (K := fun _ => true), respects_load_mock
    | intros _ ].
  apply tolerant_bind;
    [ apply sends_source_login; intros; reflexivity | intros _ ].
  apply tolerant_bind;
    [ apply sends_fetch_excluded; reflexivity |].
  intros excludedPages.
  apply tolerant_bind;
    [ apply sends_fetch_changes; intros; reflexivity |].
  intros fetched. cbv zeta. rewrite exclude_reduce_fileIds.
  match goal with |- tolerant (if ?b then _ else _) => destruct b end.
  - apply tolerant_of_sends, sends_nothing_to_do.
  - unfold apply_changes. cbv zeta.
    apply tolerant_bind;
      [ apply sends_export_pages; intros; reflexivity |].
    intros xmlExport.
    apply tolerant_bind; [ apply sends_no_file_urls | intros _ ].
    apply tolerant_bind;
      [ apply sends_target_login; intros; reflexivity | intros _ ].
    apply tolerant_bind;
      [ apply sends_fetch_csrf; reflexivity |].
    intros csrftoken.
    apply carries_tolerant, carries_on_moves.
Qed.

End MoveFailures.

(** C8: a failure of a page move does not stop the run, a failure of
    any other call does. Of the exchanges of a run of the script, one
    that is no move and whose reply carries an [errors] array with
    entries, or (for a login) a result other than "Success", or that
    fails in transport, is the last: the run ends there with a throw and
    the watermark is not written. A move, whatever its reply, is followed
    by another exchange, unless it is the last exchange of a run that
    ends normally. And when the steps of the run up to the CSRF token
    have returned (the last-sync time, the login on the source, the two
    lists, a to-do list that is not empty, the export, the login on the
    target, the token), and the run is no dry run, then whatever the
    target answers to the moves, the rest of the run sends one move
    request per pair of the move list of the to-do list, in order, hands
    every failure among them to [console.error], sends the import
    request when the export is not empty, and ends normally if the
    import raises nothing. *)
Theorem C8_move_errors_caught_other_errors_fatal cfg server fuel w0 r w1 :
  main cfg server fuel w0 = (r, w1) ->
  exists d,
    trace w1 = trace w0 ++ d
    /\ (forall d1 x d2, d = d1 ++ x :: d2 -> fatal x = true ->
          d2 = [] /\ (exists e, r = Throw e)
          /\ lastsync_file w1 = lastsync_file w0)
    /\ (forall d1 x d2, d = d1 ++ x :: d2 ->
          is_move_request (fst x) = true ->
          d2 <> [] \/ r = Ok tt)
    /\ forall lastSync wa ex wb events syncTime wc xmlExport wd we csrftoken wf,
       truthy (sourceApiPhp cfg) && truthy (targetApiPhp cfg)
       && truthy (targetUsername cfg) && truthy (targetPassword cfg)
       && truthy lastSync = true ->
       read_last_sync cfg w0 = (Ok lastSync, w0) ->
       source_login cfg server (snd (load_mock w0)) = (Ok tt, wa) ->
       fetch_excluded cfg server fuel wa = (Ok ex, wb) ->
       fetch_changes cfg server fuel lastSync wb
       = (Ok (events, syncTime), wc) ->
       pages (todo events ex) <> [] ->
       export_pages cfg server (pages (todo events ex)) wc
       = (Ok xmlExport, wd) ->
       target_login cfg server wd = (Ok tt, we) ->
       fetch_csrf cfg server we = (Ok csrftoken, wf) ->
       map_get [] (mock wf) = None ->
       exists moved imported,
         trace w1 = trace wf ++ moved ++ imported
         /\ List.map fst moved
            = List.map (fun m => request_of (targetApiPhp cfg)
                                   (move_opt (fst m) (snd m) csrftoken))
                       (moves (pages (todo events ex)))
         /\ List.map fst imported
            = (if truthy xmlExport
               then [request_of (targetApiPhp cfg)
                                (import_opt xmlExport csrftoken)]
               else [])
         /\ logged w1
            = logged wf ++ flat_map (fun x => api_error (snd x)) moved
         /\ (flat_map (fun x => api_error (snd x)) imported = [] ->
             r = Ok tt).
Proof.
  intros Hmain.
  destruct (@main_aborts_cleanly cfg server fuel w0 r w1 Hmain)
    as (Hth & d & Ht & Hg).
  destruct (@main_tolerant cfg server fuel w0 r w1 Hmain)
    as (d' & Ht' & Hmv).
  assert (E : d' = d) by (rewrite Ht in Ht'; now apply app_inv_head in Ht').
  subst d'. exists d. split; [exact Ht|]. split; [|split].
  - intros d1 x d2 E Hx. destruct (Hg d1 x d2 E Hx) as [H2 He]. auto.
  - intros d1 x d2 E Hx.
    destruct (Hmv d1 x d2 E Hx) as [H2|[[] ->]]; auto.
  - clear d Ht Ht' Hg Hmv.
    intros lastSync wa ex wb events syncTime wc xmlExport wd we csrftoken wf
           Hcfg Hread Hsrc Hex Hch Hp Hexp Hlog Hcsrf Hdry.
    apply andb_true_iff in Hcfg as [Hcfg Hls].
    apply andb_true_iff in Hcfg as [Hcfg Hpass].
    apply andb_true_iff in Hcfg as [Hcfg Huser].
    apply andb_true_iff in Hcfg as [Hs Ht].
    set (p := pages (todo events ex)) in *.
    assert (Hsz : Nat.eqb (map_size p) 0 = false)
      by (destruct p; [congruence | reflexivity]).
    destruct (move_pages_attempts_all cfg server (moves p) csrftoken wf Hdry)
      as (w5 & moved & Emv & Ht5 & Hd5 & Hl5 & Hm5 & Hf5).
    assert (Hrun : main cfg server fuel w0
                   = (import_pages cfg server xmlExport csrftoken ;;;
                      commit cfg syncTime) w5).
    { unfold main. rewrite (@bind_step _ _ _ _ _ _ _ Hread).
      unfold require. rewrite Hs, Ht, Huser, Hpass, Hls. rewrite !bind_ret.
      assert (L : load_mock w0 = (Ok tt, snd (load_mock w0)))
        by reflexivity.
      rewrite (@bind_step _ _ _ _ _ _ _ L).
      rewrite (@bind_step _ _ _ _ _ _ _ Hsrc).
      rewrite (@bind_step _ _ _ _ _ _ _ Hex).
      rewrite (@bind_step _ _ _ _ _ _ _ Hch).
      cbv zeta. rewrite exclude_reduce_fileIds.
      change (fst (events, syncTime)) with events.
      change (snd (events, syncTime)) with syncTime.
      fold (todo events ex). fold p. rewrite Hsz.
      change (false && Nat.eqb (map_size (@nil (jsstring * Z))) 0)
        with false. cbv iota.
      unfold apply_changes. cbv zeta.
      rewrite (@bind_step _ _ _ _ _ _ _ Hexp).
      unfold fetch_file_urls. simpl map_size. simpl Nat.eqb. cbv iota.
      rewrite bind_ret.
      rewrite (@bind_step _ _ _ _ _ _ _ Hlog).
      rewrite (@bind_step _ _ _ _ _ _ _ Hcsrf).
      rewrite (@bind_step _ _ _ _ _ _ _ Emv). reflexivity. }
    rewrite Hrun in Hmain. clear Hrun.
    assert (Hend : forall w6 r' w', commit cfg syncTime w6 = (r', w') ->
                     r' = Ok tt /\ trace w' = trace w6
                     /\ logged w' = logged w6).
    { intros w6 r' w' H. unfold commit in H.
      destruct (saveMockFlag cfg), syncTime; injection H as <- <-; auto. }
    unfold import_pages in Hmain.
    destruct (truthy xmlExport) eqn:Hx.
    + set (opt := import_opt xmlExport csrftoken) in *.
      unfold bind at 1 2 in Hmain.
      destruct (api cfg server (targetApiPhp cfg) opt None w5)
        as [r1 w6] eqn:E1.
      assert (Hc : cached (o_mock opt) (mock w5) = None).
      { unfold opt, cached. simpl. now rewrite Hm5. }
      destruct (api_miss cfg server _ opt None w5 Hc E1)
        as (Ht6 & _ & Hl6 & Hr6 & _).
      set (reply := server (trace w5) (request_of (targetApiPhp cfg) opt))
        in *.
      exists moved, [(request_of (targetApiPhp cfg) opt, reply)].
      assert (Hsame : trace w1 = trace w6 /\ logged w1 = logged w6
                      /\ (api_error reply = [] -> r = Ok tt)).
      { rewrite api_error_spec.
        destruct r1 as [d|e| | |].
        - unfold ret in Hmain. apply Hend in Hmain as (-> & Ht7 & Hl7).
          auto.
        - injection Hmain as <- <-. repeat split.
          destruct reply as [data|info]; [|discriminate].
          rewrite <- Hr6. discriminate.
        - injection Hmain as <- <-. repeat split.
          destruct reply as [data|info]; [|discriminate].
          destruct (screen_plain data) as [Hsc|[e Hsc]];
            rewrite Hsc in Hr6; discriminate.
        - injection Hmain as <- <-. repeat split.
          destruct reply as [data|info]; [|discriminate].
          destruct (screen_plain data) as [Hsc|[e Hsc]];
            rewrite Hsc in Hr6; discriminate.
        - injection Hmain as <- <-. repeat split.
          destruct reply as [data|info]; [|discriminate].
          destruct (screen_plain data) as [Hsc|[e Hsc]];
            rewrite Hsc in Hr6; discriminate. }
      destruct Hsame as (Ht7 & Hl7 & Hok).
      split; [rewrite Ht7, Ht6, Ht5, <- app_assoc; reflexivity|].
      split; [exact Hd5|]. split; [reflexivity|].
      split; [rewrite Hl7, Hl6, Hl5; reflexivity|].
      simpl. rewrite app_nil_r. exact Hok.
    + rewrite bind_ret in Hmain. apply Hend in Hmain as (-> & Ht7 & Hl7).
      exists moved, []. rewrite app_nil_r.
      split; [rewrite Ht7, Ht5; reflexivity|].
      split; [exact Hd5|]. split; [reflexivity|].
      split; [rewrite Hl7, Hl5; reflexivity | reflexivity].
Qed.

Lemma C8_move_errors_caught_other_errors_fatal_witness :
  (exists d1 x,
      trace (snd (main demo_config refusing_wikis 3 demo_world))
      = trace demo_world ++ d1 ++ [x]
      /\ fatal x = true
      /\ (exists e, fst (main demo_config refusing_wikis 3 demo_world)
                    = Throw e)
      /\ lastsync_file (snd (main demo_config refusing_wikis 3 demo_world))
         = lastsync_file demo_world)
  /\ (exists d1 x d2,
        trace (snd (main demo_config busy_wikis 3 demo_world))
        = trace demo_world ++ d1 ++ x :: d2
        /\ is_move_request (fst x) = true
        /\ failed (fst x) (snd x) = true
        /\ (d2 <> [] \/ fst (main demo_config busy_wikis 3 demo_world)
                         = Ok tt))
  /\ (exists csrftoken xmlExport wf moved imported,
        trace (snd (main demo_config busy_wikis 3 demo_world))
        = trace wf ++ moved ++ imported
        /\ List.map fst moved
           = List.map (fun m => request_of (targetApiPhp demo_config)
                                  (move_opt (fst m) (snd m) csrftoken))
                      [(js "P", js "Q"); (js "R", js "S")]
        /\ List.map fst imported
           = [request_of (targetApiPhp demo_config)
                         (import_opt xmlExport csrftoken)]
        /\ logged (snd (main demo_config busy_wikis 3 demo_world))
           = logged wf ++ flat_map (fun x => api_error (snd x)) moved
        /\ (flat_map (fun x => api_error (snd x)) imported = [] ->
            fst (main demo_config busy_wikis 3 demo_world) = Ok tt)
        /\ List.length (logged (snd (main demo_config busy_wikis 3
                                          demo_world))) = 2%nat).
Proof.
  split; [|split].
  - destruct (@C8_move_errors_caught_other_errors_fatal
                demo_config refusing_wikis 3 demo_world
                (fst (main demo_config refusing_wikis 3 demo_world))
                (snd (main demo_config refusing_wikis 3 demo_world))
                (surjective_pairing _))
      as (d & Ht & Hg & _).
    set (t := trace (snd (main demo_config refusing_wikis 3 demo_world)))
      in *.
    change (trace demo_world ++ d) with d in Ht. subst d.
    exists (removelast t), (last t (mkRequest [] [] [] [], Failure JNull)).
    assert (E : t = removelast t
                    ++ [last t (mkRequest [] [] [] [], Failure JNull)])
      by (vm_compute; reflexivity).
    assert (E0 : t = trace demo_world ++ removelast t
                     ++ [last t (mkRequest [] [] [] [], Failure JNull)])
      by (vm_compute; reflexivity).
    split; [exact E0|].
    split; [vm_compute; reflexivity|].
    destruct (Hg _ _ [] E) as (_ & He & Hf); [vm_compute; reflexivity|].
    split; [exact He | exact Hf].
  - destruct (@C8_move_errors_caught_other_errors_fatal
                demo_config busy_wikis 3 demo_world
                (fst (main demo_config busy_wikis 3 demo_world))
                (snd (main demo_config busy_wikis 3 demo_world))
                (surjective_pairing _))
      as (d & Ht & _ & Hmv & _).
    set (t := trace (snd (main demo_config busy_wikis 3 demo_world))) in *.
    change (trace demo_world ++ d) with d in Ht. subst d.
    exists (firstn 6 t),
           (nth 6 t (mkRequest [] [] [] [], Failure JNull)),
           (skipn 7 t).
    assert (E : t = firstn 6 t
                    ++ nth 6 t (mkRequest [] [] [] [], Failure JNull)
                    :: skipn 7 t)
      by (vm_compute; reflexivity).
    assert (E0 : t = trace demo_world ++ firstn 6 t
                     ++ nth 6 t (mkRequest [] [] [] [], Failure JNull)
                     :: skipn 7 t)
      by (vm_compute; reflexivity).
    split; [exact E0|].
    split; [vm_compute; reflexivity|].
    split; [vm_compute; reflexivity|].
    apply (Hmv _ _ _ E). vm_compute. reflexivity.
  - do 3 eexists.
    destruct (@C8_move_errors_caught_other_errors_fatal
                demo_config busy_wikis 3 demo_world
                (fst (main demo_config busy_wikis 3 demo_world))
                (snd (main demo_config busy_wikis 3 demo_world))
                (surjective_pairing _))
      as (d & _ & _ & _ & HA).
    edestruct (HA (envLastSync demo_config))
      as (moved & imported & H1 & H2 & H3 & H4 & H5);
      [ vm_compute; reflexivity
      | vm_compute; reflexivity
      | vm_compute; reflexivity
      | vm_compute; reflexivity
      | vm_compute; reflexivity
      | vm_compute; discriminate
      | vm_compute; reflexivity
      | vm_compute; reflexivity
      | vm_compute; reflexivity
      | vm_compute; reflexivity
      | ].
    exists moved, imported.
    split; [exact H1|]. split; [exact H2|]. split; [exact H3|].
    split; [exact H4|]. split; [exact H5|].
    vm_compute. reflexivity.
Defined.
